(** * StackBill deployment centre: the automation-run pipeline

    A shallow embedding of the run pipeline of the StackBill deployment
    backend and the proofs of its specified properties:

    - [InventoryService]: backend/services/inventoryService.js
      (formatServerLine, generateInventoryContent, generateInventory,
      cleanupInventory);
    - [PlaybookService]: backend/services/playbookService.js
      (parseCredentials, parseAnsibleOutput, executePlaybook);
    - [ApiServer]: the executePlaybook of the monolithic backend/api-server.js,
      which the modular backend replaces and which differs from it in the
      exit-code policy and in the credential passes;
    - [PathHelper], [CommandLine]: backend/utils/pathHelper.js and the
      command line that executePlaybook builds;
    - [Validation]: backend/middleware/validation.js;
    - [PlaybookController]: backend/controllers/playbookController.js.

    Conventions of the model.  A JavaScript string is a [string] of code
    units below 256; the classes of characters (white space, line
    terminators, digits, letter case) are the ECMAScript ones restricted to
    that range.  An object used as a dictionary is a [gmap] of its own
    properties; a name is looked up with [Js.get], which also finds what
    every object inherits from Object.prototype, taken as the runtime ships
    it: a write that lands on an inherited object is not followed.  A field
    that may be absent is an [option]; [truthy] gives JavaScript's reading of
    it in a condition.  [path.join] of a directory and a relative name is
    written as the two texts with a slash between them, its POSIX result for
    the names that this program joins. *)

From Stdlib Require Import Ascii ZArith DecimalString DecimalN.
From stdpp Require Import base option list gmap strings.

(** ** Part I: the program *)

(** *** JavaScript string primitives *)

Module Js.

Definition isWhiteSpace (c : ascii) : bool :=
  let n := nat_of_ascii c in
  ((9 <=? n) && (n <=? 13)) || (n =? 32) || (n =? 160).

Definition isLineTerminator (c : ascii) : bool :=
  let n := nat_of_ascii c in (n =? 10) || (n =? 13).

Definition isDigit (c : ascii) : bool :=
  let n := nat_of_ascii c in (48 <=? n) && (n <=? 57).

Definition toLowerChar (c : ascii) : ascii :=
  let n := nat_of_ascii c in
  if ((65 <=? n) && (n <=? 90))
     || ((192 <=? n) && (n <=? 222) && negb (n =? 215))
  then ascii_of_nat (n + 32) else c.

Fixpoint toLowerCase (s : string) : string :=
  match s with
  | EmptyString => EmptyString
  | String c s' => String (toLowerChar c) (toLowerCase s')
  end.

Definition eqc (a b : ascii) : bool := bool_decide (a = b).

Definition eqs (a b : string) : bool := bool_decide (a = b).

(** A string in a condition: the empty string is falsy. *)
Definition nonEmpty (s : string) : bool :=
  match s with EmptyString => false | String _ _ => true end.

Fixpoint trimStart (s : string) : string :=
  match s with
  | EmptyString => EmptyString
  | String c s' => if isWhiteSpace c then trimStart s' else s
  end.

Fixpoint trimEnd (s : string) : string :=
  match s with
  | EmptyString => EmptyString
  | String c s' =>
      match trimEnd s' with
      | EmptyString => if isWhiteSpace c then EmptyString else String c EmptyString
      | t => String c t
      end
  end.

Definition trim (s : string) : string := trimEnd (trimStart s).

(** [startsWith p s] is [s.startsWith(p)]. *)
Fixpoint startsWith (p s : string) : bool :=
  match p, s with
  | EmptyString, _ => true
  | String a p', String b s' => eqc a b && startsWith p' s'
  | String _ _, EmptyString => false
  end.

(** The same test for a literal of a pattern with the [i] flag. *)
Fixpoint startsWithI (p s : string) : bool :=
  match p, s with
  | EmptyString, _ => true
  | String a p', String b s' =>
      eqc (toLowerChar a) (toLowerChar b) && startsWithI p' s'
  | String _ _, EmptyString => false
  end.

Fixpoint drop (n : nat) (s : string) : string :=
  match n, s with
  | O, _ => s
  | S n', String _ s' => drop n' s'
  | S _, EmptyString => EmptyString
  end.

(** [split sep s] is [s.split(sep)] for a separator of one character; it
    never returns the empty list. *)
Fixpoint split (sep : ascii) (s : string) : list string :=
  match s with
  | EmptyString => [EmptyString]
  | String c s' =>
      if eqc c sep then EmptyString :: split sep s'
      else match split sep s' with
           | h :: t => String c h :: t
           | [] => [String c EmptyString]
           end
  end.

(** [s.replace(/c/g, r)] for one character by one character. *)
Fixpoint replaceAll (c r : ascii) (s : string) : string :=
  match s with
  | EmptyString => EmptyString
  | String x s' => String (if eqc x c then r else x) (replaceAll c r s')
  end.

Definition concat (l : list string) : string := foldr String.append EmptyString l.

(** [l.join(sep)]. *)
Fixpoint join (sep : string) (l : list string) : string :=
  match l with
  | [] => EmptyString
  | [x] => x
  | x :: l' => x +:+ sep +:+ join sep l'
  end.

(** Decimal text of a number, as a template literal prints it. *)
Definition ofN (n : N) : string := NilZero.string_of_uint (N.to_uint n).

Definition ofNat (n : nat) : string := NilZero.string_of_uint (Nat.to_uint n).

Definition ofZ (z : Z) : string := NilZero.string_of_int (Z.to_int z).

(** An optional string field read in a condition or on the left of [||]. *)
Definition truthy (o : option string) : option string :=
  match o with
  | Some s => if nonEmpty s then Some s else None
  | None => None
  end.

Definition orElse (o : option string) (d : string) : string := default d (truthy o).

(** The names that an object literal inherits from [Object.prototype]. *)
Definition inherited : list string :=
  [ "constructor"; "__proto__"; "hasOwnProperty"; "isPrototypeOf";
    "propertyIsEnumerable"; "toLocaleString"; "toString"; "valueOf";
    "__defineGetter__"; "__defineSetter__"; "__lookupGetter__";
    "__lookupSetter__" ].

(** What [o[k]] finds in an object literal used as a dictionary: an own
    property, a value inherited under one of the names above (a function,
    or the prototype itself: truthy, and no string), or nothing. *)
Inductive Property (V : Type) : Type :=
| Own (v : V)
| Inherited
| Missing.
Arguments Own {V} v.
Arguments Inherited {V}.
Arguments Missing {V}.

Definition get {V} (o : gmap string V) (k : string) : Property V :=
  match o !! k with
  | Some v => Own v
  | None => if bool_decide (k ∈ inherited) then Inherited else Missing
  end.

(** [o[k] = v] for a string [v]: under the name [__proto__] the accessor of
    the prototype takes the value and drops it, as it is no object; under
    any other name [o] gets an own property. *)
Definition assign (o : gmap string string) (k v : string) : gmap string string :=
  if eqs k "__proto__" then o else <[k := v]> o.

End Js.

Definition LF : ascii := "010"%char.

(** The text of the escape [\n]. *)
Definition nl : string := String LF EmptyString.

(** *** The file system and the console

    Asynchronous file operations are run in sequence ([await]); a
    computation either returns or throws, and changes the world on the way.
    The world holds the files with their content, the directories that
    exist, the paths that the operating system refuses to create, to write
    or to remove (permissions, a read-only or full file system: the model
    does not say why), and the lines written to the console. *)

Module Node.

Record World := mkWorld {
  files : gmap string string;
  dirs : gset string;
  denied : gset string;
  console : list string
}.

Definition withFiles (w : World) (f : gmap string string) : World :=
  mkWorld f (dirs w) (denied w) (console w).

Definition withDirs (w : World) (d : gset string) : World :=
  mkWorld (files w) d (denied w) (console w).

Definition withConsole (w : World) (c : list string) : World :=
  mkWorld (files w) (dirs w) (denied w) c.

Inductive Outcome (A : Type) : Type :=
| Ret (a : A)
| Throw (e : string).
Arguments Ret {A} a.
Arguments Throw {A} e.

Definition M (A : Type) : Type := World -> Outcome A * World.

Definition ret {A} (a : A) : M A := λ w, (Ret a, w).

Definition throw {A} (e : string) : M A := λ w, (Throw e, w).

Definition bind {A B} (m : M A) (k : A -> M B) : M B :=
  λ w, match m w with
       | (Ret a, w') => k a w'
       | (Throw e, w') => (Throw e, w')
       end.

(** [try { body } catch (e) { handler }]. *)
Definition tryCatch {A} (body : M A) (handler : string -> M A) : M A :=
  λ w, match body w with
       | (Ret a, w') => (Ret a, w')
       | (Throw e, w') => handler e w'
       end.

(** [await m; k]. *)
Notation "m ;; k" := (bind m (λ _, k))
  (at level 100, k at level 200, right associativity).

(** [for (const x of l) { body x }]. *)
Fixpoint forOf {A} (l : list A) (body : A -> M unit) : M unit :=
  match l with
  | [] => ret tt
  | x :: l' => body x ;; forOf l' body
  end.

(** The text of a path before its last slash, when it has a slash. *)
Fixpoint beforeLastSlash (path : string) : option string :=
  match path with
  | EmptyString => None
  | String c rest =>
      match beforeLastSlash rest with
      | Some d => Some (String c d)
      | None => if Js.eqc c "/"%char then Some EmptyString else None
      end
  end.

(** The directory that must exist for a file to be created at [path];
    [None] for a path without a slash or right under the root, whose
    directory (the working directory, the root) is always there. *)
Definition parentDir (path : string) : option string :=
  match beforeLastSlash path with
  | Some EmptyString => None
  | o => o
  end.

(** The directories above the path [acc ++ s], from the top, [acc] being
    the part of the path already passed. *)
Fixpoint ancestorsFrom (acc s : string) : list string :=
  match s with
  | EmptyString => []
  | String c s' =>
      (if Js.eqc c "/"%char && Js.nonEmpty acc then [acc] else [])
      ++ ancestorsFrom (acc +:+ String c EmptyString) s'
  end.

Definition ancestors (path : string) : list string := ancestorsFrom EmptyString path.

(** [fs.writeFile(path, content)]: creates or replaces the file; it throws
    when the path is refused, names a directory, or lies in a directory
    that does not exist. *)
Definition writeFile (path content : string) : M unit :=
  λ w,
    if bool_decide (path ∈ denied w)
    then (Throw ("EACCES: permission denied, open '" +:+ path +:+ "'"), w)
    else if bool_decide (path ∈ dirs w)
    then (Throw ("EISDIR: illegal operation on a directory, open '" +:+ path +:+ "'"), w)
    else
      match parentDir path with
      | Some d =>
          if bool_decide (d ∈ dirs w)
          then (Ret tt, withFiles w (<[path := content]> (files w)))
          else (Throw ("ENOENT: no such file or directory, open '" +:+ path +:+ "'"), w)
      | None => (Ret tt, withFiles w (<[path := content]> (files w)))
      end.

(** One step of [mkdir]: the directory [d] is there, or is created, or
    cannot be: a file is in its place, or the path is refused. *)
Definition mkdirOne (d : string) : M unit :=
  λ w,
    if bool_decide (d ∈ dirs w) then (Ret tt, w)
    else if bool_decide (is_Some (files w !! d))
    then (Throw ("EEXIST: file already exists, mkdir '" +:+ d +:+ "'"), w)
    else if bool_decide (d ∈ denied w)
    then (Throw ("EACCES: permission denied, mkdir '" +:+ d +:+ "'"), w)
    else (Ret tt, withDirs w ({[d]} ∪ dirs w)).

(** [fs.mkdir(path, { recursive: true })]: nothing to do for a directory
    that exists; otherwise the missing directories are created from the
    top, down to [path], as far as they can be. *)
Definition mkdir (path : string) : M unit :=
  λ w,
    if bool_decide (path ∈ dirs w) then (Ret tt, w)
    else forOf (ancestors path ++ [path]) mkdirOne w.

(** [fs.unlink(path)]: removing a file that does not exist throws, and so
    does removing one at a path that is refused. *)
Definition unlink (path : string) : M unit :=
  λ w, match files w !! path with
       | Some _ =>
           if bool_decide (path ∈ denied w)
           then (Throw ("EACCES: permission denied, unlink '" +:+ path +:+ "'"), w)
           else (Ret tt, withFiles w (delete path (files w)))
       | None => (Throw ("ENOENT: no such file or directory, unlink '" +:+ path +:+ "'"), w)
       end.

(** [console.error(msg, e)]. *)
Definition consoleError (msg e : string) : M unit :=
  λ w, (Ret tt, withConsole w (console w ++ [msg +:+ " " +:+ e])).

(** [console.log(msg)]. *)
Definition consoleLog (msg : string) : M unit :=
  λ w, (Ret tt, withConsole w (console w ++ [msg])).

End Node.

(** *** backend/config: the constants the services read *)

Module Config.

(** [config.ansible.sshCommonArgs]. *)
Definition sshCommonArgs : string :=
  "-o StrictHostKeyChecking=no -o UserKnownHostsFile=/dev/null -o PreferredAuthentications=password,keyboard-interactive -o PubkeyAuthentication=no".

(** [config.credentialDefaults]. *)
Definition credentialDefaults : gmap string (gmap string string) :=
  <["mysql" := {["path" := "/tmp/mysql_credentials.txt"]}]>
  (<["mongodb" := {["path" := "/tmp/mongodb_credentials.txt"]}]> ∅).

End Config.

(** *** backend/services/inventoryService.js *)

Module InventoryService.
Import Node.

(** One entry of the [servers] array of a request. *)
Record TargetHost := mkHost {
  hostname : string;
  ssh_port : option N;
  ssh_user : option string;
  ssh_user_type : option string;
  ssh_auth_type : option string;
  ssh_key : option string;
  password : option string;
  sudo_password : option string;
  role : option string;
  ansible_user : option string
}.

(** [server.ssh_port || 22]. *)
Definition portOr22 (server : TargetHost) : N :=
  match ssh_port server with
  | Some p => if (p =? 0)%N then 22%N else p
  | None => 22%N
  end.

(** The path of the key file of a host. *)
Definition keyPath (server : TargetHost) : string :=
  "/tmp/ansible_key_" +:+ Js.replaceAll "."%char "_"%char (hostname server) +:+ ".pem".

Definition formatServerLine (server : TargetHost) (name : string) : string :=
  let line0 := name +:+ " ansible_host=" +:+ hostname server
                    +:+ " ansible_port=" +:+ Js.ofN (portOr22 server) in
  let sshUser := Js.orElse (ssh_user server) "root" in
  let sshUserType := Js.orElse (ssh_user_type server) "root" in
  let sshAuthType := Js.orElse (ssh_auth_type server) "password" in
  let line1 := line0 +:+ " ansible_user=" +:+ sshUser in
  let line2 :=
    if Js.eqs sshAuthType "key" then
      match Js.truthy (ssh_key server) with
      | Some _ => line1 +:+ " ansible_ssh_private_key_file=" +:+ keyPath server
      | None => line1
      end
    else
      match Js.truthy (password server) with
      | Some p => line1 +:+ " ansible_ssh_pass=" +:+ p
      | None => line1
      end in
  if Js.eqs sshUserType "sudo" then
    let line3 := line2 +:+ " ansible_become=yes ansible_become_method=sudo" in
    match Js.truthy (sudo_password server) with
    | Some sp => line3 +:+ " ansible_become_pass=" +:+ sp
    | None =>
        match Js.truthy (password server) with
        | Some sp => line3 +:+ " ansible_become_pass=" +:+ sp
        | None => line3
        end
    end
  else line2.

(** [s.role === r]. *)
Definition roleIs (r : string) (s : TargetHost) : bool :=
  bool_decide (role s = Some r).

(** [!s.role]. *)
Definition noRole (s : TargetHost) : bool :=
  match Js.truthy (role s) with Some _ => false | None => true end.

(** [l.forEach((server, idx) => content += formatServerLine(server, prefix + idx) + '\n')]. *)
Definition hostLines (prefix : string) (l : list TargetHost) : string :=
  Js.concat (imap (λ idx server, formatServerLine server (prefix +:+ Js.ofNat idx) +:+ nl) l).

(** [if (l.length > 0) { content += header; ...host lines...; content += '\n' }]. *)
Definition groupBlock (header prefix : string) (l : list TargetHost) : string :=
  match l with
  | [] => EmptyString
  | _ :: _ => header +:+ nl +:+ hostLines prefix l +:+ nl
  end.

(** [if (l.length > 0) content += name + '\n']. *)
Definition childLine (name : string) (l : list TargetHost) : string :=
  match l with
  | [] => EmptyString
  | _ :: _ => name +:+ nl
  end.

(** The key under which env-check remembers a host. *)
Definition dedupKey (server : TargetHost) : string :=
  hostname server +:+ ":" +:+ Js.ofN (portOr22 server).

(** The loop that fills [uniqueServers], with the set [seen]. *)
Fixpoint uniqueLoop (seen : gset string) (servers : list TargetHost) : list TargetHost :=
  match servers with
  | [] => []
  | server :: rest =>
      if bool_decide (dedupKey server ∈ seen) then uniqueLoop seen rest
      else server :: uniqueLoop ({[dedupKey server]} ∪ seen) rest
  end.

Definition uniqueServers (servers : list TargetHost) : list TargetHost :=
  uniqueLoop ∅ servers.

(** The text up to the shared variables: the groups of the run kind. *)
Definition groupsSection (servers : list TargetHost) (playbookType : string) : string :=
  if Js.eqs playbookType "mysql" then
    let primaryServers := filter (λ s, roleIs "primary" s || noRole s) servers in
    let secondaryServers := filter (λ s, roleIs "secondary" s) servers in
    groupBlock "[primary]" "mysql-primary-" primaryServers
    +:+ groupBlock "[secondary]" "mysql-secondary-" secondaryServers
    +:+ "[mysql:children]" +:+ nl
    +:+ childLine "primary" primaryServers
    +:+ childLine "secondary" secondaryServers
  else if Js.eqs playbookType "mongodb" then
    let primaryServers := filter (λ s, roleIs "primary" s || noRole s) servers in
    let secondaryServers := filter (λ s, roleIs "secondary" s) servers in
    let arbiterServers := filter (λ s, roleIs "arbiter" s) servers in
    groupBlock "[primary]" "mongo-primary-" primaryServers
    +:+ groupBlock "[secondary]" "mongo-secondary-" secondaryServers
    +:+ groupBlock "[arbiter]" "mongo-arbiter-" arbiterServers
    +:+ "[mongo:children]" +:+ nl
    +:+ childLine "primary" primaryServers
    +:+ childLine "secondary" secondaryServers
    +:+ childLine "arbiter" arbiterServers
  else if Js.eqs playbookType "kubernetes" then
    let masterServers := filter (λ s, roleIs "master" s || roleIs "k8s-master" s) servers in
    let workerServers := filter (λ s, roleIs "worker" s || roleIs "k8s-worker" s) servers in
    groupBlock "[master]" "k8s-master-" masterServers
    +:+ groupBlock "[worker]" "k8s-worker-" workerServers
    +:+ "[kubernetes:children]" +:+ nl
    +:+ childLine "master" masterServers
    +:+ childLine "worker" workerServers
  else if Js.eqs playbookType "env-check" then
    "[all]" +:+ nl +:+ hostLines "server-" (uniqueServers servers)
  else
    "[all]" +:+ nl +:+ hostLines "server-" servers.

(** [servers.find(s => s.ansible_user)?.ansible_user || 'ubuntu']. *)
Fixpoint defaultUser (servers : list TargetHost) : string :=
  match servers with
  | [] => "ubuntu"
  | s :: rest =>
      match Js.truthy (ansible_user s) with
      | Some u => u
      | None => defaultUser rest
      end
  end.

(** The trailing block of shared variables. *)
Definition varsSection (servers : list TargetHost) : string :=
  nl +:+ "[all:vars]" +:+ nl
  +:+ "ansible_user=" +:+ defaultUser servers +:+ nl
  +:+ "ansible_become=true" +:+ nl
  +:+ "ansible_ssh_common_args='" +:+ Config.sshCommonArgs +:+ "'" +:+ nl.

Definition generateInventoryContent (servers : list TargetHost) (playbookType : string) : string :=
  groupsSection servers playbookType +:+ varsSection servers.

(** [server.ssh_auth_type === 'key' && server.ssh_key]. *)
Definition usesKeyFile (server : TargetHost) : bool :=
  bool_decide (ssh_auth_type server = Some "key")
  && match Js.truthy (ssh_key server) with Some _ => true | None => false end.

Definition writeSSHKeys (servers : list TargetHost) : M unit :=
  forOf servers (λ server,
    if usesKeyFile server
    then writeFile (keyPath server) (default EmptyString (ssh_key server))
    else ret tt).

Section Inventory.
(** [config.paths.inventory], fixed by where the backend is installed. *)
Variable inventoryDir : string.

Definition ensureInventoryDir : M unit :=
  tryCatch (mkdir inventoryDir)
           (λ error, consoleError "Error creating inventory directory:" error).

(** [path.join(config.paths.inventory, `${inventoryId}.ini`)]. *)
Definition inventoryPathOf (inventoryId : string) : string :=
  inventoryDir +:+ "/" +:+ inventoryId +:+ ".ini".

(** [generateInventory]; [inventoryId] is the hexadecimal text that
    [crypto.randomBytes(8)] draws for this run. *)
Definition generateInventory (inventoryId : string)
    (servers : list TargetHost) (playbookType : string) : M (string * string) :=
  ensureInventoryDir ;;
  let inventoryPath := inventoryPathOf inventoryId in
  writeSSHKeys servers ;;
  let inventoryContent := generateInventoryContent servers playbookType in
  writeFile inventoryPath inventoryContent ;;
  ret (inventoryId, inventoryPath).

Definition cleanupInventory (inventoryId : string) (servers : list TargetHost) : M unit :=
  tryCatch
    (let inventoryPath := inventoryPathOf inventoryId in
     unlink inventoryPath ;;
     forOf servers (λ server,
       if usesKeyFile server
       then tryCatch (unlink (keyPath server)) (λ _, ret tt)
       else ret tt))
    (λ error, consoleError "Error cleaning up inventory:" error).

End Inventory.

End InventoryService.

(** *** The regular expressions of the output parser

    Each pattern of the source is translated by hand into the function
    that ECMAScript's backtracking matcher computes for it. *)

Module Regex.

(** [\s*] where the next item of the pattern cannot start with white space. *)
Fixpoint skipWs (s : string) : string :=
  match s with
  | EmptyString => EmptyString
  | String c s' => if Js.isWhiteSpace c then skipWs s' else s
  end.

(** A greedy capture of [.*] that ends the pattern: up to the first line
    terminator. *)
Fixpoint takeLine (s : string) : string :=
  match s with
  | EmptyString => EmptyString
  | String c s' => if Js.isLineTerminator c then EmptyString else String c (takeLine s')
  end.

Fixpoint noLineTerminator (s : string) : bool :=
  match s with
  | EmptyString => true
  | String c s' => negb (Js.isLineTerminator c) && noLineTerminator s'
  end.

(** A greedy [(\d+)]: the digits and what follows them. *)
Fixpoint takeDigits (s : string) : string :=
  match s with
  | EmptyString => EmptyString
  | String c s' => if Js.isDigit c then String c (takeDigits s') else EmptyString
  end.

(** The tail of [(.+?)\]] once the first character is taken: the text up
    to the first closing bracket, which no line terminator may precede;
    with it, the text after the bracket. *)
Fixpoint untilClose (s : string) : option (string * string) :=
  match s with
  | EmptyString => None
  | String c s' =>
      if Js.eqc c "]"%char then Some (EmptyString, s')
      else if Js.isLineTerminator c then None
      else match untilClose s' with
           | Some (h, r) => Some (String c h, r)
           | None => None
           end
  end.

(** [(.+?)\]], lazily: at least one character, then the first bracket. *)
Definition bracketed (s : string) : option (string * string) :=
  match s with
  | EmptyString => None
  | String c s' =>
      if Js.isLineTerminator c then None
      else match untilClose s' with
           | Some (h, r) => Some (String c h, r)
           | None => None
           end
  end.

(** An unanchored pattern: the leftmost position where [f] matches. *)
Fixpoint search {A} (f : string -> option A) (s : string) : option A :=
  match f s with
  | Some a => Some a
  | None =>
      match s with
      | EmptyString => None
      | String _ s' => search f s'
      end
  end.

(** An alternation of literals, each followed by the rest [k] of the pattern. *)
Fixpoint alternatives {A} (words : list string) (k : string -> string -> option A)
    (s : string) : option A :=
  match words with
  | [] => None
  | w :: words' =>
      match (if Js.startsWith w s then k w (Js.drop (String.length w) s) else None) with
      | Some a => Some a
      | None => alternatives words' k s
      end
  end.

(** [/^(ok|changed|fatal|skipping):\s*\[(.+?)\]\s*( .* )/]: status, host,
    message. *)
Definition taskResult (line : string) : option (string * string * string) :=
  alternatives ["ok"; "changed"; "fatal"; "skipping"]
    (λ w r,
       match r with
       | String ":" r1 =>
           match skipWs r1 with
           | String "[" r2 =>
               match bracketed r2 with
               | Some (host, r3) => Some (w, host, takeLine (skipWs r3))
               | None => None
               end
           | _ => None
           end
       | _ => None
       end)
    line.

(** [kw\s+\[(.+?)\]] at the start of [s]. *)
Definition keywordAt (kw : string) (s : string) : option string :=
  if Js.startsWith kw s then
    match Js.drop (String.length kw) s with
    | String c r =>
        if Js.isWhiteSpace c then
          match skipWs r with
          | String "[" r2 => fst <$> bracketed r2
          | _ => None
          end
        else None
    | EmptyString => None
    end
  else None.

(** [/TASK\s+\[(.+?)\]/]. *)
Definition taskName (line : string) : option string := search (keywordAt "TASK") line.

(** [/PLAY\s+\[(.+?)\]/]. *)
Definition playName (line : string) : option string := search (keywordAt "PLAY") line.

(** [/(ok|changed|failed|unreachable)=(\d+)/]: status and count. *)
Definition summary (line : string) : option (string * string) :=
  search
    (alternatives ["ok"; "changed"; "failed"; "unreachable"]
       (λ w r,
          match r with
          | String "=" r1 =>
              match takeDigits r1 with
              | EmptyString => None
              | ds => Some (w, ds)
              end
          | _ => None
          end))
    line.

Fixpoint lastChar (s : string) : option ascii :=
  match s with
  | EmptyString => None
  | String c EmptyString => Some c
  | String _ s' => lastChar s'
  end.

(** [/^lit\s*(.+)$/i]: the capture.  The white space is taken greedily;
    when nothing is left for [(.+)], the matcher gives back the last
    white-space character, which [(.+)] takes unless it ends a line. *)
Definition labelled (lit : string) (s : string) : option string :=
  if Js.startsWithI lit s then
    let rest := Js.drop (String.length lit) s in
    match skipWs rest with
    | EmptyString =>
        match lastChar rest with
        | Some c => if Js.isLineTerminator c then None else Some (String c EmptyString)
        | None => None
        end
    | r => if noLineTerminator r then Some r else None
    end
  else None.

(** The occurrences of [new RegExp('CREDENTIALS\\|' + service + '\\|([^\\n]+)', 'g')]
    that a loop of [exec] finds, as their captures: [skip] characters belong
    to the match found last and are passed over. *)
Fixpoint takeToLF (s : string) : string :=
  match s with
  | EmptyString => EmptyString
  | String c s' => if Js.eqc c LF then EmptyString else String c (takeToLF s')
  end.

Fixpoint markersFrom (prefix : string) (skip : nat) (s : string) : list string :=
  match s with
  | EmptyString => []
  | String _ s' =>
      match skip with
      | S skip' => markersFrom prefix skip' s'
      | O =>
          if Js.startsWith prefix s then
            match takeToLF (Js.drop (String.length prefix) s) with
            | EmptyString => markersFrom prefix 0 s'
            | cap => cap :: markersFrom prefix (String.length prefix + String.length cap - 1) s'
            end
          else markersFrom prefix 0 s'
      end
  end.

Definition markers (service : string) (stdout : string) : list string :=
  markersFrom ("CREDENTIALS|" +:+ service +:+ "|") 0 stdout.

End Regex.

(** *** What a run exchanges with its caller and with the child process *)

Abbreviation CredentialSet := (gmap string (gmap string string)).

(** The events handed to the subscriber [onOutput]. *)
Inductive ProgressEvent : Type :=
| TaskResult (status host task message line : string)
    (credentialUpdate : option (option string * gmap string string))
| Task (task line : string)
| Play (play line : string)
| Status (status count line : string)
| Error (line : string).

(** The first argument of the child's [close] event: an exit code, or
    [null] when a signal ended the process. *)
Inductive ExitCode : Type :=
| Exited (n : Z)
| Signalled.

Definition codeText (code : ExitCode) : string :=
  match code with
  | Exited n => Js.ofZ n
  | Signalled => "null"
  end.

(** What the engine's runtime makes of [JSON.parse(text)] and of the
    fields the parser reads from the result. *)
Inductive ParsedJson : Type :=
| JsonThrows
| JsonMsg (msgs : list string)
| JsonStdout (out : string)
| JsonOther.

(** The events of the child process, in the order the event loop delivers them. *)
Inductive ChildEvent : Type :=
| StdoutData (text : string)
| StderrData (text : string)
| Close (code : ExitCode)
| SpawnError (message : string).

Module Result.

(** The object a run resolves or rejects with; a field the source leaves
    out is [None]. *)
Record t := mk {
  success : bool;
  error : option string;
  exitCode : option ExitCode;
  stdout : string;
  stderr : string;
  fullOutput : option string;
  credentials : option CredentialSet
}.

End Result.

Inductive Settlement : Type :=
| Resolved (r : Result.t)
| Rejected (r : Result.t).

Definition resultOf (s : Settlement) : Result.t :=
  match s with Resolved r => r | Rejected r => r end.

(** [if (!credentials[svc]) credentials[svc] = {}]: an entry is created
    only where the lookup finds nothing, not under an inherited name. *)
Definition ensureEntry (svc : string) (credentials : CredentialSet) : CredentialSet :=
  match Js.get credentials svc with
  | Js.Missing => <[svc := ∅]> credentials
  | _ => credentials
  end.

(** [credentials[svc][k] = v].  Where [credentials] has no own entry for
    [svc] the name is an inherited one and the write lands on the inherited
    object: [credentials] is left as it is. *)
Definition setField (svc k v : string) (credentials : CredentialSet) : CredentialSet :=
  match credentials !! svc with
  | Some entry => <[svc := Js.assign entry k v]> credentials
  | None => credentials
  end.

(** [{ ...defaults, ...(entry || {}) }]: the fields of [entry] win. *)
Definition spreadOver (defaults : gmap string string) (entry : option (gmap string string))
    : gmap string string :=
  default ∅ entry ∪ defaults.

(** The name under which an object files the key [currentService], which
    may be [null]. *)
Definition propertyName (service : option string) : string := default "null" service.

(** The fixed single-line patterns: label, service, key. *)
Definition credentialLabels : list (string * string * string) :=
  [ ("MySQL user:", "mysql", "username");
    ("MySQL password:", "mysql", "password");
    ("MongoDB admin user:", "mongodb", "username");
    ("MongoDB admin password:", "mongodb", "password");
    ("MongoDB credentials stored in:", "mongodb", "path");
    ("RabbitMQ Username:", "rabbitmq", "username");
    ("RabbitMQ Password:", "rabbitmq", "password") ].

(** The chain of [else if ((match = text.match(...)))]: the first label
    that matches, with its service, its key and the trimmed capture. *)
Fixpoint firstLabel (labels : list (string * string * string)) (text : string)
    : option (string * string * string) :=
  match labels with
  | [] => None
  | (lit, svc, key) :: labels' =>
      match Regex.labelled lit text with
      | Some cap => Some (svc, key, Js.trim cap)
      | None => firstLabel labels' text
      end
  end.

(** [const [k, v] = segment.split('=')] and the test [k && v]. *)
Definition keyValue (segment : string) : option (string * string) :=
  match Js.split "="%char segment with
  | k :: v :: _ => if Js.nonEmpty k && Js.nonEmpty v then Some (Js.trim k, Js.trim v) else None
  | _ => None
  end.

(** *** backend/services/playbookService.js *)

Module PlaybookService.

(** The body of the loop of [parseCredentials] for one line. *)
Definition parseCredentialLine (credentials : CredentialSet) (line : string) : CredentialSet :=
  let trimmed := Js.trim line in
  if Js.startsWith "CREDENTIALS|" trimmed then
    match Js.split "|"%char trimmed with
    | _ :: part1 :: segments =>
        let svc := Js.toLowerCase part1 in
        if Js.nonEmpty svc then
          foldl (λ creds segment,
                   match keyValue segment with
                   | Some (k, v) => setField svc k v creds
                   | None => creds
                   end)
                (ensureEntry svc credentials) segments
        else credentials
    | _ => credentials
    end
  else
    match firstLabel credentialLabels trimmed with
    | Some (svc, key, value) => setField svc key value (ensureEntry svc credentials)
    | None => credentials
    end.

(** [parseCredentials(text, service, credentials)]; the updated
    [credentials] is returned. *)
Definition parseCredentials (text : string) (service : option string)
    (credentials : CredentialSet) : CredentialSet :=
  foldl parseCredentialLine credentials (Js.split LF text).

Section Parser.
Variable JSON_parse : string -> ParsedJson.

(** [parseAnsibleOutput(line, currentTask, credentials, service)]: the event,
    or [None] for [null], and the updated [credentials]. *)
Definition parseAnsibleOutput (line currentTask : string) (credentials : CredentialSet)
    (service : option string) : option ProgressEvent * CredentialSet :=
  match Regex.taskResult line with
  | Some (status, host, message) =>
      let trimmedMessage0 := Js.trim message in
      let trimmedMessage :=
        if Js.startsWith "=>" trimmedMessage0
        then Regex.skipWs (Js.drop 2 trimmedMessage0) else trimmedMessage0 in
      let credentials1 := parseCredentials trimmedMessage service credentials in
      let credentials2 :=
        if Js.startsWith "{" trimmedMessage then
          match JSON_parse trimmedMessage with
          | JsonMsg msgs => foldl (λ creds m, parseCredentials m service creds) credentials1 msgs
          | _ => credentials1
          end
        else credentials1 in
      let credentialUpdate :=
        match credentials2 !! propertyName service with
        | Some entry => Some (service, entry)
        | None => None
        end in
      (Some (TaskResult status host currentTask trimmedMessage line credentialUpdate),
       credentials2)
  | None =>
      match Regex.taskName line with
      | Some name => (Some (Task name line), credentials)
      | None =>
          match Regex.playName line with
          | Some name => (Some (Play name line), credentials)
          | None =>
              match Regex.summary line with
              | Some (st, count) => (Some (Status st count line), credentials)
              | None => (None, credentials)
              end
          end
      end
  end.

(** The variables the handlers of one run close over, the events given to
    the subscriber so far, and how the promise was settled, if it was. *)
Record State := mkState {
  stdout : string;
  stderr : string;
  currentTask : string;
  credentials : CredentialSet;
  emitted : list ProgressEvent;
  settled : option Settlement
}.

(** [['mysql', 'mongodb', 'rabbitmq'].includes(playbookType) ? playbookType : null]. *)
Definition currentServiceOf (playbookType : string) : option string :=
  if bool_decide (playbookType ∈ ["mysql"; "mongodb"; "rabbitmq"])
  then Some playbookType else None.

(** The defaults of a service, when there is a service and it has some. *)
Definition defaultsOf (currentService : option string) : option (gmap string string) :=
  match currentService with
  | Some svc => Config.credentialDefaults !! svc
  | None => None
  end.

Section Run.
Variable playbookType : string.
(** Whether the caller passed a subscriber [onOutput]. *)
Variable subscribed : bool.

Definition currentService : option string := currentServiceOf playbookType.

Definition initial : State :=
  let credentials0 : CredentialSet :=
    match currentService, defaultsOf currentService with
    | Some svc, Some d => <[svc := d]> ∅
    | _, _ => ∅
    end in
  mkState EmptyString EmptyString EmptyString credentials0 [] None.

(** The body of [lines.forEach] in the handler of stdout. *)
Definition onLine (st : State) (line : string) : State :=
  if Js.nonEmpty (Js.trim line) && subscribed then
    match parseAnsibleOutput line (currentTask st) (credentials st) currentService with
    | (Some parsed, credentials') =>
        let currentTask' :=
          match parsed with Task name _ => name | _ => currentTask st end in
        mkState (stdout st) (stderr st) currentTask' credentials'
                (emitted st ++ [parsed]) (settled st)
    | (None, credentials') =>
        mkState (stdout st) (stderr st) (currentTask st) credentials'
                (emitted st) (settled st)
    end
  else st.

(** [child.stdout.on('data', ...)]. *)
Definition onStdout (st : State) (text : string) : State :=
  let st1 := mkState (stdout st +:+ text) (stderr st) (currentTask st)
                     (credentials st) (emitted st) (settled st) in
  foldl onLine st1 (Js.split LF text).

(** [child.stderr.on('data', ...)]. *)
Definition onStderr (st : State) (text : string) : State :=
  mkState (stdout st) (stderr st +:+ text) (currentTask st) (credentials st)
          (if subscribed then emitted st ++ [Error text] else emitted st) (settled st).

(** A promise keeps its first settlement. *)
Definition settle (st : State) (credentials' : CredentialSet) (s : Settlement) : State :=
  mkState (stdout st) (stderr st) (currentTask st) credentials' (emitted st)
          (match settled st with Some s0 => Some s0 | None => Some s end).

(** The reason given for a nonzero exit code. *)
Definition exitReason (code : ExitCode) : string :=
  match code with
  | Exited 2 => "One or more tasks failed"
  | Exited 4 => "One or more hosts unreachable"
  | _ => "Process exited with code " +:+ codeText code
  end.

(** [child.on('close', ...)]. *)
Definition onClose (st : State) (code : ExitCode) : State :=
  let credentials' :=
    match currentService, defaultsOf currentService with
    | Some svc, Some d => <[svc := spreadOver d (credentials st !! svc)]> (credentials st)
    | _, _ => credentials st
    end in
  match code with
  | Exited 0 =>
      settle st credentials'
        (Resolved (Result.mk true None None (stdout st) (stderr st) None (Some credentials')))
  | _ =>
      settle st credentials'
        (Rejected (Result.mk false (Some (exitReason code)) (Some code)
                     (stdout st) (stderr st)
                     (Some (stdout st +:+ nl +:+ stderr st)) (Some credentials')))
  end.

(** [child.on('error', ...)]. *)
Definition onError (st : State) (message : string) : State :=
  settle st (credentials st)
    (Rejected (Result.mk false (Some message) None (stdout st) (stderr st) None None)).

Definition step (st : State) (ev : ChildEvent) : State :=
  match ev with
  | StdoutData text => onStdout st text
  | StderrData text => onStderr st text
  | Close code => onClose st code
  | SpawnError message => onError st message
  end.

(** The state of a run after the child's events [evs]; [settled] is what
    the promise returned by [executePlaybook] holds then. *)
Definition executePlaybook (evs : list ChildEvent) : State := foldl step initial evs.

End Run.
End Parser.

End PlaybookService.

(** *** backend/api-server.js: executePlaybook of the monolithic server *)

Module ApiServer.

(** The local constant [credentialDefaults] of [executePlaybook]. *)
Definition credentialDefaults : gmap string (gmap string string) :=
  <["mysql" := {["path" := "/tmp/mysql_credentials.txt"]}]>
  (<["mongodb" := {["path" := "/tmp/mongodb_credentials.txt"]}]> ∅).

Definition recordCredential (service key value : string) (credentials : CredentialSet)
    : CredentialSet :=
  if Js.nonEmpty service && Js.nonEmpty key then
    let normalizedService := Js.toLowerCase service in
    match Js.get credentials normalizedService with
    | Js.Own e => <[normalizedService := Js.assign e key value]> credentials
    | Js.Inherited => credentials
    | Js.Missing =>
        <[normalizedService :=
            Js.assign (default ∅ (credentialDefaults !! normalizedService)) key value]>
          credentials
    end
  else credentials.

(** [segments.forEach(segment => { const [k, v] = segment.split('='); ... })]. *)
Definition recordSegments (service : string) (segments : list string)
    (credentials : CredentialSet) : CredentialSet :=
  foldl (λ creds segment,
           match keyValue segment with
           | Some (k, v) => recordCredential service k v creds
           | None => creds
           end)
        credentials segments.

(** What [processText] reads and writes in the scope of one task result. *)
Record Scratch := mkScratch {
  s_credentials : CredentialSet;
  displayMessages : list string;
  credentialUpdate : option (option string * gmap string string)
}.

Definition processText (sc : Scratch) (text : string) : Scratch :=
  let trimmedText := Js.trim text in
  if negb (Js.nonEmpty trimmedText) then sc
  else if Js.startsWith "CREDENTIALS|" trimmedText then
    match Js.split "|"%char trimmedText with
    | _ :: service :: segments =>
        let credentials' := recordSegments service segments (s_credentials sc) in
        let normalizedService := Js.toLowerCase service in
        mkScratch credentials' (displayMessages sc)
          match Js.get credentials' normalizedService with
          | Js.Own entry => Some (Some normalizedService, entry)
          | Js.Inherited => Some (Some normalizedService, ∅)
          | Js.Missing => credentialUpdate sc
          end
    | _ => sc
    end
  else
    match firstLabel credentialLabels trimmedText with
    | Some (svc, key, value) =>
        mkScratch (recordCredential svc key value (s_credentials sc))
                  (displayMessages sc) (credentialUpdate sc)
    | None =>
        mkScratch (s_credentials sc) (displayMessages sc ++ [trimmedText])
                  (credentialUpdate sc)
    end.

(** [if (currentService === svc && !credentials[svc] && credentialDefaults[svc])
    credentials[svc] = { ...credentialDefaults[svc] }]. *)
Definition injectDefault (currentService : option string) (svc : string)
    (credentials : CredentialSet) : CredentialSet :=
  if bool_decide (currentService = Some svc) then
    match credentials !! svc, credentialDefaults !! svc with
    | None, Some d => <[svc := d]> credentials
    | _, _ => credentials
    end
  else credentials.

Record State := mkState {
  stdout : string;
  stderr : string;
  currentTask : string;
  credentials : CredentialSet;
  emitted : list ProgressEvent;
  settled : option Settlement
}.

Section Run.
Variable JSON_parse : string -> ParsedJson.
Variable playbookType : string.
Variable subscribed : bool.

Definition currentService : option string :=
  if Js.eqs playbookType "mysql" then Some "mysql"
  else if Js.eqs playbookType "mongodb" then Some "mongodb"
  else if Js.eqs playbookType "rabbitmq" then Some "rabbitmq"
  else None.

Definition initial : State :=
  mkState EmptyString EmptyString EmptyString ∅ [] None.

(** The closure [parseAnsibleOutput(line)]: the event, or [None] for
    [null], with the updated [currentTask] and [credentials]. *)
Definition parseAnsibleOutput (line : string) (task0 : string) (creds0 : CredentialSet)
    : option ProgressEvent * string * CredentialSet :=
  match Regex.taskResult line with
  | Some (status, host, message) =>
      let trimmedMessage0 := Js.trim message in
      let trimmedMessage :=
        if Js.startsWith "=>" trimmedMessage0
        then Regex.skipWs (Js.drop 2 trimmedMessage0) else trimmedMessage0 in
      let sc0 := mkScratch creds0 [] None in
      let sc :=
        if Js.startsWith "{" trimmedMessage then
          match JSON_parse trimmedMessage with
          | JsonMsg rawMessages => foldl processText sc0 rawMessages
          | JsonStdout out => processText sc0 out
          | JsonOther => processText sc0 trimmedMessage
          | JsonThrows => processText sc0 trimmedMessage
          end
        else processText sc0 trimmedMessage in
      let displayMessage := Js.join " | " (displayMessages sc) in
      let credentials' :=
        injectDefault currentService "mongodb"
          (injectDefault currentService "mysql" (s_credentials sc)) in
      (Some (TaskResult status host task0 displayMessage line (credentialUpdate sc)),
       task0, credentials')
  | None =>
      match Regex.taskName line with
      | Some name => (Some (Task name line), name, creds0)
      | None =>
          match Regex.playName line with
          | Some name => (Some (Play name line), task0, creds0)
          | None =>
              match Regex.summary line with
              | Some (st, count) => (Some (Status st count line), task0, creds0)
              | None => (None, task0, creds0)
              end
          end
      end
  end.

Definition onLine (st : State) (line : string) : State :=
  if Js.nonEmpty (Js.trim line) && subscribed then
    match parseAnsibleOutput line (currentTask st) (credentials st) with
    | (parsed, currentTask', credentials') =>
        mkState (stdout st) (stderr st) currentTask' credentials'
                (match parsed with Some ev => emitted st ++ [ev] | None => emitted st end)
                (settled st)
    end
  else st.

Definition onStdout (st : State) (text : string) : State :=
  let st1 := mkState (stdout st +:+ text) (stderr st) (currentTask st)
                     (credentials st) (emitted st) (settled st) in
  foldl onLine st1 (Js.split LF text).

Definition onStderr (st : State) (text : string) : State :=
  mkState (stdout st) (stderr st +:+ text) (currentTask st) (credentials st)
          (if subscribed then emitted st ++ [Error text] else emitted st) (settled st).

Definition settle (st : State) (credentials' : CredentialSet) (s : Settlement) : State :=
  mkState (stdout st) (stderr st) (currentTask st) credentials' (emitted st)
          (match settled st with Some s0 => Some s0 | None => Some s end).

(** [!credentials[svc] || Object.keys(credentials[svc]).length <= 1]. *)
Definition atMostOneKey (svc : string) (credentials : CredentialSet) : bool :=
  match credentials !! svc with
  | None => true
  | Some entry => bool_decide (size entry ≤ 1)
  end.

(** The loop of [regex.exec(stdout)] over the retained output. *)
Definition rescan (svc : string) (out : string) (credentials : CredentialSet) : CredentialSet :=
  foldl (λ creds capture, recordSegments svc (Js.split "|"%char capture) creds)
        credentials (Regex.markers svc out).

(** [credentials[svc] = { ...credentialDefaults[svc], ...(credentials[svc] || {}) }]
    under [if (currentService && credentialDefaults[currentService])]. *)
Definition mergeDefaults (credentials : CredentialSet) : CredentialSet :=
  match currentService with
  | Some svc =>
      match credentialDefaults !! svc with
      | Some d => <[svc := spreadOver d (credentials !! svc)]> credentials
      | None => credentials
      end
  | None => credentials
  end.

Definition succeeds (code : ExitCode) : bool :=
  match code with
  | Exited 0 | Exited 2 => true
  | _ => false
  end.

Definition onClose (st : State) (code : ExitCode) : State :=
  if succeeds code then
    let credentials1 :=
      match currentService with
      | Some svc =>
          if atMostOneKey svc (credentials st)
          then rescan svc (stdout st) (credentials st) else credentials st
      | None => credentials st
      end in
    let credentials2 := mergeDefaults credentials1 in
    settle st credentials2
      (Resolved (Result.mk true None None (stdout st) (stderr st) None (Some credentials2)))
  else
    let credentials2 := mergeDefaults (credentials st) in
    settle st credentials2
      (Rejected (Result.mk false (Some ("Process exited with code " +:+ codeText code))
                   (Some code) (stdout st) (stderr st)
                   (Some (stdout st +:+ nl +:+ stderr st)) (Some credentials2))).

Definition onError (st : State) (message : string) : State :=
  settle st (credentials st)
    (Rejected (Result.mk false (Some message) None (stdout st) (stderr st) None None)).

Definition step (st : State) (ev : ChildEvent) : State :=
  match ev with
  | StdoutData text => onStdout st text
  | StderrData text => onStderr st text
  | Close code => onClose st code
  | SpawnError message => onError st message
  end.

Definition executePlaybook (evs : list ChildEvent) : State := foldl step initial evs.

End Run.

End ApiServer.

(** *** backend/config: the tables of playbooks *)

Module ConfigTables.

(** [config.playbooks]. *)
Definition playbooks : gmap string string :=
  list_to_map
    [ ("mysql", "mysql/playbook.yml");
      ("mongodb", "mongodb/playbook.yml");
      ("nfs", "nfs/playbook.yml");
      ("rabbitmq", "rabbitmq/playbook.yml");
      ("env-check", "env-check/playbook.yml");
      ("kubernetes", "kubernetes/playbook.yml");
      ("loadbalancer", "loadbalancer/playbook.yml");
      ("kubectl", "kubectl-istio/playbook.yml");
      ("helm", "helm/playbook.yml");
      ("ssl", "ssl/playbook.yml");
      ("stackbill", "stackbill/playbook.yml") ].

(** [config.rolePaths]. *)
Definition rolePaths : gmap string string :=
  list_to_map
    [ ("mysql", "mysql/role");
      ("mongodb", "mongodb/role");
      ("default", "roles") ].

End ConfigTables.

(** *** backend/utils/pathHelper.js *)

Module PathHelper.

Definition backslash : ascii := "092"%char.

Definition doubleQuote : ascii := "034"%char.

(** The class [[A-Za-z]]. *)
Definition isLetter (c : ascii) : bool :=
  let n := nat_of_ascii c in
  ((65 <=? n) && (n <=? 90)) || ((97 <=? n) && (n <=? 122)).

(** [normalized.match(/^([A-Za-z]):/)]: the drive letter. *)
Definition driveMatch (normalized : string) : option ascii :=
  match normalized with
  | String d (String ":" _) => if isLetter d then Some d else None
  | _ => None
  end.

(** [rest.replace(/^[\\\/]+/, '')]. *)
Fixpoint stripSlashes (rest : string) : string :=
  match rest with
  | EmptyString => EmptyString
  | String c rest' =>
      if Js.eqc c backslash || Js.eqc c "/"%char then stripSlashes rest' else rest
  end.

(** [s.includes(c)] for one character. *)
Fixpoint includes (c : ascii) (s : string) : bool :=
  match s with
  | EmptyString => false
  | String x s' => Js.eqc x c || includes c s'
  end.

Section Platform.
(** [config.platform.isWindows]. *)
Variable isWindows : bool.
(** [path.normalize] of the platform's path module. *)
Variable normalize : string -> string.

Definition toWslPath (windowsPath : string) : string :=
  if negb isWindows then windowsPath
  else
    let normalized := normalize windowsPath in
    match driveMatch normalized with
    | None => Js.replaceAll backslash "/"%char normalized
    | Some d =>
        let drive := String (Js.toLowerChar d) EmptyString in
        let rest := Js.drop 2 normalized in
        let rest := stripSlashes rest in
        let rest := Js.replaceAll backslash "/"%char rest in
        let wslPath := "/mnt/" +:+ drive +:+ "/" +:+ rest in
        if includes " "%char wslPath
        then String doubleQuote wslPath +:+ String doubleQuote EmptyString
        else wslPath
    end.

Definition getPlatformPath (nativePath : string) : string :=
  if isWindows then toWslPath nativePath else nativePath.

End Platform.

Section Paths.
(** [config.paths.ansible]. *)
Variable ansibleDir : string.
(** The message of the TypeError that [path.join] throws when it is handed
    the value that every object inherits under the name given, a function
    or an object and no string. *)
Variable notAString : string -> string.

(** [config.rolePaths.default]. *)
Definition defaultRoleDir : string :=
  default EmptyString (ConfigTables.rolePaths !! "default").

(** [getRolePath]: the directory of the type, or the default one. *)
Definition getRolePath (playbookType : string) : Node.M string :=
  match Js.get ConfigTables.rolePaths playbookType with
  | Js.Own roleDir =>
      let roleDir := if Js.nonEmpty roleDir then roleDir else defaultRoleDir in
      Node.ret (ansibleDir +:+ "/" +:+ roleDir)
  | Js.Inherited => Node.throw (notAString playbookType)
  | Js.Missing => Node.ret (ansibleDir +:+ "/" +:+ defaultRoleDir)
  end.

(** [getPlaybookPath]: an unknown type throws; so does, inside [path.join],
    a type that is the name of an inherited property, whose value passes
    the test [!playbookFile]. *)
Definition getPlaybookPath (playbookType : string) : Node.M string :=
  match Js.get ConfigTables.playbooks playbookType with
  | Js.Own playbookFile =>
      if Js.nonEmpty playbookFile
      then Node.ret (ansibleDir +:+ "/" +:+ playbookFile)
      else Node.throw ("Unknown playbook type: " +:+ playbookType)
  | Js.Inherited => Node.throw (notAString playbookType)
  | Js.Missing => Node.throw ("Unknown playbook type: " +:+ playbookType)
  end.

End Paths.

End PathHelper.

(** *** playbookService.js: the extra variables on the command line *)

Module CommandLine.

Definition singleQuote : ascii := "039"%char.

(** [varsJson.replace(/'/g, "'\\''")]. *)
Fixpoint escapeQuotes (varsJson : string) : string :=
  match varsJson with
  | EmptyString => EmptyString
  | String c rest =>
      if Js.eqc c singleQuote
      then String singleQuote (String PathHelper.backslash
             (String singleQuote (String singleQuote (escapeQuotes rest))))
      else String c (escapeQuotes rest)
  end.

(** [extraVarsStr]; [varsJson] is [JSON.stringify(extraVars)] when the
    object has a key, and [None] when it has none. *)
Definition extraVarsStr (varsJson : option string) : string :=
  match varsJson with
  | Some json =>
      " -e " +:+ String singleQuote (escapeQuotes json +:+ String singleQuote EmptyString)
  | None => EmptyString
  end.

(** [s.endsWith(c)] for one character. *)
Definition endsWith (c : ascii) (s : string) : bool :=
  match Regex.lastChar s with
  | Some x => Js.eqc x c
  | None => false
  end.

Fixpoint dropLast (s : string) : string :=
  match s with
  | EmptyString => EmptyString
  | String _ EmptyString => EmptyString
  | String c s' => String c (dropLast s')
  end.

(** [s.slice(1, -1)]. *)
Definition sliceEnds (s : string) : string := dropLast (Js.drop 1 s).

Section Platform.
Variable isWindows : bool.
Variable normalize : string -> string.

(** The variable [rolesPath] of [executePlaybook] once the platform is
    looked at; [rolesPathNative] is what [getRolePath] returned. *)
Definition rolesPathOf (rolesPathNative : string) : string :=
  if isWindows then
    let rolesPath := PathHelper.toWslPath isWindows normalize rolesPathNative in
    if Js.startsWith (String PathHelper.doubleQuote EmptyString) rolesPath
       && endsWith PathHelper.doubleQuote rolesPath
    then sliceEnds rolesPath else rolesPath
  else rolesPathNative.

End Platform.

(** The assignment [rolesExport] that opens the command. *)
Definition rolesExport (rolesPath : string) : string :=
  "ANSIBLE_ROLES_PATH="
  +:+ (if PathHelper.includes " "%char rolesPath
       then String singleQuote (rolesPath +:+ String singleQuote EmptyString)
       else rolesPath).

(** The argument [extraVars] of a run: [null], for which [Object.keys]
    throws, or any other value, with its JSON text when it has a key. *)
Inductive ExtraVars : Type :=
| NullVars
| Vars (varsJson : option string).

Section Command.
Variable isWindows : bool.
Variable normalize : string -> string.
Variable ansibleDir : string.
Variable notAString : string -> string.

(** [ansibleCmd], the command handed to the shell. *)
Definition ansibleCmd (rolesPathNative inventoryPath playbookPath : string)
    (varsJson : option string) : string :=
  let finalInventoryPath :=
    if isWindows then PathHelper.toWslPath isWindows normalize inventoryPath
    else inventoryPath in
  let finalPlaybookPath :=
    if isWindows then PathHelper.toWslPath isWindows normalize playbookPath
    else playbookPath in
  let rolesPath := rolesPathOf isWindows normalize rolesPathNative in
  rolesExport rolesPath +:+ " ansible-playbook -i " +:+ finalInventoryPath
  +:+ " " +:+ finalPlaybookPath +:+ extraVarsStr varsJson.

(** What [executePlaybook] does before it spawns the child: the command is
    built and logged.  A throw in here rejects the promise of the run with
    the error thrown. *)
Definition announce (playbookType inventoryPath playbookPath : string)
    (extraVars : ExtraVars) : Node.M unit :=
  Node.bind (PathHelper.getRolePath ansibleDir notAString playbookType)
    (λ rolesPathNative,
       match extraVars with
       | NullVars => Node.throw "Cannot convert undefined or null to object"
       | Vars varsJson =>
           Node.consoleLog
             ("Executing: "
              +:+ ansibleCmd rolesPathNative inventoryPath playbookPath varsJson)
       end).

End Command.

(** [spawn(file, args, ...)]: what the run starts is a shell that is handed
    the command, [wsl bash -c] on Windows and [/bin/sh -c] elsewhere; the
    engine is started by that shell. *)
Definition spawned (isWindows : bool) (ansibleCmd : string) : string * list string :=
  if isWindows then ("wsl", ["bash"; "-c"; ansibleCmd])
  else ("/bin/sh", ["-c"; ansibleCmd]).

End CommandLine.

(** *** backend/middleware/validation.js and errorHandler.js *)

Module Validation.
Import InventoryService.

Record ApiError := mkApiError {
  message : string;
  statusCode : N
}.

Definition badRequest (message : string) : ApiError := mkApiError message 400.

(** What a middleware hands on: [next()] or [next(err)]. *)
Inductive Next : Type :=
| Continue
| Fail (err : ApiError).

(** The loop of [validateServers] from index [i] on.  The test
    [!server.hostname] reads a missing host name and an empty one alike: a
    host without a name is given as one whose name is empty. *)
Fixpoint hostnameLoop (i : nat) (servers : list TargetHost) : Next :=
  match servers with
  | [] => Continue
  | server :: rest =>
      if Js.nonEmpty (hostname server) then hostnameLoop (S i) rest
      else Fail (badRequest ("Server " +:+ Js.ofNat (i + 1) +:+ ": hostname is required"))
  end.

(** [validateServers]; [servers] is [None] when the body has no array
    under that name. *)
Definition validateServers (servers : option (list TargetHost)) : Next :=
  match servers with
  | None | Some [] => Fail (badRequest "Servers array is required")
  | Some l => hostnameLoop 0 l
  end.

Definition validateKubernetesMaster (servers : list TargetHost) : Next :=
  if existsb (roleIs "master") servers then Continue
  else Fail (badRequest "At least one master node is required").

End Validation.

(** *** backend/controllers/playbookController.js *)

Module PlaybookController.
Import Node InventoryService.

(** What [res.json] is handed: a result of the run, or the Error object
    that was thrown while the run was set up. *)
Inductive Body : Type :=
| Sent (result : Result.t)
| Thrown (message : string).

Record Response := mkResponse {
  status : N;
  body : Body
}.

(** The data of the server-sent events of a streaming request; [stdout] and
    [stderr] are undefined when an Error object is reported. *)
Inductive SseData : Type :=
| Progress (output : ProgressEvent)
| Complete (success : bool) (error : option string) (stdout stderr : option string)
    (credentials : CredentialSet)
| StreamError (error : string).

(** What a streaming request wrote, and whether [res.end()] was called. *)
Record Stream := mkStream {
  sent : list SseData;
  ended : bool
}.

Section Controller.
Variable isWindows : bool.
Variable normalize : string -> string.
Variable notAString : string -> string.
Variable inventoryDir : string.
Variable ansibleDir : string.
Variable JSON_parse : string -> ParsedJson.

(** [executePlaybookStandard]; [inventoryId] is the identifier drawn for
    the run, [variables] the variables of the request and [evs] the events
    of the child up to the one that settles the promise of the run.  The
    answer is [None] when the promise is never settled.  No subscriber is
    passed. *)
Definition executePlaybookStandard (inventoryId playbookType : string)
    (servers : list TargetHost) (variables : CommandLine.ExtraVars)
    (evs : list ChildEvent) : M (option Response) :=
  bind (PathHelper.getPlaybookPath ansibleDir notAString playbookType) (λ playbookPath,
  bind (generateInventory inventoryDir inventoryId servers playbookType) (λ inv,
  tryCatch
    (CommandLine.announce isWindows normalize ansibleDir notAString
       playbookType inv.2 playbookPath variables ;;
     match PlaybookService.settled
             (PlaybookService.executePlaybook JSON_parse playbookType false evs) with
     | Some (Resolved result) =>
         cleanupInventory inventoryDir inv.1 servers ;;
         ret (Some (mkResponse 200 (Sent result)))
     | Some (Rejected error) =>
         cleanupInventory inventoryDir inv.1 servers ;;
         ret (Some (mkResponse 500 (Sent error)))
     | None => ret None
     end)
    (λ message,
       cleanupInventory inventoryDir inv.1 servers ;;
       ret (Some (mkResponse 500 (Thrown message)))))).

(** [executePlaybookStream]: the subscriber writes each event as it comes. *)
Definition executePlaybookStream (inventoryId playbookType : string)
    (servers : list TargetHost) (variables : CommandLine.ExtraVars)
    (evs : list ChildEvent) : M Stream :=
  tryCatch
    (bind (PathHelper.getPlaybookPath ansibleDir notAString playbookType) (λ playbookPath,
     bind (generateInventory inventoryDir inventoryId servers playbookType) (λ inv,
     tryCatch
       (CommandLine.announce isWindows normalize ansibleDir notAString
          playbookType inv.2 playbookPath variables ;;
        let run := PlaybookService.executePlaybook JSON_parse playbookType true evs in
        let progress := Progress <$> PlaybookService.emitted run in
        match PlaybookService.settled run with
        | Some (Resolved result) =>
            let complete :=
              Complete true None (Some (Result.stdout result)) (Some (Result.stderr result))
                       (default ∅ (Result.credentials result)) in
            cleanupInventory inventoryDir inv.1 servers ;;
            ret (mkStream (progress ++ [complete]) true)
        | Some (Rejected error) =>
            let complete :=
              Complete false (Js.truthy (Result.error error))
                       (Some (Result.stdout error)) (Some (Result.stderr error))
                       (default ∅ (Result.credentials error)) in
            cleanupInventory inventoryDir inv.1 servers ;;
            ret (mkStream (progress ++ [complete]) true)
        | None => ret (mkStream progress false)
        end)
       (λ message,
          cleanupInventory inventoryDir inv.1 servers ;;
          ret (mkStream [Complete false (Some message) None None ∅] true)))))
    (λ error, ret (mkStream [StreamError error] true)).

End Controller.

End PlaybookController.

(** ** Part II: the properties *)

(** *** Vocabulary of the statements *)

(** Events of the child that carry output. *)
Definition isData (ev : ChildEvent) : Prop :=
  match ev with
  | StdoutData _ | StderrData _ => True
  | Close _ | SpawnError _ => False
  end.

(** A runtime whose [JSON.parse] throws on every text; it stands for the
    engine's runtime in the examples, whose lines carry no JSON payload. *)
Definition noJson : string -> ParsedJson := λ _, JsonThrows.

(** A credential set whose service names are all in lower case. *)
Definition lowerKeys (credentials : CredentialSet) : Prop :=
  ∀ svc, is_Some (credentials !! svc) → Js.toLowerCase svc = svc.

(** [avoids stops s]: no character of [s] is one of [stops]. *)
Fixpoint avoids (stops : list ascii) (s : string) : bool :=
  match s with
  | EmptyString => true
  | String c s' => negb (bool_decide (c ∈ stops)) && avoids stops s'
  end.

(** A token of a credential marker: not empty, free of the characters
    [stops], and with no white space at either end. *)
Definition token (stops : list ascii) (s : string) : Prop :=
  s ≠ "" ∧ avoids stops s = true ∧ Js.trim s = s.

(** The default path of the credentials file of a service, if it has one. *)
Definition defaultPath (service : string) : option string :=
  Config.credentialDefaults !! service ≫= (.!! "path").

(** The text that the stdout events of [evs] carry, in order. *)
Fixpoint stdoutText (evs : list ChildEvent) : string :=
  match evs with
  | [] => EmptyString
  | StdoutData text :: evs' => text +:+ stdoutText evs'
  | _ :: evs' => stdoutText evs'
  end.

(** [hasField svc k v credentials]: the entry of [svc] holds [v] under [k]. *)
Definition hasField (svc k v : string) (credentials : CredentialSet) : Prop :=
  ∃ entry, credentials !! svc = Some entry ∧ entry !! k = Some v.




(** *** Facts on strings *)

(** A host with its temporary directory, no file yet, nothing refused. *)
Definition freshWorld : Node.World := Node.mkWorld ∅ {["/tmp"]} ∅ [].

(** The pair by which the specification tells hosts apart for env-check:
    the host name and the SSH port, 22 when none is given. *)
Definition hostPair (s : InventoryService.TargetHost) : string * N :=
  (InventoryService.hostname s, InventoryService.portOr22 s).

(** Deduplication by that pair as the specification words it: of the hosts
    with one pair the first is kept, and the order is that of the list. *)
Fixpoint firstOfPair (seen : list (string * N)) (servers : list InventoryService.TargetHost)
    : list InventoryService.TargetHost :=
  match servers with
  | [] => []
  | s :: rest =>
      if bool_decide (hostPair s ∈ seen) then firstOfPair seen rest
      else s :: firstOfPair (hostPair s :: seen) rest
  end.

Module StringFacts.

Lemma append_cons (c : ascii) (s t : string) : String c s +:+ t = String c (s +:+ t).
Proof. reflexivity. Qed.

Lemma append_nil_l (s : string) : "" +:+ s = s.
Proof. reflexivity. Qed.

Lemma append_nil_r (s : string) : s +:+ "" = s.
Proof. induction s as [|c s IH]; [done|]. by rewrite append_cons, IH. Qed.

Lemma append_assoc (a b c : string) : (a +:+ b) +:+ c = a +:+ (b +:+ c).
Proof. induction a as [|x a IH]; [done|]. by rewrite !append_cons, IH. Qed.

Lemma length_append (a b : string) :
  String.length (a +:+ b) = String.length a + String.length b.
Proof. induction a as [|x a IH]; [done|]. rewrite append_cons. simpl. by rewrite IH. Qed.

Lemma split_nonempty sep s : Js.split sep s ≠ [].
Proof.
  destruct s as [|c s]; simpl; [done|].
  destruct (Js.eqc c sep); [done|]. by destruct (Js.split sep s).
Qed.

(** Splitting a text at a separator that joins two parts splits each part. *)
Lemma split_glue_sep sep a b :
  Js.split sep (a +:+ String sep b) = Js.split sep a ++ Js.split sep b.
Proof.
  induction a as [|c a IH].
  - rewrite append_nil_l. simpl. unfold Js.eqc. by rewrite bool_decide_eq_true_2.
  - rewrite append_cons. simpl. destruct (Js.eqc c sep); [by rewrite IH|].
    rewrite IH. pose proof (split_nonempty sep a). by destruct (Js.split sep a).
Qed.

End StringFacts.

(** *** Facts on tokens: trimming, splitting, stops *)

Module TokenFacts.
Import StringFacts.

Lemma avoids_append stops a b :
  avoids stops (a +:+ b) = avoids stops a && avoids stops b.
Proof.
  induction a as [|c a IH]; [done|].
  rewrite append_cons. simpl. by rewrite IH, andb_assoc.
Qed.

Lemma avoids_weaken stops stops' s :
  (∀ c, c ∈ stops' → c ∈ stops) → avoids stops s = true → avoids stops' s = true.
Proof.
  intros Hsub. induction s as [|c s IH]; [done|]. simpl.
  intros [Hc Hs]%andb_true_iff. rewrite IH by done.
  apply negb_true_iff, bool_decide_eq_false in Hc.
  rewrite bool_decide_eq_false_2; [done|]. intros Hin. apply Hc. by apply Hsub.
Qed.

(** Fewer stops are avoided by whatever avoids more. *)
Ltac fewer_stops H :=
  refine (avoids_weaken _ _ _ _ H);
  let c := fresh "c" in
  let Hc := fresh "Hc" in
  intros c Hc;
  repeat (apply elem_of_cons in Hc; destruct Hc as [->|Hc]; [by repeat constructor|]);
  by apply elem_of_nil in Hc.

Lemma split_whole sep s : avoids [sep] s = true → Js.split sep s = [s].
Proof.
  induction s as [|c s IH]; [done|]. simpl.
  intros [Hc Hs]%andb_true_iff. rewrite IH by done.
  apply negb_true_iff, bool_decide_eq_false in Hc.
  unfold Js.eqc. rewrite bool_decide_eq_false_2; [done|].
  intros ->. apply Hc. by left.
Qed.

Lemma startsWith_append p s : Js.startsWith p (p +:+ s) = true.
Proof.
  induction p as [|c p IH]; [done|]. rewrite append_cons. simpl.
  unfold Js.eqc. by rewrite bool_decide_eq_true_2, IH.
Qed.

Lemma startsWithI_append p s : Js.startsWithI p (p +:+ s) = true.
Proof.
  induction p as [|c p IH]; [done|]. rewrite append_cons. simpl.
  unfold Js.eqc. by rewrite bool_decide_eq_true_2, IH.
Qed.

Lemma drop_append p s : Js.drop (String.length p) (p +:+ s) = s.
Proof. induction p as [|c p IH]; [done|]. by rewrite append_cons. Qed.

Lemma trimEnd_append a b :
  Js.trimEnd b = b → b ≠ "" → Js.trimEnd (a +:+ b) = a +:+ b.
Proof.
  intros Hb Hne. induction a as [|c a IH]; [done|].
  rewrite append_cons. simpl. rewrite IH.
  destruct (a +:+ b) eqn:E; [|done].
  destruct a; [|done]. by rewrite append_nil_l in E.
Qed.

Lemma trimStart_fixed s : Js.trimStart s = s → Regex.skipWs s = s.
Proof.
  destruct s as [|c s]; [done|]. simpl.
  destruct (Js.isWhiteSpace c) eqn:E; [|done].
  intros H. exfalso.
  assert (Hl : ∀ t, String.length (Js.trimStart t) ≤ String.length t).
  { clear. induction t as [|x t IH]; [done|]. simpl. destruct (Js.isWhiteSpace x); simpl; lia. }
  pose proof (Hl s) as Hs. rewrite H in Hs. simpl in Hs. lia.
Qed.

Lemma trimEnd_length s : String.length (Js.trimEnd s) ≤ String.length s.
Proof.
  induction s as [|c s IH]; [done|]. simpl.
  destruct (Js.trimEnd s); [destruct (Js.isWhiteSpace c)|]; simpl in *; lia.
Qed.

Lemma trimStart_suffix s : ∃ p, s = p +:+ Js.trimStart s.
Proof.
  induction s as [|c s [p IH]]; [by exists ""|]. simpl.
  destruct (Js.isWhiteSpace c); [|by exists ""].
  exists (String c p). by rewrite append_cons, <- IH.
Qed.

(** A trimmed text starts and ends with characters that are not white space. *)
Lemma trim_fixed s : Js.trim s = s → Js.trimStart s = s ∧ Js.trimEnd s = s.
Proof.
  unfold Js.trim. intros H.
  assert (Hs : Js.trimStart s = s).
  { destruct (trimStart_suffix s) as [p Hp].
    pose proof (trimEnd_length (Js.trimStart s)) as Hl.
    rewrite H in Hl. rewrite Hp in Hl at 1. rewrite length_append in Hl.
    destruct p; [by rewrite append_nil_l in Hp|simpl in Hl; lia]. }
  split; [done|]. by rewrite Hs in H.
Qed.

(** A literal that is none of the literals of a list. *)
Ltac not_listed :=
  let H := fresh "H" in
  intros H;
  repeat (apply elem_of_cons in H; destruct H as [H|H]; [discriminate|]);
  by apply elem_of_nil in H.

Lemma get_own {V} (o : gmap string V) k v : o !! k = Some v → Js.get o k = Js.Own v.
Proof. intros H. unfold Js.get. by rewrite H. Qed.

Lemma get_missing {V} (o : gmap string V) k :
  o !! k = None → k ∉ Js.inherited → Js.get o k = Js.Missing.
Proof. intros H Hk. unfold Js.get. by rewrite H, bool_decide_eq_false_2. Qed.

Lemma get_inherited {V} (o : gmap string V) k :
  o !! k = None → k ∈ Js.inherited → Js.get o k = Js.Inherited.
Proof. intros H Hk. unfold Js.get. by rewrite H, bool_decide_eq_true_2. Qed.

Lemma assign_insert o k v : k ≠ "__proto__" → Js.assign o k v = <[k := v]> o.
Proof. intros Hk. unfold Js.assign, Js.eqs. by rewrite bool_decide_eq_false_2. Qed.


Lemma assign_is_Some o k v k' : is_Some (o !! k') → is_Some (Js.assign o k v !! k').
Proof.
  intros H. unfold Js.assign. destruct (Js.eqs k "__proto__"); [done|].
  destruct (decide (k = k')) as [<-|Hne].
  - by rewrite lookup_insert_eq.
  - by rewrite lookup_insert_ne.
Qed.

Lemma setField_ensureEntry svc k v (credentials : CredentialSet) :
  svc ∉ Js.inherited → k ≠ "__proto__" →
  setField svc k v (ensureEntry svc credentials)
  = <[svc := <[k := v]> (default ∅ (credentials !! svc))]> credentials.
Proof.
  intros Hs Hk.
  unfold setField, ensureEntry. destruct (credentials !! svc) as [e|] eqn:E.
  - rewrite (get_own _ _ _ E), E. by rewrite assign_insert.
  - rewrite get_missing by done. rewrite lookup_insert_eq. simpl.
    by rewrite assign_insert, insert_insert_eq.
Qed.

Lemma toLowerCase_nonEmpty s : s ≠ "" → Js.nonEmpty (Js.toLowerCase s) = true.
Proof. by destruct s. Qed.

Lemma nonEmpty_true s : s ≠ "" → Js.nonEmpty s = true.
Proof. by destruct s. Qed.

Lemma keyValue_pair k v :
  token ["|"; "="; LF]%char k → token ["|"; "="; LF]%char v →
  keyValue (k +:+ "=" +:+ v) = Some (k, v).
Proof.
  intros (Hk1 & Hk2 & Hk3) (Hv1 & Hv2 & Hv3). unfold keyValue.
  change ("=" +:+ v) with (String "=" v). rewrite split_glue_sep.
  rewrite !split_whole by (by fewer_stops Hk2 || by fewer_stops Hv2).
  simpl. by rewrite !nonEmpty_true, Hk3, Hv3.
Qed.

End TokenFacts.

(** *** Facts on the scan for markers in the retained output *)

Module ScanFacts.
Import StringFacts TokenFacts.


Lemma eqc_LF_avoids c s : avoids [LF] (String c s) = true → Js.eqc c LF = false.
Proof.
  simpl. intros [Hc _]%andb_true_iff. apply negb_true_iff, bool_decide_eq_false in Hc.
  unfold Js.eqc. apply bool_decide_eq_false. intros ->. apply Hc. by left.
Qed.

Lemma avoids_tail stops c s : avoids stops (String c s) = true → avoids stops s = true.
Proof. simpl. by intros [_ Hs]%andb_true_iff. Qed.

Lemma takeToLF_append a b :
  avoids [LF] a = true → Regex.takeToLF (a +:+ b) = a +:+ Regex.takeToLF b.
Proof.
  induction a as [|c a IH]; intros Ha; [done|].
  rewrite !append_cons. simpl. rewrite (eqc_LF_avoids c a Ha).
  by rewrite IH by (by eapply avoids_tail).
Qed.


Lemma takeToLF_whole a : avoids [LF] a = true → Regex.takeToLF a = a.
Proof.
  intros Ha. rewrite <- (append_nil_r a) at 1. rewrite takeToLF_append by done.
  simpl. apply append_nil_r.
Qed.






Lemma drop_drop n m s : Js.drop n (Js.drop m s) = Js.drop (m + n) s.
Proof.
  induction m as [|m IH] in s |- *; [done|].
  destruct s as [|c s]; simpl; [by destruct n|]. apply IH.
Qed.


Lemma startsWith_split p s : Js.startsWith p s = true → s = p +:+ Js.drop (String.length p) s.
Proof.
  induction p as [|c p IH] in s |- *; [done|].
  destruct s as [|x s]; [done|]. simpl.
  intros [Hc Hs]%andb_true_iff. unfold Js.eqc in Hc. apply bool_decide_eq_true in Hc as ->.
  rewrite append_cons. f_equal. by apply IH.
Qed.

Lemma lastChar_append a b : b ≠ "" → Regex.lastChar (a +:+ b) = Regex.lastChar b.
Proof.
  intros Hb. induction a as [|c a IH]; [done|].
  rewrite append_cons. simpl. rewrite IH.
  destruct (a +:+ b) eqn:E; [|done].
  destruct a; [by rewrite append_nil_l in E|done].
Qed.




Section Scan.
(** The literal head of the pattern: not empty, on one line, closed by a bar. *)
Variable prefix : string.
Hypothesis prefix_line : avoids [LF] prefix = true.
Hypothesis prefix_bar : Regex.lastChar prefix = Some "|"%char.

Local Abbreviation markersFrom := (Regex.markersFrom prefix).






Variable x post : string.
Hypothesis x_nonempty : x ≠ "".
Hypothesis x_line : avoids [LF] x = true.





End Scan.
End ScanFacts.

(** *** Facts on letter case *)

Module CaseFacts.

Lemma toLowerChar_idem c : Js.toLowerChar (Js.toLowerChar c) = Js.toLowerChar c.
Proof. by destruct c as [[] [] [] [] [] [] [] []]. Qed.

Lemma toLowerCase_idem s : Js.toLowerCase (Js.toLowerCase s) = Js.toLowerCase s.
Proof. induction s as [|c s IH]; [done|]. simpl. by rewrite toLowerChar_idem, IH. Qed.

Lemma lowerKeys_empty : lowerKeys ∅.
Proof. intros svc [e He]. by rewrite lookup_empty in He. Qed.

Lemma lowerKeys_insert svc e credentials :
  Js.toLowerCase svc = svc → lowerKeys credentials → lowerKeys (<[svc := e]> credentials).
Proof.
  intros Hs Hc k Hk. destruct (decide (svc = k)) as [<-|Hne]; [done|].
  rewrite lookup_insert_ne in Hk by done. by apply Hc.
Qed.

Lemma lowerKeys_ensureEntry svc credentials :
  Js.toLowerCase svc = svc → lowerKeys credentials → lowerKeys (ensureEntry svc credentials).
Proof.
  intros Hs Hc. unfold ensureEntry. destruct (Js.get credentials svc); [done..|].
  by apply lowerKeys_insert.
Qed.

Lemma lowerKeys_setField svc k v credentials :
  lowerKeys credentials → lowerKeys (setField svc k v credentials).
Proof.
  intros Hc. unfold setField. destruct (credentials !! svc) as [e|] eqn:E; [|done].
  apply lowerKeys_insert; [|done]. apply Hc. by rewrite E.
Qed.

Lemma firstLabel_lower labels text svc key value :
  Forall (λ l, Js.toLowerCase l.1.2 = l.1.2) labels →
  firstLabel labels text = Some (svc, key, value) → Js.toLowerCase svc = svc.
Proof.
  induction 1 as [|[[lit s] k] labels Hl _ IH]; simpl; [done|].
  destruct (Regex.labelled lit text); [|done].
  by intros [= <- _ _].
Qed.

Lemma credentialLabels_lower :
  Forall (λ l, Js.toLowerCase l.1.2 = l.1.2) credentialLabels.
Proof. by repeat constructor. Qed.

End CaseFacts.

(** *** Facts on the file system *)

Module WorldFacts.
Import Node StringFacts TokenFacts.

Lemma forOf_cons {A} (x : A) l body w :
  forOf (x :: l) body w
  = (match body x w with
     | (Ret _, w') => forOf l body w'
     | (Throw e, w') => (Throw e, w')
     end).
Proof. reflexivity. Qed.

Lemma writeFile_ret path content w w' :
  writeFile path content w = (Ret tt, w') →
  w' = withFiles w (<[path := content]> (files w))
  ∧ (path ∉ denied w)
  ∧ (∀ d, parentDir path = Some d → d ∈ dirs w).
Proof.
  unfold writeFile. case_bool_decide; [done|]. case_bool_decide; [done|].
  destruct (parentDir path) as [d|]; [|by intros [= <-]].
  case_bool_decide; [|done]. intros [= <-]. split; [done|]. split; [done|].
  by intros ? [= <-].
Qed.

Lemma unlink_cases path w :
  (unlink path w = (Ret tt, withFiles w (delete path (files w)))
   ∧ is_Some (files w !! path) ∧ path ∉ denied w)
  ∨ (∃ e, unlink path w = (Throw e, w)
          ∧ (files w !! path = None ∨ path ∈ denied w)).
Proof.
  unfold unlink. destruct (files w !! path) eqn:E.
  - case_bool_decide; [right; eexists; split; [done|by right]|by left].
  - right. eexists. split; [done|by left].
Qed.

Lemma writeFile_ok path content w :
  path ∉ denied w → path ∉ dirs w → (∀ d, parentDir path = Some d → d ∈ dirs w) →
  writeFile path content w = (Ret tt, withFiles w (<[path := content]> (files w))).
Proof.
  intros H1 H2 H3. unfold writeFile.
  rewrite !bool_decide_eq_false_2 by done.
  destruct (parentDir path) as [d|]; [|done].
  by rewrite bool_decide_eq_true_2 by (by apply H3).
Qed.

Lemma writeFile_throw path content w e w' :
  writeFile path content w = (Throw e, w') → w' = w.
Proof.
  unfold writeFile. repeat case_bool_decide; try by intros [= _ <-].
  destruct (parentDir path); [case_bool_decide|]; by intros [= _ <-] || done.
Qed.

(** What one step of [mkdir] leaves alone, and what it may add. *)
Definition sameButDirs (w w' : World) : Prop :=
  files w' = files w ∧ console w' = console w ∧ denied w' = denied w
  ∧ dirs w ⊆ dirs w'.

Lemma sameButDirs_refl w : sameButDirs w w.
Proof. by repeat split. Qed.

Lemma sameButDirs_trans w1 w2 w3 :
  sameButDirs w1 w2 → sameButDirs w2 w3 → sameButDirs w1 w3.
Proof.
  intros (F1 & C1 & D1 & S1) (F2 & C2 & D2 & S2).
  repeat split; [congruence..|]. by etrans.
Qed.

Lemma mkdirOne_cases d w :
  (mkdirOne d w = (Ret tt, w) ∧ d ∈ dirs w)
  ∨ (mkdirOne d w = (Ret tt, withDirs w ({[d]} ∪ dirs w)) ∧ d ∉ dirs w)
  ∨ (∃ e, mkdirOne d w = (Throw e, w) ∧ d ∉ dirs w).
Proof.
  unfold mkdirOne. case_bool_decide; [by left|]. right.
  case_bool_decide; [right; by eexists|].
  case_bool_decide; [right; by eexists|]. by left.
Qed.

Lemma mkdirs_frame l w o w' :
  forOf l mkdirOne w = (o, w') → sameButDirs w w'.
Proof.
  induction l as [|d l IH] in w |- *.
  { intros [= _ <-]. apply sameButDirs_refl. }
  rewrite forOf_cons.
  destruct (mkdirOne_cases d w) as [[-> _]|[[-> _]|(e & -> & _)]].
  - apply IH.
  - intros H. eapply sameButDirs_trans; [|by apply IH].
    repeat split; simpl. set_solver.
  - intros [= _ <-]. apply sameButDirs_refl.
Qed.

Lemma mkdirs_ret_last l p w w' :
  forOf (l ++ [p]) mkdirOne w = (Ret tt, w') → p ∈ dirs w'.
Proof.
  induction l as [|d l IH] in w |- *.
  - simpl app. rewrite forOf_cons.
    destruct (mkdirOne_cases p w) as [[-> Hin]|[[-> _]|(e & -> & _)]].
    + by intros [= <-].
    + intros [= <-]. simpl. set_solver.
    + done.
  - rewrite <- app_comm_cons, forOf_cons.
    destruct (mkdirOne_cases d w) as [[-> _]|[[-> _]|(e & -> & _)]]; [apply IH..|done].
Qed.

Lemma mkdirs_throw_last l p w e w' :
  p ∉ l → p ∉ dirs w → forOf (l ++ [p]) mkdirOne w = (Throw e, w') → p ∉ dirs w'.
Proof.
  induction l as [|d l IH] in w |- *; intros Hl Hp.
  - simpl app. rewrite forOf_cons.
    destruct (mkdirOne_cases p w) as [[-> Hin]|[[-> _]|(e' & -> & _)]].
    + done.
    + done.
    + by intros [= _ <-].
  - apply not_elem_of_cons in Hl as [Hne Hl].
    rewrite <- app_comm_cons, forOf_cons.
    destruct (mkdirOne_cases d w) as [[-> _]|[[-> _]|(e' & -> & _)]].
    + by apply IH.
    + apply IH; [done|]. simpl. rewrite elem_of_union, elem_of_singleton.
      by intros [?|?].
    + by intros [= _ <-].
Qed.

Lemma ancestorsFrom_length acc s d :
  d ∈ ancestorsFrom acc s → String.length d < String.length acc + String.length s.
Proof.
  induction s as [|c s IH] in acc |- *; [intros H; by apply elem_of_nil in H|].
  simpl. intros [H|H]%elem_of_app.
  - destruct (Js.eqc c "/" && Js.nonEmpty acc); [|by apply elem_of_nil in H].
    apply list_elem_of_singleton in H as ->. lia.
  - apply IH in H. rewrite length_append in H. simpl in H. lia.
Qed.

Lemma ancestors_proper path : path ∉ ancestors path.
Proof. intros H. apply ancestorsFrom_length in H. simpl in H. lia. Qed.

Lemma mkdir_ret path w w' :
  mkdir path w = (Ret tt, w') → sameButDirs w w' ∧ path ∈ dirs w'.
Proof.
  unfold mkdir. case_bool_decide as Hin.
  - intros [= <-]. split; [apply sameButDirs_refl|done].
  - intros H. split; [by eapply mkdirs_frame|by eapply mkdirs_ret_last].
Qed.

Lemma mkdir_throw path w e w' :
  mkdir path w = (Throw e, w') → sameButDirs w w' ∧ path ∉ dirs w'.
Proof.
  unfold mkdir. case_bool_decide as Hin; [done|].
  intros H. split; [by eapply mkdirs_frame|].
  eapply mkdirs_throw_last; [apply ancestors_proper|done|done].
Qed.

Lemma beforeLastSlash_none f : avoids ["/"%char] f = true → beforeLastSlash f = None.
Proof.
  induction f as [|c f IH]; [done|]. simpl. intros [Hc Hf]%andb_true_iff.
  rewrite IH by done. apply negb_true_iff, bool_decide_eq_false in Hc.
  unfold Js.eqc. rewrite bool_decide_eq_false_2; [done|]. intros ->. apply Hc. by left.
Qed.

Lemma beforeLastSlash_glue d f :
  avoids ["/"%char] f = true → beforeLastSlash (d +:+ String "/" f) = Some d.
Proof.
  intros Hf. induction d as [|c d IH].
  - rewrite append_nil_l. simpl. by rewrite beforeLastSlash_none.
  - rewrite append_cons. simpl. by rewrite IH.
Qed.

Lemma parentDir_glue d f :
  d ≠ "" → avoids ["/"%char] f = true → parentDir (d +:+ String "/" f) = Some d.
Proof.
  intros Hd Hf. unfold parentDir. rewrite beforeLastSlash_glue by done. by destruct d.
Qed.

End WorldFacts.

(** *** The inventory builder and its clean-up *)

Module InventoryFacts.
Import Node InventoryService StringFacts TokenFacts WorldFacts.

Lemma filter_without (P : TargetHost → bool) l1 h l2 :
  P h = false → filter P (l1 ++ h :: l2) = filter P (l1 ++ l2).
Proof.
  intros Hh. rewrite !filter_app, filter_cons_False; [done|].
  rewrite Hh. simpl. auto.
Qed.

Definition recognised : list string := ["master"; "k8s-master"; "worker"; "k8s-worker"].

(** C10.  For the run kind kubernetes, a host whose role is none of the
    recognised master and worker names adds no line to any group: the groups
    of the document are those of the list without that host, wherever the
    host stands in the list, and the builder returns a document all the
    same.  Only the block of shared variables still reads the host. *)
Theorem kubernetes_unrecognised_role_omitted l1 h l2 :
  (∀ r, role h = Some r → r ∉ recognised) →
  groupsSection (l1 ++ h :: l2) "kubernetes" = groupsSection (l1 ++ l2) "kubernetes"
  ∧ generateInventoryContent (l1 ++ h :: l2) "kubernetes"
    = groupsSection (l1 ++ l2) "kubernetes" +:+ varsSection (l1 ++ h :: l2).
Proof.
  intros Hrole.
  assert (Hnot : ∀ r, r ∈ recognised → roleIs r h = false).
  { intros r Hr. unfold roleIs. apply bool_decide_eq_false. intros E. by apply (Hrole r). }
  assert (Hg : groupsSection (l1 ++ h :: l2) "kubernetes"
               = groupsSection (l1 ++ l2) "kubernetes").
  { unfold groupsSection. simpl.
    rewrite !(filter_without _ l1 h l2); [done| |].
    - rewrite !Hnot; [done|unfold recognised; set_solver..].
    - rewrite !Hnot; [done|unfold recognised; set_solver..]. }
  split; [done|]. unfold generateInventoryContent. by rewrite Hg.
Qed.

Definition etcdHost : TargetHost :=
  mkHost "10.0.0.9" None None None None None (Some "pw") None (Some "etcd") (Some "admin").

Definition masterHost : TargetHost :=
  mkHost "10.0.0.1" None None None None None (Some "pw") None (Some "master") None.

Lemma kubernetes_unrecognised_role_omitted_witness :
  groupsSection ([masterHost] ++ etcdHost :: []) "kubernetes"
    = groupsSection ([masterHost] ++ []) "kubernetes"
  ∧ generateInventoryContent ([masterHost] ++ etcdHost :: []) "kubernetes"
    = groupsSection ([masterHost] ++ []) "kubernetes"
      +:+ varsSection ([masterHost] ++ etcdHost :: []).
Proof.
  apply (kubernetes_unrecognised_role_omitted [masterHost] etcdHost []).
  intros r Hr. injection Hr as <-. unfold recognised. intros Hin.
  repeat (apply elem_of_cons in Hin; destruct Hin as [Hin|Hin]; [discriminate|]).
  by apply elem_of_nil in Hin.
Defined.

Lemma uniqueLoop_keys_fresh seen l :
  ∀ s, s ∈ uniqueLoop seen l → dedupKey s ∉ seen.
Proof.
  revert seen. induction l as [|a l IH]; intros seen s; simpl; [set_solver|].
  case_bool_decide as Ha.
  - apply IH.
  - intros [->|Hs]%elem_of_cons; [done|].
    apply IH in Hs. set_solver.
Qed.

Lemma uniqueLoop_NoDup seen l : NoDup (dedupKey <$> uniqueLoop seen l).
Proof.
  revert seen. induction l as [|a l IH]; intros seen; simpl; [constructor|].
  case_bool_decide as Ha; [apply IH|].
  rewrite fmap_cons. constructor; [|apply IH].
  intros (s & Hk & Hs)%list_elem_of_fmap.
  apply uniqueLoop_keys_fresh in Hs. set_solver.
Qed.

Lemma uniqueLoop_covers seen l s :
  s ∈ l → dedupKey s ∈ seen ∨ dedupKey s ∈ dedupKey <$> uniqueLoop seen l.
Proof.
  revert seen. induction l as [|a l IH]; intros seen Hs.
  { by apply elem_of_nil in Hs. }
  apply elem_of_cons in Hs. simpl. case_bool_decide as Ha.
  - destruct Hs as [->|Hs]; [by left | by apply IH].
  - rewrite fmap_cons, elem_of_cons.
    destruct Hs as [->|Hs]; [right; by left|].
    destruct (IH ({[dedupKey a]} ∪ seen) Hs) as [Hin|Hin]; [|right; by right].
    apply elem_of_union in Hin. destruct Hin as [Hin|Hin]; [|by left].
    apply elem_of_singleton in Hin. right. by left.
Qed.

(** The env-check branch lists the hosts that the loop keeps; their keys
    are pairwise distinct and cover the keys of all the hosts given. *)
Lemma env_check_one_entry_per_host servers :
  groupsSection servers "env-check"
    = "[all]" +:+ nl +:+ hostLines "server-" (uniqueServers servers)
  ∧ NoDup (dedupKey <$> uniqueServers servers)
  ∧ ∀ s, s ∈ servers → dedupKey s ∈ dedupKey <$> uniqueServers servers.
Proof.
  split; [done|]. split; [apply uniqueLoop_NoDup|].
  intros s Hs. destruct (uniqueLoop_covers ∅ servers s Hs) as [H|H]; [set_solver|done].
Qed.

Lemma ofN_digits n : avoids [":"%char] (Js.ofN n) = true.
Proof.
  unfold Js.ofN. generalize (N.to_uint n). intros d.
  destruct d as [|d|d|d|d|d|d|d|d|d|d]; [done|..]; simpl;
  (induction d as [|d IH|d IH|d IH|d IH|d IH|d IH|d IH|d IH|d IH|d IH]; [done|by simpl; rewrite IH..]).
Qed.

Lemma ofN_inj a b : Js.ofN a = Js.ofN b → a = b.
Proof.
  unfold Js.ofN. intros H. apply DecimalN.Unsigned.to_uint_inj.
  assert (Hnn : ∀ n, N.to_uint n ≠ Decimal.Nil).
  { intros [|p]; [done|]. apply DecimalPos.Unsigned.to_uint_nonnil. }
  pose proof (NilZero.usu _ (Hnn a)) as Ha. pose proof (NilZero.usu _ (Hnn b)) as Hb.
  rewrite H in Ha. rewrite Ha in Hb. by injection Hb.
Qed.

Lemma append_sep_inj sep a b x y :
  avoids [sep] x = true → avoids [sep] y = true →
  a +:+ String sep x = b +:+ String sep y → a = b ∧ x = y.
Proof.
  intros Hx Hy. revert b. induction a as [|c a IH]; intros b H.
  - destruct b as [|d b]; [by injection H|].
    rewrite append_nil_l, append_cons in H. injection H as -> ->.
    rewrite avoids_append in Hx. simpl in Hx.
    rewrite bool_decide_eq_true_2 in Hx by (by left).
    by rewrite andb_false_r in Hx.
  - destruct b as [|d b].
    + rewrite append_nil_l, append_cons in H. injection H as -> <-.
      rewrite avoids_append in Hy. simpl in Hy.
      rewrite bool_decide_eq_true_2 in Hy by (by left).
      by rewrite andb_false_r in Hy.
    + rewrite !append_cons in H. injection H as -> H.
      destruct (IH b H) as [-> ->]. done.
Qed.

Lemma dedupKey_same a b :
  dedupKey a = dedupKey b ↔ hostname a = hostname b ∧ portOr22 a = portOr22 b.
Proof.
  unfold dedupKey. split; [|by intros [-> ->]].
  change (":" +:+ Js.ofN (portOr22 a)) with (String ":" (Js.ofN (portOr22 a))).
  change (":" +:+ Js.ofN (portOr22 b)) with (String ":" (Js.ofN (portOr22 b))).
  intros H. apply append_sep_inj in H as [Hh Hp]; [|apply ofN_digits..].
  split; [done|]. by apply ofN_inj.
Qed.

Lemma dedupKey_hostPair a b : dedupKey a = dedupKey b ↔ hostPair a = hostPair b.
Proof.
  rewrite dedupKey_same. unfold hostPair. split; [by intros [-> ->]|by intros [= -> ->]].
Qed.

(** The loop of the code, which remembers keys, keeps the hosts that are
    the first of their pair of name and port. *)
Lemma uniqueLoop_firstOfPair seen seenPairs l :
  (∀ s, dedupKey s ∈ seen ↔ hostPair s ∈ seenPairs) →
  uniqueLoop seen l = firstOfPair seenPairs l.
Proof.
  revert seen seenPairs. induction l as [|a l IH]; intros seen seenPairs Hs; [done|].
  simpl. destruct (decide (hostPair a ∈ seenPairs)) as [Hin|Hin].
  - rewrite !bool_decide_eq_true_2 by (done || by apply Hs). by apply IH.
  - rewrite !bool_decide_eq_false_2 by (done || by rewrite Hs).
    f_equal. apply IH. intros s.
    rewrite elem_of_union, elem_of_singleton, elem_of_cons, Hs.
    by rewrite dedupKey_hostPair.
Qed.

Lemma uniqueLoop_sublist seen l : uniqueLoop seen l `sublist_of` l.
Proof.
  revert seen. induction l as [|a l IH]; intros seen; simpl; [done|].
  case_bool_decide; [by apply sublist_cons|by apply sublist_skip].
Qed.

Lemma env_check_document servers :
  generateInventoryContent servers "env-check"
  = ("[all]" +:+ nl +:+ hostLines "server-" (uniqueServers servers)) +:+ varsSection servers.
Proof. reflexivity. Qed.

(** C4.  For the run kind env-check the document lists, under the single
    group all, the hosts that are the first of their pair of host name and
    SSH port (an absent port counts as 22), in the order given: the hosts
    listed are among the hosts given, no two of them have the same pair, and
    every host given has its pair listed.  The key that the code remembers
    is the same for two hosts exactly when their pairs are the same.  So two
    hosts with the same host name and port, whatever their roles and other
    fields, give a document with exactly one host entry, that of the first;
    two hosts that differ in name or port give two entries. *)
Theorem env_check_same_host_once servers :
  uniqueServers servers = firstOfPair [] servers
  ∧ generateInventoryContent servers "env-check"
    = ("[all]" +:+ nl +:+ hostLines "server-" (firstOfPair [] servers))
      +:+ varsSection servers
  ∧ uniqueServers servers `sublist_of` servers
  ∧ NoDup (hostPair <$> uniqueServers servers)
  ∧ (∀ s, s ∈ servers → hostPair s ∈ hostPair <$> uniqueServers servers)
  ∧ (∀ a b,
       (dedupKey a = dedupKey b ↔ hostname a = hostname b ∧ portOr22 a = portOr22 b)
       ∧ (hostname a = hostname b ∧ portOr22 a = portOr22 b →
          uniqueServers [a; b] = [a]
          ∧ generateInventoryContent [a; b] "env-check"
            = "[all]" +:+ nl +:+ (formatServerLine a "server-0" +:+ nl)
              +:+ varsSection [a; b])
       ∧ (hostname a ≠ hostname b ∨ portOr22 a ≠ portOr22 b →
          uniqueServers [a; b] = [a; b]
          ∧ generateInventoryContent [a; b] "env-check"
            = "[all]" +:+ nl +:+ (formatServerLine a "server-0" +:+ nl)
              +:+ (formatServerLine b "server-1" +:+ nl) +:+ varsSection [a; b])).
Proof.
  assert (Hu : ∀ l, uniqueServers l = firstOfPair [] l).
  { intros l. apply uniqueLoop_firstOfPair. intros s.
    split; intros H; [by apply not_elem_of_empty in H|by apply elem_of_nil in H]. }
  split; [done|]. split; [by rewrite env_check_document, Hu|].
  split; [apply uniqueLoop_sublist|].
  assert (Hpairs : ∀ (l : list TargetHost) x,
            hostPair x ∈ hostPair <$> l ↔ dedupKey x ∈ dedupKey <$> l).
  { intros l x. rewrite !list_elem_of_fmap.
    split; intros (y & Hy & Hin); exists y; (split; [|done]); by apply dedupKey_hostPair. }
  split; [|split].
  - pose proof (uniqueLoop_NoDup ∅ servers) as Hnd.
    fold (uniqueServers servers) in Hnd. revert Hnd.
    generalize (uniqueServers servers). intros l.
    induction l as [|x l IH]; [constructor|].
    rewrite !fmap_cons. intros [Hx Hl]%NoDup_cons.
    constructor; [by rewrite Hpairs|by apply IH].
  - intros s Hs. rewrite Hpairs.
    destruct (uniqueLoop_covers ∅ servers s Hs) as [H|H]; [set_solver|done].
  - intros a b. split; [apply dedupKey_same|]. split.
    + intros Hsame. apply dedupKey_same in Hsame.
      assert (Hab : uniqueServers [a; b] = [a]).
      { unfold uniqueServers. simpl.
        rewrite bool_decide_eq_false_2 by apply not_elem_of_empty.
        rewrite bool_decide_eq_true_2; [done|].
        rewrite <- Hsame, elem_of_union, elem_of_singleton. by left. }
      split; [done|]. rewrite env_check_document, Hab.
      unfold hostLines. simpl. by rewrite append_nil_r, !append_assoc.
    + intros Hne.
      assert (Hab : uniqueServers [a; b] = [a; b]).
      { unfold uniqueServers. simpl.
        rewrite bool_decide_eq_false_2 by apply not_elem_of_empty.
        rewrite bool_decide_eq_false_2; [done|].
        rewrite elem_of_union, elem_of_singleton.
        intros [Hin|Hin]; [|by apply not_elem_of_empty in Hin].
        symmetry in Hin. apply dedupKey_same in Hin as [Hh Hp].
        destruct Hne; congruence. }
      split; [done|]. rewrite env_check_document, Hab.
      unfold hostLines. simpl. by rewrite append_nil_r, !append_assoc.
Qed.

Definition hostA : TargetHost :=
  mkHost "10.0.0.5" None None None None None (Some "pw") None (Some "mysql") None.
Definition hostB : TargetHost :=
  mkHost "10.0.0.5" (Some 22%N) None None None None (Some "pw") None (Some "rabbitmq") None.

Lemma env_check_same_host_once_witness :
  uniqueServers [hostA; hostB] = [hostA]
  ∧ generateInventoryContent [hostA; hostB] "env-check"
    = "[all]" +:+ nl +:+ (formatServerLine hostA "server-0" +:+ nl)
      +:+ varsSection [hostA; hostB].
Proof.
  destruct (env_check_same_host_once [hostA; hostB]) as (_ & _ & _ & _ & _ & H).
  apply (H hostA hostB). by split.
Defined.

Lemma ensureInventoryDir_returns dir w :
  ∃ w0, ensureInventoryDir dir w = (Ret tt, w0) ∧ files w0 = files w.
Proof.
  unfold ensureInventoryDir, tryCatch.
  destruct (mkdir dir w) as [[[]|e] w0] eqn:E.
  - apply mkdir_ret in E as [(F & _) _]. by exists w0.
  - apply mkdir_throw in E as [(F & _) _]. eexists. split; [reflexivity|done].
Qed.

Lemma generateInventory_writes dir inventoryId servers playbookType w r w' :
  generateInventory dir inventoryId servers playbookType w = (Ret r, w') →
  r = (inventoryId, inventoryPathOf dir inventoryId)
  ∧ files w' !! inventoryPathOf dir inventoryId
    = Some (generateInventoryContent servers playbookType).
Proof.
  unfold generateInventory, bind.
  destruct (ensureInventoryDir_returns dir w) as (w0 & -> & _).
  destruct (writeSSHKeys servers w0) as [[[]|e] w1]; [|done].
  destruct (writeFile _ _ w1) as [[[]|e] w2] eqn:E; [|done].
  apply writeFile_ret in E as (-> & _ & _). intros [= <- <-]. split; [done|].
  simpl. apply lookup_insert_eq.
Qed.

(** C7.  The inventory builder is deterministic: whenever two invocations
    on the same host list and run kind return, they have written the same
    document text, whatever random identifiers name their files and
    whatever the file system held before; the text is a function of the
    host list and the run kind alone. *)
Theorem inventory_content_deterministic
    dir id1 id2 servers playbookType w1 w2 r1 r2 w1' w2' :
  generateInventory dir id1 servers playbookType w1 = (Ret r1, w1') →
  generateInventory dir id2 servers playbookType w2 = (Ret r2, w2') →
  ∃ doc,
    r1 = (id1, inventoryPathOf dir id1)
    ∧ r2 = (id2, inventoryPathOf dir id2)
    ∧ files w1' !! r1.2 = Some doc
    ∧ files w2' !! r2.2 = Some doc
    ∧ doc = generateInventoryContent servers playbookType.
Proof.
  intros H1 H2.
  apply generateInventory_writes in H1 as [-> H1].
  apply generateInventory_writes in H2 as [-> H2].
  by exists (generateInventoryContent servers playbookType).
Qed.

(** A host in use: other files, the inventory directory in place, a line
    on the console. *)
Definition usedWorld : World :=
  mkWorld {["/tmp/notes.txt" := "kept"]} {["/tmp"; "/srv/backend/.inventory"]} ∅
          ["Server running"].

Definition keyedHost : TargetHost :=
  mkHost "db.example.org" None (Some "deploy") (Some "sudo") (Some "key")
         (Some "-----BEGIN KEY-----") (Some "pw") None None (Some "deploy").

Definition onFresh : Outcome (string * string) * World :=
  generateInventory "/srv/backend/.inventory" "9f86d081884c7d65" [keyedHost; hostB]
    "mysql" freshWorld.

Definition onUsed : Outcome (string * string) * World :=
  generateInventory "/srv/backend/.inventory" "00c0ffee00c0ffee" [keyedHost; hostB]
    "mysql" usedWorld.

Lemma inventory_content_deterministic_witness :
  ∃ doc,
    onFresh.1 = Ret ("9f86d081884c7d65",
                     inventoryPathOf "/srv/backend/.inventory" "9f86d081884c7d65")
    ∧ onUsed.1 = Ret ("00c0ffee00c0ffee",
                      inventoryPathOf "/srv/backend/.inventory" "00c0ffee00c0ffee")
    ∧ files onFresh.2 !! inventoryPathOf "/srv/backend/.inventory" "9f86d081884c7d65"
      = Some doc
    ∧ files onUsed.2 !! inventoryPathOf "/srv/backend/.inventory" "00c0ffee00c0ffee"
      = Some doc
    ∧ doc = generateInventoryContent [keyedHost; hostB] "mysql".
Proof.
  destruct (inventory_content_deterministic "/srv/backend/.inventory"
              "9f86d081884c7d65" "00c0ffee00c0ffee" [keyedHost; hostB] "mysql"
              freshWorld usedWorld
              ("9f86d081884c7d65",
               inventoryPathOf "/srv/backend/.inventory" "9f86d081884c7d65")
              ("00c0ffee00c0ffee",
               inventoryPathOf "/srv/backend/.inventory" "00c0ffee00c0ffee")
              onFresh.2 onUsed.2)
    as (doc & _ & _ & H1 & H2 & Hdoc); [by vm_compute..|].
  exists doc. split; [by vm_compute|]. split; [by vm_compute|]. done.
Defined.

(** The loop of cleanupInventory over the key files. *)
Definition keyLoop (servers : list TargetHost) : M unit :=
  forOf servers (λ server,
       if usesKeyFile server
       then tryCatch (unlink (keyPath server)) (λ _, ret tt)
       else ret tt).

Lemma keyLoop_returns servers w :
  ∃ w', keyLoop servers w = (Ret tt, w')
        ∧ console w' = console w
        ∧ denied w' = denied w
        ∧ ∀ p, files w !! p = None → files w' !! p = None.
Proof.
  revert w. induction servers as [|s l IH]; intros w.
  { eexists. by split. }
  unfold keyLoop in *. rewrite forOf_cons.
  destruct (usesKeyFile s); [|apply IH].
  unfold tryCatch.
  destruct (unlink_cases (keyPath s) w) as [(-> & _ & _)|(e & -> & _)]; [|apply IH].
  destruct (IH (withFiles w (delete (keyPath s) (files w))))
    as (w' & Hw & Hc & Hd & Hf).
  exists w'. split; [done|]. split; [done|]. split; [done|].
  intros p Hp. apply Hf. simpl. rewrite lookup_delete_None. by right.
Qed.

Lemma cleanupInventory_unfold dir inventoryId servers :
  cleanupInventory dir inventoryId servers
  = tryCatch (unlink (inventoryPathOf dir inventoryId) ;; keyLoop servers)
             (λ error, consoleError "Error cleaning up inventory:" error).
Proof. reflexivity. Qed.

(** C8.  cleanupInventory never throws: it returns normally from any file
    system, and a second call for the same run, when the inventory file is
    gone, returns normally too, leaves the files as they are and logs the
    error it swallowed. *)
Theorem cleanupInventory_never_throws dir inventoryId servers w :
  ∃ w1 w2,
    cleanupInventory dir inventoryId servers w = (Ret tt, w1)
    ∧ cleanupInventory dir inventoryId servers w1 = (Ret tt, w2)
    ∧ files w2 = files w1
    ∧ ∃ e, console w2 = console w1 ++ ["Error cleaning up inventory: " +:+ e].
Proof.
  assert (Hgone : ∀ u,
    files u !! inventoryPathOf dir inventoryId = None
    ∨ inventoryPathOf dir inventoryId ∈ denied u →
    ∃ e, cleanupInventory dir inventoryId servers u
         = (Ret tt, withConsole u (console u ++ ["Error cleaning up inventory: " +:+ e]))).
  { intros u Hu. rewrite cleanupInventory_unfold. unfold tryCatch, bind.
    destruct (unlink_cases (inventoryPathOf dir inventoryId) u)
      as [(_ & [x Hx] & Hd)|(e & -> & _)].
    - destruct Hu as [Hu|Hu]; [congruence|done].
    - by exists e. }
  destruct (unlink_cases (inventoryPathOf dir inventoryId) w)
    as [(E & _ & _)|(e0 & E & Hw)].
  - destruct (keyLoop_returns servers
               (withFiles w (delete (inventoryPathOf dir inventoryId) (files w))))
      as (w1 & Hl & Hc & Hd & Hf).
    assert (H1 : cleanupInventory dir inventoryId servers w = (Ret tt, w1)).
    { rewrite cleanupInventory_unfold. unfold tryCatch, bind.
      rewrite E. by rewrite Hl. }
    destruct (Hgone w1) as [e He].
    { left. apply Hf. simpl. by rewrite lookup_delete_eq. }
    exists w1. eexists. split; [done|]. split; [done|]. split; [done|]. by exists e.
  - destruct (Hgone w Hw) as [e He].
    destruct (Hgone (withConsole w (console w ++ ["Error cleaning up inventory: " +:+ e])) Hw)
      as [e' He'].
    do 2 eexists. split; [done|]. split; [done|]. split; [done|]. by exists e'.
Qed.

End InventoryFacts.

(** *** The run of playbookService.js *)

Module PlaybookFacts.
Import PlaybookService StringFacts.

Section Run.
Variable JSON_parse : string -> ParsedJson.
Variable playbookType : string.
Variable subscribed : bool.

Local Abbreviation onLine := (onLine JSON_parse playbookType subscribed).
Local Abbreviation onStdout := (onStdout JSON_parse playbookType subscribed).
Local Abbreviation onStderr := (onStderr subscribed).
Local Abbreviation onClose := (onClose playbookType).
Local Abbreviation step := (step JSON_parse playbookType subscribed).
Local Abbreviation executePlaybook := (executePlaybook JSON_parse playbookType subscribed).

Lemma onLine_frame st line :
  stdout (onLine st line) = stdout st ∧ stderr (onLine st line) = stderr st
  ∧ settled (onLine st line) = settled st.
Proof.
  unfold PlaybookService.onLine.
  destruct (Js.nonEmpty (Js.trim line) && subscribed); [|done].
  by destruct (parseAnsibleOutput _ _ _ _ _) as [[ev|] c].
Qed.

Lemma lines_frame st lines :
  stdout (foldl onLine st lines) = stdout st
  ∧ stderr (foldl onLine st lines) = stderr st
  ∧ settled (foldl onLine st lines) = settled st.
Proof.
  revert st. induction lines as [|l ls IH]; intros st; [done|].
  simpl. destruct (IH (onLine st l)) as (-> & -> & ->). apply onLine_frame.
Qed.

Lemma onStdout_frame st text :
  stdout (onStdout st text) = stdout st +:+ text
  ∧ stderr (onStdout st text) = stderr st
  ∧ settled (onStdout st text) = settled st.
Proof.
  unfold PlaybookService.onStdout.
  by destruct (lines_frame
    (mkState (stdout st +:+ text) (stderr st) (currentTask st) (credentials st)
             (emitted st) (settled st)) (Js.split LF text)) as (-> & -> & ->).
Qed.

Lemma data_keeps_pending st evs :
  Forall isData evs → settled (foldl step st evs) = settled st.
Proof.
  intros H. revert st. induction H as [|ev evs Hev _ IH]; intros st; [done|].
  simpl. rewrite IH. destruct ev; try done.
  simpl. apply onStdout_frame.
Qed.

Lemma settled_once st evs s :
  settled st = Some s → settled (foldl step st evs) = Some s.
Proof.
  revert st. induction evs as [|ev evs IH]; intros st Hs; [done|].
  simpl. apply IH. destruct ev; simpl.
  - by rewrite (proj2 (proj2 (onStdout_frame st text))).
  - done.
  - unfold PlaybookService.onClose. destruct code as [[|[]|]|]; simpl; by rewrite Hs.
  - by rewrite Hs.
Qed.

Lemma run_snoc evs ev : executePlaybook (evs ++ [ev]) = step (executePlaybook evs) ev.
Proof. unfold PlaybookService.executePlaybook. by rewrite foldl_app. Qed.

Lemma initial_pending : settled (initial playbookType) = None.
Proof. done. Qed.

(** C1.  When the engine exits with a nonzero code after any output, the
    promise is rejected with success=false and that exit code, and the
    reason reads 'One or more tasks failed' for code 2, 'One or more hosts
    unreachable' for code 4 and 'Process exited with code N' for any other
    nonzero code N. *)
Theorem nonzero_exit_rejects_with_reason evs n :
  Forall isData evs → n ≠ 0%Z →
  ∃ r, settled (executePlaybook (evs ++ [Close (Exited n)])) = Some (Rejected r)
       ∧ Result.success r = false
       ∧ Result.exitCode r = Some (Exited n)
       ∧ (n = 2%Z → Result.error r = Some "One or more tasks failed")
       ∧ (n = 4%Z → Result.error r = Some "One or more hosts unreachable")
       ∧ (n ≠ 2%Z → n ≠ 4%Z →
          Result.error r = Some ("Process exited with code " +:+ Js.ofZ n)).
Proof.
  intros Hd Hn. rewrite run_snoc.
  pose proof (data_keeps_pending (initial playbookType) evs Hd) as Hp.
  rewrite initial_pending in Hp.
  change (foldl step (initial playbookType) evs) with (executePlaybook evs) in Hp.
  generalize dependent (executePlaybook evs). intros st Hp.
  change (step st (Close (Exited n))) with (onClose st (Exited n)).
  unfold PlaybookService.onClose, settle. rewrite Hp.
  destruct n as [|p|p]; [done| |].
  - eexists. split; [reflexivity|]. simpl. split; [done|]. split; [done|].
    split; [|split].
    + by intros [= ->].
    + by intros [= ->].
    + intros H2 H4. by destruct p as [[|[]|]|[|[|[]|]|]|].
  - eexists. split; [reflexivity|]. simpl. by repeat split.
Qed.


(** C3.  An exit with code 0 after any output resolves the promise with
    success=true and the output retained.  A failure to spawn the shell of
    the run, which reaches the run as the child's error event before any
    output, rejects it with success=false, empty stdout and stderr and, as
    error, the message of the runtime; the promise stays settled whatever
    events follow.  A shell that cannot find the engine exits with code 127
    after its complaint: that run is rejected by the close event, with
    success=false, the exit code, the reason 'Process exited with code 127'
    and the output retained, stderr included. *)
Theorem exit_zero_resolves_spawn_failure_rejects evs message rest :
  Forall isData evs →
  (∃ r, settled (executePlaybook (evs ++ [Close (Exited 0)])) = Some (Resolved r)
        ∧ Result.success r = true
        ∧ Result.stdout r = stdout (executePlaybook evs)
        ∧ Result.stderr r = stderr (executePlaybook evs))
  ∧ (∃ r, settled (executePlaybook (SpawnError message :: rest)) = Some (Rejected r)
        ∧ Result.success r = false
        ∧ Result.stdout r = "" ∧ Result.stderr r = ""
        ∧ Result.error r = Some message)
  ∧ (∃ r, settled (executePlaybook (evs ++ [Close (Exited 127)])) = Some (Rejected r)
        ∧ Result.success r = false
        ∧ Result.exitCode r = Some (Exited 127)
        ∧ Result.error r = Some "Process exited with code 127"
        ∧ Result.stdout r = stdout (executePlaybook evs)
        ∧ Result.stderr r = stderr (executePlaybook evs)).
Proof.
  intros Hd.
  pose proof (data_keeps_pending (initial playbookType) evs Hd) as Hp.
  rewrite initial_pending in Hp.
  change (foldl step (initial playbookType) evs) with (executePlaybook evs) in Hp.
  split; [|split].
  - rewrite run_snoc.
    generalize dependent (executePlaybook evs). intros st Hp.
    change (step st (Close (Exited 0))) with (onClose st (Exited 0)).
    unfold PlaybookService.onClose, settle. rewrite Hp.
    eexists. split; [reflexivity|]. done.
  - unfold PlaybookService.executePlaybook. simpl.
    erewrite settled_once; [|reflexivity].
    eexists. split; [reflexivity|]. simpl. done.
  - rewrite run_snoc.
    generalize dependent (executePlaybook evs). intros st Hp.
    change (step st (Close (Exited 127))) with (onClose st (Exited 127)).
    unfold PlaybookService.onClose, settle. rewrite Hp.
    eexists. split; [reflexivity|]. done.
Qed.

Lemma unsubscribed_line st line :
  subscribed = false → onLine st line = st.
Proof.
  intros Hs. unfold PlaybookService.onLine. by rewrite Hs, andb_false_r.
Qed.

Lemma unsubscribed_lines st lines :
  subscribed = false → foldl onLine st lines = st.
Proof.
  intros Hs. induction lines as [|l ls IH] in st |- *; [done|].
  simpl. by rewrite unsubscribed_line, IH.
Qed.

Lemma unsubscribed_parses_nothing st evs :
  subscribed = false → Forall isData evs →
  credentials (foldl step st evs) = credentials st.
Proof.
  intros Hs H. revert st. induction H as [|ev evs Hev _ IH]; intros st; [done|].
  simpl. rewrite IH. destruct ev; try done. simpl.
  unfold PlaybookService.onStdout. by rewrite unsubscribed_lines.
Qed.

(** C6.  For a run of mysql or mongodb, whatever the output and whatever
    the exit code, success or failure, the credentials of the final result
    have an entry for the service with a path: the path the parser recorded,
    if it recorded one, and the default path of the service otherwise; in
    particular the default path when nothing at all was parsed. *)
Theorem known_service_default_path evs code :
  Forall isData evs → playbookType = "mysql" ∨ playbookType = "mongodb" →
  ∃ s creds entry p,
    settled (executePlaybook (evs ++ [Close code])) = Some s
    ∧ Result.credentials (resultOf s) = Some creds
    ∧ creds !! playbookType = Some entry
    ∧ defaultPath playbookType = Some p
    ∧ entry !! "path"
      = Some (default p (credentials (executePlaybook evs) !! playbookType ≫= (.!! "path")))
    ∧ (subscribed = false → entry !! "path" = Some p).
Proof.
  intros Hd Hpt. rewrite run_snoc.
  pose proof (data_keeps_pending (initial playbookType) evs Hd) as Hp.
  rewrite initial_pending in Hp.
  change (foldl step (initial playbookType) evs) with (executePlaybook evs) in Hp.
  assert (Hu : subscribed = false →
               credentials (executePlaybook evs) = credentials (initial playbookType)).
  { intros Hs. by apply unsubscribed_parses_nothing. }
  generalize dependent (executePlaybook evs). intros st Hp Hu.
  change (step st (Close code)) with (onClose st code).
  assert (Hd' : ∃ p, PlaybookService.currentService playbookType = Some playbookType
                ∧ defaultsOf (PlaybookService.currentService playbookType)
                  = Some {["path" := p]}
                ∧ defaultPath playbookType = Some p
                ∧ credentials (initial playbookType) !! playbookType = Some {["path" := p]}).
  { destruct Hpt as [-> | ->]; eexists; repeat split; reflexivity. }
  destruct Hd' as (p & Hcs & Hdef & Hdp & Hinit).
  set (creds' := <[playbookType := spreadOver {["path" := p]} (credentials st !! playbookType)]>
                   (credentials st)).
  assert (Hent : spreadOver {["path" := p]} (credentials st !! playbookType) !! "path"
                 = Some (default p (credentials st !! playbookType ≫= (.!! "path")))).
  { unfold spreadOver. destruct (credentials st !! playbookType) as [e|]; simpl.
    - destruct (e !! "path") as [q|] eqn:Eq; simpl.
      + by rewrite (lookup_union_Some_l _ _ _ q).
      + rewrite lookup_union_r by done. by rewrite lookup_singleton_eq.
    - rewrite lookup_union_r by done. by rewrite lookup_singleton_eq. }
  assert (Hs : ∃ s, settled (onClose st code) = Some s
                    ∧ Result.credentials (resultOf s) = Some creds').
  { unfold PlaybookService.onClose, settle. rewrite Hp, Hdef, Hcs. fold creds'.
    destruct code as [[| |]|]; eexists; (split; [reflexivity|done]). }
  destruct Hs as (s & Hs1 & Hs2).
  exists s, creds', (spreadOver {["path" := p]} (credentials st !! playbookType)), p.
  split; [done|]. split; [done|]. split; [apply lookup_insert_eq|].
  split; [done|]. split; [done|].
  intros Hsub. rewrite Hent, (Hu Hsub), Hinit. simpl. by rewrite lookup_singleton_eq.
Qed.


(** The state with another retained output. *)
Definition withStdout (out : string) (st : State) : State :=
  mkState out (stderr st) (currentTask st) (credentials st) (emitted st) (settled st).

Lemma onLine_withStdout out st line :
  onLine (withStdout out st) line = withStdout out (onLine st line).
Proof.
  unfold PlaybookService.onLine. simpl.
  destruct (Js.nonEmpty (Js.trim line) && subscribed); [|done].
  by destruct (parseAnsibleOutput _ _ _ _ _) as [[ev|] c].
Qed.

Lemma lines_withStdout out st lines :
  foldl onLine (withStdout out st) lines = withStdout out (foldl onLine st lines).
Proof.
  induction lines as [|l ls IH] in st |- *; [done|].
  simpl. by rewrite onLine_withStdout, IH.
Qed.

Lemma onStdout_lines st text :
  onStdout st text
  = withStdout (stdout st +:+ text) (foldl onLine st (Js.split LF text)).
Proof. unfold PlaybookService.onStdout. by rewrite <- lines_withStdout. Qed.

Lemma onLine_blank st : onLine st "" = st.
Proof. done. Qed.

(** A chunk boundary right after a newline changes nothing. *)
Lemma newline_cut_is_invisible st a b :
  onStdout (onStdout st (a +:+ nl)) b = onStdout st ((a +:+ nl) +:+ b).
Proof.
  rewrite !onStdout_lines. rewrite append_assoc. unfold nl.
  rewrite append_cons, append_nil_l, !split_glue_sep.
  rewrite !foldl_app. simpl. rewrite onLine_blank.
  rewrite lines_withStdout. unfold withStdout. simpl.
  by rewrite !append_assoc.
Qed.

(** C2, amended.  The handler of stdout splits each chunk on newlines on
    its own and holds nothing over.  When every chunk but the last ends with
    a newline, feeding the chunks one by one leaves the run in the same
    state, with the same events in the same order, as feeding their
    concatenation as one chunk. *)
Theorem chunks_cut_at_newlines st (ls : list string) (final : string) :
  foldl onStdout st (((λ a, a +:+ nl) <$> ls) ++ [final])
  = onStdout st (Js.concat ((λ a, a +:+ nl) <$> ls) +:+ final).
Proof.
  induction ls as [|a ls IH] in st |- *; [done|].
  rewrite fmap_cons. simpl. rewrite IH, newline_cut_is_invisible.
  unfold Js.concat. simpl. by rewrite !append_assoc.
Qed.

End Run.

Lemma nonzero_exit_rejects_with_reason_witness :
  ∃ r, settled (executePlaybook noJson "mysql" true
                  ([StdoutData ("TASK [install]" +:+ nl)] ++ [Close (Exited 4)]))
       = Some (Rejected r)
       ∧ Result.success r = false
       ∧ Result.exitCode r = Some (Exited 4)
       ∧ (4 = 2 → Result.error r = Some "One or more tasks failed")%Z
       ∧ (4 = 4 → Result.error r = Some "One or more hosts unreachable")%Z
       ∧ (4 ≠ 2 → 4 ≠ 4 →
          Result.error r = Some ("Process exited with code " +:+ Js.ofZ 4))%Z.
Proof.
  apply (nonzero_exit_rejects_with_reason noJson "mysql" true
           [StdoutData ("TASK [install]" +:+ nl)] 4).
  - repeat constructor.
  - discriminate.
Defined.

(** The events of a run on a host where the engine is not installed: the
    shell reports it on stderr and exits with code 127. *)
Definition engineMissing : list ChildEvent :=
  [StderrData ("/bin/sh: 1: ansible-playbook: not found" +:+ nl)].

Lemma exit_zero_resolves_spawn_failure_rejects_witness :
  (∃ r, settled (executePlaybook noJson "nfs" true
                   ([StdoutData ("PLAY [all]" +:+ nl)] ++ [Close (Exited 0)]))
        = Some (Resolved r)
        ∧ Result.success r = true
        ∧ Result.stdout r
          = stdout (executePlaybook noJson "nfs" true [StdoutData ("PLAY [all]" +:+ nl)])
        ∧ Result.stderr r
          = stderr (executePlaybook noJson "nfs" true [StdoutData ("PLAY [all]" +:+ nl)]))
  ∧ (∃ r, settled (executePlaybook noJson "nfs" true
                     (SpawnError "spawn /bin/sh ENOENT" :: [Close (Exited (-2))]))
          = Some (Rejected r)
        ∧ Result.success r = false
        ∧ Result.stdout r = "" ∧ Result.stderr r = ""
        ∧ Result.error r = Some "spawn /bin/sh ENOENT")
  ∧ (∃ r, settled (executePlaybook noJson "nfs" true
                     ([StdoutData ("PLAY [all]" +:+ nl)] ++ [Close (Exited 127)]))
          = Some (Rejected r)
        ∧ Result.success r = false
        ∧ Result.exitCode r = Some (Exited 127)
        ∧ Result.error r = Some "Process exited with code 127"
        ∧ Result.stdout r
          = stdout (executePlaybook noJson "nfs" true [StdoutData ("PLAY [all]" +:+ nl)])
        ∧ Result.stderr r
          = stderr (executePlaybook noJson "nfs" true [StdoutData ("PLAY [all]" +:+ nl)])).
Proof.
  apply (exit_zero_resolves_spawn_failure_rejects noJson "nfs" true
           [StdoutData ("PLAY [all]" +:+ nl)] "spawn /bin/sh ENOENT" [Close (Exited (-2))]).
  repeat constructor.
Defined.

(** C3 as stated fails for a missing engine binary.  What the run spawns is
    the shell, which starts; the engine it cannot find makes it exit with
    code 127, and the result of the run holds the shell's complaint as
    stderr: it is not the result with empty stdout and stderr that the
    claim describes. *)
Lemma missing_engine_is_no_spawn_failure :
  (CommandLine.spawned false "ansible-playbook -i hosts.ini playbook.yml").1 = "/bin/sh"
  ∧ (∃ r, settled (executePlaybook noJson "mysql" false
                     (engineMissing ++ [Close (Exited 127)]))
          = Some (Rejected r)
          ∧ Result.success r = false
          ∧ Result.exitCode r = Some (Exited 127)
          ∧ Result.stderr r = "/bin/sh: 1: ansible-playbook: not found" +:+ nl)
  ∧ ¬ (∃ r, settled (executePlaybook noJson "mysql" false
                       (engineMissing ++ [Close (Exited 127)]))
            = Some (Rejected r)
            ∧ Result.success r = false
            ∧ Result.stdout r = "" ∧ Result.stderr r = ""
            ∧ ∃ e, Result.error r = Some e ∧ e ≠ "").
Proof.
  split; [reflexivity|]. split.
  - eexists. split; [vm_compute; reflexivity|]. by vm_compute.
  - intros (r & Hr & _ & _ & He & _). vm_compute in Hr.
    injection Hr as <-. vm_compute in He. discriminate.
Qed.

Lemma known_service_default_path_witness :
  ∃ s creds entry p,
    settled (executePlaybook noJson "mongodb" false
               ([StdoutData ("TASK [replica set]" +:+ nl); StderrData "fatal"]
                ++ [Close (Exited 1)])) = Some s
    ∧ Result.credentials (resultOf s) = Some creds
    ∧ creds !! "mongodb" = Some entry
    ∧ defaultPath "mongodb" = Some p
    ∧ entry !! "path"
      = Some (default p
                (credentials (executePlaybook noJson "mongodb" false
                                [StdoutData ("TASK [replica set]" +:+ nl); StderrData "fatal"])
                 !! "mongodb" ≫= (.!! "path")))
    ∧ (false = false → entry !! "path" = Some p).
Proof.
  apply (known_service_default_path noJson "mongodb" false
           [StdoutData ("TASK [replica set]" +:+ nl); StderrData "fatal"] (Exited 1)).
  - repeat constructor.
  - by right.
Defined.

(** C2, as stated, fails: a task line cut inside its marker yields no
    event, where the same line in one chunk yields the task event. *)
Lemma chunk_split_changes_events :
  "TA" +:+ ("SK [a]" +:+ nl) = "TASK [a]" +:+ nl
  ∧ emitted (executePlaybook noJson "nfs" true
               [StdoutData "TA"; StdoutData ("SK [a]" +:+ nl)]) = []
  ∧ emitted (executePlaybook noJson "nfs" true
               [StdoutData ("TASK [a]" +:+ nl)]) = [Task "a" "TASK [a]"]
  ∧ emitted (executePlaybook noJson "nfs" true
               [StdoutData "TA"; StdoutData ("SK [a]" +:+ nl)])
    ≠ emitted (executePlaybook noJson "nfs" true
               [StdoutData ("TASK [a]" +:+ nl)]).
Proof. repeat split; [vm_compute; reflexivity..|]. vm_compute. discriminate. Qed.
End PlaybookFacts.

(** *** The parser of credentials *)

Module MarkerFacts.
Import PlaybookService StringFacts TokenFacts.

Lemma structured_marker_steps service_name k v service credentials :
  token ["|"; LF]%char service_name →
  token ["|"; "="; LF]%char k → token ["|"; "="; LF]%char v →
  parseCredentials ("CREDENTIALS|" +:+ service_name +:+ "|" +:+ k +:+ "=" +:+ v)
                   service credentials
  = setField (Js.toLowerCase service_name) k v
      (ensureEntry (Js.toLowerCase service_name) credentials).
Proof.
  intros (Hs1 & Hs2 & Hs3) Hk Hv.
  pose proof Hk as (Hk1 & Hk2 & Hk3). pose proof Hv as (Hv1 & Hv2 & Hv3).
  set (line := "CREDENTIALS|" +:+ service_name +:+ "|" +:+ k +:+ "=" +:+ v).
  assert (Hlf : avoids [LF] line = true).
  { unfold line. rewrite !avoids_append.
    replace (avoids [LF] service_name) with true by (symmetry; fewer_stops Hs2).
    replace (avoids [LF] k) with true by (symmetry; fewer_stops Hk2).
    by replace (avoids [LF] v) with true by (symmetry; fewer_stops Hv2). }
  assert (Htrim : Js.trim line = line).
  { unfold Js.trim. replace (Js.trimStart line) with line by done.
    unfold line. rewrite <- !append_assoc. apply trimEnd_append; [|done].
    by apply trim_fixed. }
  unfold parseCredentials. rewrite split_whole by done. simpl.
  unfold parseCredentialLine. rewrite Htrim.
  replace (Js.startsWith "CREDENTIALS|" line) with true
    by (symmetry; apply startsWith_append).
  replace (Js.split "|" line)
    with ["CREDENTIALS"; service_name; k +:+ "=" +:+ v].
  2:{ unfold line.
      change ("CREDENTIALS|" +:+ service_name +:+ "|" +:+ k +:+ "=" +:+ v)
        with ("CREDENTIALS" +:+ String "|" (service_name +:+ String "|" (k +:+ "=" +:+ v))).
      rewrite !split_glue_sep.
      rewrite (split_whole "|" service_name) by fewer_stops Hs2.
      rewrite (split_whole "|" (k +:+ "=" +:+ v)); [done|].
      rewrite !avoids_append.
      replace (avoids ["|"%char] k) with true by (symmetry; fewer_stops Hk2).
      by replace (avoids ["|"%char] v) with true by (symmetry; fewer_stops Hv2). }
  rewrite toLowerCase_nonEmpty by done. simpl.
  by rewrite keyValue_pair by done.
Qed.

Lemma structured_marker_line service_name k v service credentials :
  token ["|"; LF]%char service_name →
  token ["|"; "="; LF]%char k → token ["|"; "="; LF]%char v →
  Js.toLowerCase service_name ∉ Js.inherited → k ≠ "__proto__" →
  parseCredentials ("CREDENTIALS|" +:+ service_name +:+ "|" +:+ k +:+ "=" +:+ v)
                   service credentials
  = <[Js.toLowerCase service_name :=
        <[k := v]> (default ∅ (credentials !! Js.toLowerCase service_name))]> credentials.
Proof.
  intros Hs Hk Hv Hown Hkey. rewrite structured_marker_steps by done.
  by apply setField_ensureEntry.
Qed.

(** Under an inherited name, or with the key of the prototype, a marker
    records nothing. *)
Lemma structured_marker_unrecorded service_name k v service (credentials : CredentialSet) :
  token ["|"; LF]%char service_name →
  token ["|"; "="; LF]%char k → token ["|"; "="; LF]%char v →
  (Js.toLowerCase service_name ∈ Js.inherited
   ∧ credentials !! Js.toLowerCase service_name = None)
  ∨ (k = "__proto__" ∧ is_Some (credentials !! Js.toLowerCase service_name)) →
  parseCredentials ("CREDENTIALS|" +:+ service_name +:+ "|" +:+ k +:+ "=" +:+ v)
                   service credentials
  = credentials.
Proof.
  intros Hs Hk Hv Hcase. rewrite structured_marker_steps by done.
  unfold setField, ensureEntry. destruct Hcase as [[Hin Hnone]|[-> [e He]]].
  - rewrite get_inherited by done. by rewrite Hnone.
  - rewrite (get_own _ _ _ He), He. unfold Js.assign. simpl.
    by rewrite insert_id.
Qed.


Lemma isLineTerminator_stops c :
  Js.isLineTerminator c = bool_decide (c ∈ [LF; "013"%char]).
Proof. by destruct c as [[] [] [] [] [] [] [] []]. Qed.

Lemma noLineTerminator_avoids s :
  avoids [LF; "013"%char] s = true → Regex.noLineTerminator s = true.
Proof.
  induction s as [|c s IH]; [done|]. simpl.
  intros [Hc Hs]%andb_true_iff. by rewrite isLineTerminator_stops, Hc, IH.
Qed.

Lemma labelled_hit lit value :
  token [LF; "013"%char] value →
  Regex.labelled lit (lit +:+ " " +:+ value) = Some value.
Proof.
  intros (Hv1 & Hv2 & Hv3). unfold Regex.labelled.
  rewrite startsWithI_append, drop_append.
  change (Regex.skipWs (" " +:+ value)) with (Regex.skipWs value).
  rewrite trimStart_fixed by (by apply trim_fixed).
  destruct value as [|c v']; [done|].
  by rewrite noLineTerminator_avoids.
Qed.

Lemma human_readable_line lit svc key value service credentials :
  (lit, svc, key) ∈ credentialLabels → token [LF; "013"%char] value →
  parseCredentials (lit +:+ " " +:+ value) service credentials
  = <[svc := <[key := value]> (default ∅ (credentials !! svc))]> credentials.
Proof.
  intros Hin Hv. pose proof Hv as (Hv1 & Hv2 & Hv3).
  pose proof (labelled_hit lit value Hv) as Hhit.
  assert (HvLF : avoids [LF] value = true) by fewer_stops Hv2.
  assert (Hend : Js.trimEnd value = value) by (by apply trim_fixed).
  unfold credentialLabels in Hin.
  repeat (apply elem_of_cons in Hin; destruct Hin as [[= -> -> ->]|Hin]);
    [..|by apply elem_of_nil in Hin];
    (unfold parseCredentials;
     rewrite split_whole by (by rewrite !avoids_append, HvLF);
     simpl; unfold parseCredentialLine;
     match goal with
     | |- context [Js.trim ?l] =>
         replace (Js.trim l) with l
           by (symmetry; unfold Js.trim;
               match goal with
               | |- context [Js.trimStart ?t] => replace (Js.trimStart t) with t by done
               end;
               rewrite <- !append_assoc; by apply trimEnd_append)
     end;
     match goal with
     | |- context [Js.startsWith "CREDENTIALS|" ?l] =>
         replace (Js.startsWith "CREDENTIALS|" l) with false by done
     end;
     unfold credentialLabels, firstLabel; rewrite Hhit, Hv3;
     apply setField_ensureEntry; [unfold Js.inherited; not_listed|discriminate]).
Qed.

End MarkerFacts.

(** *** Service names stay in lower case *)

Module CredentialFacts.
Import PlaybookService CaseFacts.

Lemma lowerKeys_segments svc segments credentials :
  lowerKeys credentials →
  lowerKeys (foldl (λ creds segment,
                      match keyValue segment with
                      | Some (k, v) => setField svc k v creds
                      | None => creds
                      end) credentials segments).
Proof.
  induction segments as [|seg segs IH] in credentials |- *; intros Hc; [done|].
  simpl. apply IH. destruct (keyValue seg) as [[k v]|]; [|done].
  by apply lowerKeys_setField.
Qed.

Lemma lowerKeys_parseCredentialLine credentials line :
  lowerKeys credentials → lowerKeys (parseCredentialLine credentials line).
Proof.
  intros Hc. unfold parseCredentialLine.
  destruct (Js.startsWith "CREDENTIALS|" (Js.trim line)).
  - destruct (Js.split "|" (Js.trim line)) as [|p0 [|part1 segments]]; [done..|].
    destruct (Js.nonEmpty (Js.toLowerCase part1)); [|done].
    apply lowerKeys_segments, lowerKeys_ensureEntry; [|done].
    apply toLowerCase_idem.
  - destruct (firstLabel credentialLabels (Js.trim line)) as [[[svc key] value]|] eqn:E; [|done].
    apply lowerKeys_setField, lowerKeys_ensureEntry; [|done].
    eapply firstLabel_lower; [apply credentialLabels_lower|done].
Qed.

Lemma lowerKeys_parseCredentials text service credentials :
  lowerKeys credentials → lowerKeys (parseCredentials text service credentials).
Proof.
  unfold parseCredentials.
  induction (Js.split LF text) as [|l ls IH] in credentials |- *; intros Hc; [done|].
  simpl. by apply IH, lowerKeys_parseCredentialLine.
Qed.

Section Run.
Variable JSON_parse : string -> ParsedJson.
Variable playbookType : string.
Variable subscribed : bool.

Local Abbreviation onLine := (onLine JSON_parse playbookType subscribed).
Local Abbreviation step := (step JSON_parse playbookType subscribed).
Local Abbreviation executePlaybook := (executePlaybook JSON_parse playbookType subscribed).

Lemma lowerKeys_parseAnsibleOutput line task credentials service :
  lowerKeys credentials →
  lowerKeys (parseAnsibleOutput JSON_parse line task credentials service).2.
Proof.
  intros Hc. unfold parseAnsibleOutput.
  destruct (Regex.taskResult line) as [[[status host] message]|].
  - cbv zeta. cbn [snd].
    set (msg := if Js.startsWith "=>" (Js.trim message)
                then Regex.skipWs (Js.drop 2 (Js.trim message)) else Js.trim message).
    destruct (Js.startsWith "{" msg); [|by apply lowerKeys_parseCredentials].
    destruct (JSON_parse msg) as [|msgs| |]; try by apply lowerKeys_parseCredentials.
    pose proof (lowerKeys_parseCredentials msg service credentials Hc) as Hc1.
    generalize dependent (parseCredentials msg service credentials).
    intros c1 Hc1. induction msgs as [|m ms IH] in c1, Hc1 |- *; [done|].
    simpl. by apply IH, lowerKeys_parseCredentials.
  - destruct (Regex.taskName line); [done|].
    destruct (Regex.playName line); [done|].
    by destruct (Regex.summary line) as [[]|].
Qed.

(** What the invariant says of a state: the credentials in hand, and those
    of the settlement once there is one. *)
Definition lowerState (st : State) : Prop :=
  lowerKeys (credentials st)
  ∧ ∀ s c, settled st = Some s → Result.credentials (resultOf s) = Some c → lowerKeys c.

Lemma lowerState_onLine st line : lowerState st → lowerState (onLine st line).
Proof.
  intros [Hc Hs]. unfold PlaybookService.onLine.
  destruct (Js.nonEmpty (Js.trim line) && subscribed); [|done].
  pose proof (lowerKeys_parseAnsibleOutput line (currentTask st) (credentials st)
                (currentService playbookType) Hc) as Hp.
  destruct (parseAnsibleOutput _ _ _ _ _) as [[ev|] c]; by split.
Qed.

Lemma currentService_lower svc :
  currentService playbookType = Some svc → Js.toLowerCase svc = svc.
Proof.
  unfold currentService, currentServiceOf. case_bool_decide as H; [|done].
  intros [= <-]. repeat (apply elem_of_cons in H; destruct H as [->|H]; [done|]).
  by apply elem_of_nil in H.
Qed.

Lemma lowerState_step st ev : lowerState st → lowerState (step st ev).
Proof.
  intros Hst. destruct ev as [text|text|code|message]; simpl.
  - unfold PlaybookService.onStdout.
    assert (H0 : lowerState (mkState (stdout st +:+ text) (stderr st) (currentTask st)
                     (credentials st) (emitted st) (settled st))) by done.
    generalize dependent (mkState (stdout st +:+ text) (stderr st) (currentTask st)
                     (credentials st) (emitted st) (settled st)).
    intros s0 H0. induction (Js.split LF text) as [|l ls IH] in s0, H0 |- *; [done|].
    simpl. by apply IH, lowerState_onLine.
  - done.
  - destruct Hst as [Hc Hs].
    assert (Hc' : lowerKeys
      match currentService playbookType, defaultsOf (currentService playbookType) with
      | Some svc, Some d => <[svc := spreadOver d (credentials st !! svc)]> (credentials st)
      | _, _ => credentials st
      end).
    { destruct (currentService playbookType) as [svc|] eqn:E; [|done].
      destruct (defaultsOf (Some svc)); [|done].
      apply lowerKeys_insert; [|done]. by apply currentService_lower. }
    unfold PlaybookService.onClose, settle.
    destruct (settled st) as [s0|] eqn:Es.
    + destruct code as [[| |]|]; (split; [done|]); simpl; intros s c [= <-]; by apply Hs.
    + destruct code as [[| |]|]; (split; [done|]); simpl; by intros s c [= <-] [= <-].
  - destruct Hst as [Hc Hs]. unfold onError, settle. split; [done|]. simpl.
    destruct (settled st) as [s0|] eqn:Es; intros s c [= <-]; [by apply Hs|done].
Qed.

Lemma lowerState_initial : lowerState (initial playbookType).
Proof.
  split; [|done]. unfold initial. simpl.
  destruct (currentService playbookType) as [svc|] eqn:E; [|apply lowerKeys_empty].
  destruct (defaultsOf (Some svc)); [|apply lowerKeys_empty].
  apply lowerKeys_insert; [by apply currentService_lower|apply lowerKeys_empty].
Qed.

Lemma lowerState_run evs : lowerState (executePlaybook evs).
Proof.
  unfold PlaybookService.executePlaybook.
  generalize lowerState_initial. generalize (initial playbookType).
  induction evs as [|ev evs IH]; intros st Hst; [done|].
  simpl. by apply IH, lowerState_step.
Qed.

End Run.

(** C9.  Every service name of the credentials of a run is in lower case,
    in the set the handlers hold and in the result the promise is settled
    with.  A marker line CREDENTIALS|name|k=v, for a service name that in
    lower case is no name inherited from Object.prototype and a key other
    than __proto__, records k and v under the lower-case form of name,
    whatever the letter case of name; a fixed human-readable line records
    its value under the lower-case service of its label, so both write to
    the same entry when the names agree up to case.  Under an inherited
    name that the credentials do not hold, a marker records nothing there,
    so the names held stay in lower case. *)
Theorem service_names_in_lower_case JSON_parse playbookType subscribed evs
    name k v lit svc key value service (creds : CredentialSet) :
  token ["|"; LF]%char name →
  token ["|"; "="; LF]%char k → token ["|"; "="; LF]%char v →
  (lit, svc, key) ∈ credentialLabels → token [LF; "013"%char] value →
  Js.toLowerCase name ∉ Js.inherited → k ≠ "__proto__" →
  lowerKeys (credentials (executePlaybook JSON_parse playbookType subscribed evs))
  ∧ (∀ s c, settled (executePlaybook JSON_parse playbookType subscribed evs) = Some s →
            Result.credentials (resultOf s) = Some c → lowerKeys c)
  ∧ parseCredentials ("CREDENTIALS|" +:+ name +:+ "|" +:+ k +:+ "=" +:+ v) service creds
    = <[Js.toLowerCase name := <[k := v]> (default ∅ (creds !! Js.toLowerCase name))]> creds
  ∧ parseCredentials (lit +:+ " " +:+ value) service creds
    = <[svc := <[key := value]> (default ∅ (creds !! svc))]> creds
  ∧ Js.toLowerCase svc = svc
  ∧ (∀ name', token ["|"; LF]%char name' →
       Js.toLowerCase name' ∈ Js.inherited → creds !! Js.toLowerCase name' = None →
       parseCredentials ("CREDENTIALS|" +:+ name' +:+ "|" +:+ k +:+ "=" +:+ v) service creds
       = creds).
Proof.
  intros Hname Hk Hv Hlit Hvalue Hown Hkey.
  destruct (lowerState_run JSON_parse playbookType subscribed evs) as [H1 H2].
  split; [done|]. split; [done|].
  split; [by apply MarkerFacts.structured_marker_line|].
  split; [by apply MarkerFacts.human_readable_line|].
  split.
  - pose proof credentialLabels_lower as Hall.
    rewrite Forall_forall in Hall. by apply (Hall _ Hlit).
  - intros name' Hname' Hin Hnone.
    apply MarkerFacts.structured_marker_unrecorded; [done..|]. by left.
Qed.

Lemma service_names_in_lower_case_witness :
  let evs := [StdoutData ("ok: [db1] => CREDENTIALS|MySQL|username=root" +:+ nl);
              Close (Exited 0)] in
  lowerKeys (credentials (executePlaybook noJson "mysql" true evs))
  ∧ (∀ s c, settled (executePlaybook noJson "mysql" true evs) = Some s →
            Result.credentials (resultOf s) = Some c → lowerKeys c)
  ∧ parseCredentials ("CREDENTIALS|" +:+ "MySQL" +:+ "|" +:+ "username" +:+ "=" +:+ "root")
                     (Some "mysql") ∅
    = <[Js.toLowerCase "MySQL" :=
          <["username" := "root"]> (default ∅ ((∅ : CredentialSet) !! Js.toLowerCase "MySQL"))]> ∅
  ∧ parseCredentials ("MySQL user:" +:+ " " +:+ "root") (Some "mysql") ∅
    = <["mysql" := <["username" := "root"]> (default ∅ ((∅ : CredentialSet) !! "mysql"))]> ∅
  ∧ Js.toLowerCase "mysql" = "mysql"
  ∧ (∀ name', token ["|"; LF]%char name' →
       Js.toLowerCase name' ∈ Js.inherited →
       (∅ : CredentialSet) !! Js.toLowerCase name' = None →
       parseCredentials ("CREDENTIALS|" +:+ name' +:+ "|" +:+ "username" +:+ "=" +:+ "root")
                        (Some "mysql") ∅
       = ∅).
Proof.
  apply (service_names_in_lower_case noJson "mysql" true
           [StdoutData ("ok: [db1] => CREDENTIALS|MySQL|username=root" +:+ nl);
            Close (Exited 0)]
           "MySQL" "username" "root" "MySQL user:" "mysql" "username" "root"
           (Some "mysql") ∅).
  - repeat split; [discriminate|vm_compute; reflexivity..].
  - repeat split; [discriminate|vm_compute; reflexivity..].
  - repeat split; [discriminate|vm_compute; reflexivity..].
  - apply list_elem_of_here.
  - repeat split; [discriminate|vm_compute; reflexivity..].
  - unfold Js.inherited. TokenFacts.not_listed.
  - discriminate.
Defined.

End CredentialFacts.

(** *** The run of api-server.js: the fallback scan *)

Module ApiServerFacts.
Import ApiServer StringFacts TokenFacts ScanFacts CaseFacts.









Section Run.
Variable JSON_parse : string -> ParsedJson.
Variable playbookType : string.
Variable subscribed : bool.

Local Abbreviation onLine := (onLine JSON_parse playbookType subscribed).
Local Abbreviation onStdout := (onStdout JSON_parse playbookType subscribed).
Local Abbreviation onClose := (onClose playbookType).
Local Abbreviation step := (step JSON_parse playbookType subscribed).
Local Abbreviation executePlaybook := (executePlaybook JSON_parse playbookType subscribed).

Lemma api_onLine_frame st line :
  stdout (onLine st line) = stdout st ∧ settled (onLine st line) = settled st.
Proof.
  unfold ApiServer.onLine.
  destruct (Js.nonEmpty (Js.trim line) && subscribed); [|done].
  by destruct (parseAnsibleOutput _ _ _ _ _) as [[ev task] c].
Qed.

Lemma api_lines_frame st lines :
  stdout (foldl onLine st lines) = stdout st
  ∧ settled (foldl onLine st lines) = settled st.
Proof.
  induction lines as [|l ls IH] in st |- *; [done|].
  simpl. destruct (IH (onLine st l)) as (-> & ->). apply api_onLine_frame.
Qed.

Lemma api_onStdout_frame st text :
  stdout (onStdout st text) = stdout st +:+ text
  ∧ settled (onStdout st text) = settled st.
Proof.
  unfold ApiServer.onStdout.
  by destruct (api_lines_frame
    (mkState (stdout st +:+ text) (stderr st) (currentTask st) (credentials st)
             (emitted st) (settled st)) (Js.split LF text)) as (-> & ->).
Qed.

Lemma api_data_frame st evs :
  Forall isData evs →
  stdout (foldl step st evs) = stdout st +:+ stdoutText evs
  ∧ settled (foldl step st evs) = settled st.
Proof.
  intros H. revert st. induction H as [|ev evs Hev _ IH]; intros st.
  { simpl. by rewrite append_nil_r. }
  simpl. destruct (IH (step st ev)) as (-> & ->). destruct ev; try done; simpl.
  destruct (api_onStdout_frame st text) as (-> & ->). by rewrite append_assoc.
Qed.



(** The exit-code policy of api-server.js, where it departs from that of
    playbookService.js: code 2 resolves the promise with success=true, and
    every other nonzero code is rejected with the generic reason. *)
Lemma api_exit_code_policy evs n :
  Forall isData evs →
  (n = 2%Z →
   ∃ r, settled (executePlaybook (evs ++ [Close (Exited n)])) = Some (Resolved r)
        ∧ Result.success r = true)
  ∧ (n ≠ 0%Z → n ≠ 2%Z →
     ∃ r, settled (executePlaybook (evs ++ [Close (Exited n)])) = Some (Rejected r)
          ∧ Result.success r = false
          ∧ Result.error r = Some ("Process exited with code " +:+ Js.ofZ n)).
Proof.
  intros Hd. unfold ApiServer.executePlaybook. rewrite foldl_app. simpl.
  destruct (api_data_frame initial evs Hd) as [_ Hset]. simpl in Hset.
  generalize dependent (foldl step initial evs). intros st Hset.
  unfold ApiServer.onClose, settle. rewrite Hset. split.
  - intros ->. simpl. by eexists.
  - intros H0 H2.
    assert (Hs : succeeds (Exited n) = false) by (by destruct n as [|[[]|[]|]|]).
    rewrite Hs. by eexists.
Qed.


End Run.



End ApiServerFacts.

(** ** Part III: further properties of the code *)

(** *** The inventory: groups, keys of hosts, files of a run *)

Module InventoryExtras.
Import Node InventoryService StringFacts TokenFacts ScanFacts WorldFacts InventoryFacts.

(** X1.  For the run kind mysql, a host whose role is primary or that has no
    role, followed by a host whose role is secondary, give the group
    [primary] with the first host as mysql-primary-0, the group [secondary]
    with the second as mysql-secondary-0, both groups as children of mysql,
    and the block of shared variables. *)
Theorem mysql_primary_and_secondary p s :
  role p = Some "primary" ∨ noRole p = true → role s = Some "secondary" →
  generateInventoryContent [p; s] "mysql"
  = "[primary]" +:+ nl +:+ (formatServerLine p "mysql-primary-0" +:+ nl) +:+ nl
    +:+ "[secondary]" +:+ nl +:+ (formatServerLine s "mysql-secondary-0" +:+ nl) +:+ nl
    +:+ "[mysql:children]" +:+ nl +:+ "primary" +:+ nl +:+ "secondary" +:+ nl
    +:+ varsSection [p; s].
Proof.
  intros Hp Hs.
  assert (Hp1 : (roleIs "primary" p || noRole p) = true).
  { destruct Hp as [Hp|Hp]; [|by rewrite Hp, orb_true_r].
    unfold roleIs. by rewrite bool_decide_eq_true_2. }
  assert (Hp2 : roleIs "secondary" p = false).
  { unfold roleIs. apply bool_decide_eq_false. intros E.
    destruct Hp as [Hp|Hp]; [congruence|]. unfold noRole in Hp. by rewrite E in Hp. }
  assert (Hs1 : (roleIs "primary" s || noRole s) = false).
  { unfold roleIs, noRole. rewrite Hs. by rewrite bool_decide_eq_false_2. }
  assert (Hs2 : roleIs "secondary" s = true).
  { unfold roleIs. by rewrite bool_decide_eq_true_2. }
  unfold generateInventoryContent, groupsSection. simpl.
  rewrite !filter_cons, filter_nil. rewrite Hp1, Hp2, Hs1, Hs2. simpl.
  unfold hostLines. simpl. rewrite !append_nil_r. by rewrite !append_assoc.
Qed.

(** The roles that name a group of a replicated service. *)
Definition groupRoles (playbookType : string) : list string :=
  if Js.eqs playbookType "mongodb" then ["primary"; "secondary"; "arbiter"]
  else ["primary"; "secondary"].

(** X2.  For the run kinds mysql and mongodb, a host whose role is not empty
    and is none of the group names of the kind (primary and secondary, and
    arbiter for mongodb) is in no group: the groups are those of the list
    without the host. *)
Theorem replicated_unknown_role_omitted playbookType l1 h l2 r :
  playbookType = "mysql" ∨ playbookType = "mongodb" →
  role h = Some r → r ≠ "" → r ∉ groupRoles playbookType →
  groupsSection (l1 ++ h :: l2) playbookType = groupsSection (l1 ++ l2) playbookType.
Proof.
  intros Hk Hr Hne Hnot.
  assert (Hno : noRole h = false).
  { unfold noRole. rewrite Hr. simpl. by destruct r. }
  assert (Hnot' : ∀ x, x ∈ groupRoles playbookType → roleIs x h = false).
  { intros x Hx. unfold roleIs. apply bool_decide_eq_false. rewrite Hr. intros [= ->]. done. }
  destruct Hk as [-> | ->]; unfold groupsSection; simpl;
    rewrite !(filter_without _ l1 h l2); try done;
    rewrite ?Hno, ?orb_false_r; apply Hnot'; unfold groupRoles; simpl;
    by repeat constructor.
Qed.


Lemma uniqueLoop_fresh seen l :
  NoDup (dedupKey <$> l) → (∀ s, s ∈ l → dedupKey s ∉ seen) → uniqueLoop seen l = l.
Proof.
  induction l as [|a l IH] in seen |- *; intros Hnd Hseen; [done|].
  rewrite fmap_cons in Hnd. apply NoDup_cons in Hnd as [Ha Hnd]. simpl.
  rewrite bool_decide_eq_false_2 by (apply Hseen; by left).
  f_equal. apply IH; [done|].
  intros s Hs Hin. apply elem_of_union in Hin as [Hin|Hin].
  - apply elem_of_singleton in Hin. apply Ha. rewrite <- Hin.
    apply list_elem_of_fmap. by exists s.
  - apply (Hseen s); [by right|done].
Qed.

Definition otherKind (playbookType : string) : Prop :=
  playbookType ∉ ["mysql"; "mongodb"; "kubernetes"; "env-check"].

Lemma otherKind_groups playbookType servers :
  otherKind playbookType →
  groupsSection servers playbookType = "[all]" +:+ nl +:+ hostLines "server-" servers.
Proof.
  intros Hk. unfold groupsSection, Js.eqs.
  rewrite !bool_decide_eq_false_2; [done|intros ->; apply Hk; by repeat constructor..].
Qed.

(** X3.  The hosts that env-check keeps are a sublist of the hosts given, and
    keeping them once more changes nothing.  When no two hosts share host
    name and port the list is kept whole, and the document of env-check is
    that of any run kind that has no groups of its own. *)
Theorem env_check_without_duplicates servers playbookType :
  otherKind playbookType →
  uniqueServers (uniqueServers servers) = uniqueServers servers
  ∧ uniqueServers servers `sublist_of` servers
  ∧ (NoDup (dedupKey <$> servers) →
     uniqueServers servers = servers
     ∧ generateInventoryContent servers "env-check"
       = generateInventoryContent servers playbookType).
Proof.
  intros Hk.
  assert (Hid : ∀ l, NoDup (dedupKey <$> l) → uniqueServers l = l).
  { intros l Hl. apply uniqueLoop_fresh; [done|]. intros s _. apply not_elem_of_empty. }
  split; [apply Hid, uniqueLoop_NoDup|]. split.
  - unfold uniqueServers. generalize (∅ : gset string).
    induction servers as [|a l IH]; intros seen; simpl; [done|].
    case_bool_decide; [by apply sublist_cons|by apply sublist_skip].
  - intros Hnd. split; [by apply Hid|].
    unfold generateInventoryContent. rewrite (otherKind_groups playbookType) by done.
    unfold groupsSection. simpl. by rewrite Hid.
Qed.

(** X4.  Two hosts have the same key for env-check exactly when they have the
    same host name and the same port (an absent port or port 0 counts as
    22): the colon between name and port cannot make two different pairs
    collide.  Hosts that differ in name or port are both kept. *)
Theorem dedup_key_identifies_host_and_port a b :
  (dedupKey a = dedupKey b ↔ hostname a = hostname b ∧ portOr22 a = portOr22 b)
  ∧ (hostname a ≠ hostname b ∨ portOr22 a ≠ portOr22 b → uniqueServers [a; b] = [a; b]).
Proof.
  assert (Hiff : dedupKey a = dedupKey b ↔ hostname a = hostname b ∧ portOr22 a = portOr22 b)
    by apply dedupKey_same.
  split; [done|]. intros Hne.
  unfold uniqueServers. simpl.
  rewrite bool_decide_eq_false_2 by apply not_elem_of_empty.
  rewrite bool_decide_eq_false_2; [done|].
  intros Hin. apply elem_of_union in Hin as [Hin|Hin]; [|by apply not_elem_of_empty in Hin].
  apply elem_of_singleton in Hin. symmetry in Hin. apply Hiff in Hin as [Hh Hp].
  destruct Hne; congruence.
Qed.


(** The host with other key material, where it has some. *)
Definition rekey (k : string) (s : TargetHost) : TargetHost :=
  match Js.truthy (ssh_key s) with
  | Some _ =>
      mkHost (hostname s) (ssh_port s) (ssh_user s) (ssh_user_type s) (ssh_auth_type s)
             (Some k) (password s) (sudo_password s) (role s) (ansible_user s)
  | None => s
  end.

(** The host whose elevation password is its login password. *)
Definition sudoAsLogin (s : TargetHost) : TargetHost :=
  mkHost (hostname s) (ssh_port s) (ssh_user s) (ssh_user_type s) (ssh_auth_type s)
         (ssh_key s) (password s) (password s) (role s) (ansible_user s).

Section Relabel.
(** A change of the hosts that the builder cannot observe. *)
Variable g : TargetHost → TargetHost.
Hypothesis g_line : ∀ s name, formatServerLine (g s) name = formatServerLine s name.
Hypothesis g_role : ∀ s, role (g s) = role s.
Hypothesis g_key : ∀ s, dedupKey (g s) = dedupKey s.
Hypothesis g_user : ∀ s, ansible_user (g s) = ansible_user s.

Lemma relabel_filter (P : TargetHost → bool) (l : list TargetHost) :
  (∀ s, P (g s) = P s) → filter P (g <$> l) = g <$> filter P l.
Proof.
  intros HP. induction l as [|a l IH]; [done|].
  rewrite fmap_cons, !filter_cons, HP, IH. by destruct (P a).
Qed.

Lemma relabel_hostLines prefix (l : list TargetHost) : hostLines prefix (g <$> l) = hostLines prefix l.
Proof.
  unfold hostLines. f_equal. rewrite imap_fmap. apply imap_ext.
  intros i s _. simpl. by rewrite g_line.
Qed.

Lemma relabel_groupBlock header prefix (l : list TargetHost) :
  groupBlock header prefix (g <$> l) = groupBlock header prefix l.
Proof.
  unfold groupBlock. rewrite relabel_hostLines. by destruct l.
Qed.

Lemma relabel_childLine name (l : list TargetHost) : childLine name (g <$> l) = childLine name l.
Proof. by destruct l. Qed.

Lemma relabel_uniqueLoop seen (l : list TargetHost) : uniqueLoop seen (g <$> l) = g <$> uniqueLoop seen l.
Proof.
  induction l as [|a l IH] in seen |- *; [done|].
  rewrite fmap_cons. simpl. rewrite g_key. case_bool_decide; [done|].
  by rewrite fmap_cons, IH.
Qed.

Lemma relabel_defaultUser (l : list TargetHost) : defaultUser (g <$> l) = defaultUser l.
Proof.
  induction l as [|a l IH]; [done|].
  rewrite fmap_cons. simpl. by rewrite g_user, IH.
Qed.

Lemma relabel_roleIs r s : roleIs r (g s) = roleIs r s.
Proof. unfold roleIs. by rewrite g_role. Qed.

Lemma relabel_noRole s : noRole (g s) = noRole s.
Proof. unfold noRole. by rewrite g_role. Qed.

Lemma relabel_content servers playbookType :
  generateInventoryContent (g <$> servers) playbookType
  = generateInventoryContent servers playbookType.
Proof.
  unfold generateInventoryContent, varsSection. rewrite relabel_defaultUser.
  f_equal. unfold groupsSection, uniqueServers.
  rewrite !relabel_filter
    by (intros s; by rewrite ?relabel_roleIs, ?relabel_noRole).
  by rewrite relabel_uniqueLoop, !relabel_groupBlock, !relabel_childLine, !relabel_hostLines.
Qed.

End Relabel.

(** X5.  The inventory document does not depend on the text of a private key,
    only on whether a host has one: replacing every key that is present by
    another text that is not empty leaves the document unchanged. *)
Theorem document_ignores_key_material k servers playbookType :
  k ≠ "" →
  generateInventoryContent (rekey k <$> servers) playbookType
  = generateInventoryContent servers playbookType.
Proof.
  intros Hk. apply relabel_content.
  - intros s name. unfold rekey.
    destruct (Js.truthy (ssh_key s)) as [k0|] eqn:E; [|done].
    unfold formatServerLine, keyPath. simpl. rewrite E.
    by rewrite (nonEmpty_true k Hk).
  - intros s. unfold rekey. by destruct (Js.truthy (ssh_key s)).
  - intros s. unfold rekey. by destruct (Js.truthy (ssh_key s)).
  - intros s. unfold rekey. by destruct (Js.truthy (ssh_key s)).
Qed.

(** X6.  A host without a password for sudo is written as if its sudo password
    were its login password: setting the sudo password of every host to its
    login password leaves the document unchanged when no host had a sudo
    password. *)
Theorem elevation_falls_back_to_login_password servers playbookType :
  Forall (λ s, Js.truthy (sudo_password s) = None) servers →
  generateInventoryContent (sudoAsLogin <$> servers) playbookType
  = generateInventoryContent servers playbookType.
Proof.
  intros Hall.
  assert (Hline : ∀ s name, Js.truthy (sudo_password s) = None →
            formatServerLine (sudoAsLogin s) name = formatServerLine s name).
  { intros s name Hs. unfold formatServerLine, sudoAsLogin, keyPath. simpl. rewrite Hs.
    by destruct (Js.truthy (password s)). }
  set (g := λ s, if decide (Js.truthy (sudo_password s) = None) then sudoAsLogin s else s).
  assert (Hg : sudoAsLogin <$> servers = g <$> servers).
  { apply Forall_fmap_ext_1. eapply Forall_impl; [exact Hall|].
    intros s Hs. unfold g. by rewrite decide_True. }
  rewrite Hg. apply relabel_content; intros s; unfold g; case_decide; try done.
  intros name. by apply Hline.
Qed.

(** X7.  The user of the shared variables is the ansible_user of the first
    host that has one, and ubuntu when no host has one. *)
Theorem default_login_user_is_first_given l1 h l2 u :
  Forall (λ s, Js.truthy (ansible_user s) = None) l1 →
  Js.truthy (ansible_user h) = Some u →
  defaultUser (l1 ++ h :: l2) = u
  ∧ defaultUser l1 = "ubuntu".
Proof.
  intros Hl1 Hh. induction Hl1 as [|s l Hs _ [IH1 IH2]]; simpl.
  - by rewrite Hh.
  - by rewrite Hs.
Qed.


(** The files after the key files of [servers] are written, and after they
    are removed. *)
Definition keysWritten (servers : list TargetHost) (m : gmap string string)
    : gmap string string :=
  foldl (λ m s, if usesKeyFile s
                then <[keyPath s := default EmptyString (ssh_key s)]> m else m)
        m servers.

Definition keysRemoved (servers : list TargetHost) (m : gmap string string)
    : gmap string string :=
  foldl (λ m s, if usesKeyFile s then delete (keyPath s) m else m) m servers.

Definition keyPaths (servers : list TargetHost) : list string :=
  keyPath <$> filter (λ s, usesKeyFile s) servers.

Lemma keysWritten_cons s l m :
  keysWritten (s :: l) m
  = keysWritten l (if usesKeyFile s
                   then <[keyPath s := default EmptyString (ssh_key s)]> m else m).
Proof. reflexivity. Qed.

Lemma keysRemoved_cons s l m :
  keysRemoved (s :: l) m
  = keysRemoved l (if usesKeyFile s then delete (keyPath s) m else m).
Proof. reflexivity. Qed.

Lemma keyPaths_cons s l :
  keyPaths (s :: l) = if usesKeyFile s then keyPath s :: keyPaths l else keyPaths l.
Proof. unfold keyPaths. rewrite filter_cons. by destruct (usesKeyFile s). Qed.

Lemma withFiles_same w : withFiles w (files w) = w.
Proof. by destruct w. Qed.

(** When writeSSHKeys returns, it has written every key file, and none of
    their paths is refused. *)
Lemma writeSSHKeys_ret servers w w' :
  writeSSHKeys servers w = (Ret tt, w') →
  w' = withFiles w (keysWritten servers (files w))
  ∧ ∀ q, q ∈ keyPaths servers → q ∉ denied w.
Proof.
  revert w. induction servers as [|s l IH]; intros w.
  { intros [= <-]. split; [by rewrite withFiles_same|].
    intros q Hq. by apply elem_of_nil in Hq. }
  rewrite keysWritten_cons, keyPaths_cons. unfold writeSSHKeys in *. rewrite forOf_cons.
  destruct (usesKeyFile s); [|apply IH].
  destruct (writeFile _ _ w) as [[[]|e] w1] eqn:E; [|done].
  apply writeFile_ret in E as (-> & Hd & _). intros H.
  apply IH in H as [-> Hq]. split; [done|].
  intros q [->|Hin]%elem_of_cons; [done|]. by apply Hq.
Qed.

Lemma keyLoop_spec servers w :
  (∀ q, q ∈ keyPaths servers → q ∉ denied w) →
  keyLoop servers w = (Ret tt, withFiles w (keysRemoved servers (files w))).
Proof.
  revert w. induction servers as [|s l IH]; intros w Hq.
  { by rewrite withFiles_same. }
  rewrite keysRemoved_cons. rewrite keyPaths_cons in Hq.
  unfold keyLoop in *. rewrite forOf_cons.
  destruct (usesKeyFile s); [|unfold ret; by rewrite IH].
  unfold tryCatch.
  destruct (unlink_cases (keyPath s) w) as [(-> & _ & _)|(e & -> & [Hn|Hd])].
  - rewrite IH; [done|]. intros q Hin. apply Hq. by right.
  - unfold ret. rewrite IH by (intros q Hin; apply Hq; by right).
    by rewrite delete_id.
  - exfalso. by apply (Hq (keyPath s)); [left|].
Qed.

Lemma keysWritten_lookup servers m q :
  q ∉ keyPaths servers → keysWritten servers m !! q = m !! q.
Proof.
  revert m. induction servers as [|s l IH]; intros m Hq; [done|].
  rewrite keysWritten_cons. rewrite keyPaths_cons in Hq.
  destruct (usesKeyFile s); [|by apply IH].
  apply not_elem_of_cons in Hq as [Hne Hq].
  rewrite IH by done. by rewrite lookup_insert_ne.
Qed.

Lemma keysRemoved_lookup servers m q :
  keysRemoved servers m !! q = if decide (q ∈ keyPaths servers) then None else m !! q.
Proof.
  revert m. induction servers as [|s l IH]; intros m.
  { rewrite decide_False; [done|]. apply not_elem_of_nil. }
  rewrite keysRemoved_cons, keyPaths_cons, IH.
  destruct (usesKeyFile s); [|done].
  destruct (decide (q = keyPath s)) as [->|Hne].
  - rewrite lookup_delete_eq. rewrite (decide_True (P := _ ∈ _ :: _)) by (by left).
    by case_decide.
  - rewrite lookup_delete_ne by done.
    destruct (decide (q ∈ keyPaths l)) as [Hin|Hin].
    + rewrite decide_True; [done|by right].
    + rewrite decide_False; [done|]. intros [?|?]%elem_of_cons; done.
Qed.




(** The world after a generation that returned: the directory step has
    left the files alone, the key files and the inventory file are written,
    and none of their paths is refused. *)
Lemma generateInventory_ret dir inventoryId servers playbookType w r w1 :
  generateInventory dir inventoryId servers playbookType w = (Ret r, w1) →
  ∃ w0,
    ensureInventoryDir dir w = (Ret tt, w0)
    ∧ files w0 = files w ∧ denied w0 = denied w
    ∧ r = (inventoryId, inventoryPathOf dir inventoryId)
    ∧ w1 = withFiles w0 (<[inventoryPathOf dir inventoryId :=
                              generateInventoryContent servers playbookType]>
                           (keysWritten servers (files w)))
    ∧ (inventoryPathOf dir inventoryId ∉ denied w)
    ∧ (∀ q, q ∈ keyPaths servers → q ∉ denied w)
    ∧ ∀ d, parentDir (inventoryPathOf dir inventoryId) = Some d → d ∈ dirs w0.
Proof.
  unfold generateInventory, bind.
  destruct (ensureInventoryDir dir w) as [[[]|e0] w0] eqn:E0.
  2:{ destruct (ensureInventoryDir_returns dir w) as (? & ? & _). congruence. }
  assert (files w0 = files w ∧ denied w0 = denied w) as [F0 D0].
  { revert E0. unfold ensureInventoryDir, tryCatch.
    destruct (mkdir dir w) as [[[]|e] u] eqn:E.
    - apply mkdir_ret in E as [(F & _ & D & _) _]. by intros [= <-].
    - apply mkdir_throw in E as [(F & _ & D & _) _]. by intros [= <-]. }
  destruct (writeSSHKeys servers w0) as [[[]|e] w2] eqn:E1; [|done].
  apply writeSSHKeys_ret in E1 as [-> Hk].
  destruct (writeFile _ _ _) as [[[]|e] w3] eqn:E2; [|done].
  apply writeFile_ret in E2 as (-> & Hd & Hp). intros [= <- <-].
  exists w0. simpl in *. rewrite F0, D0 in *. by repeat split.
Qed.

(** Under a directory with a name, a generation that returned has found or
    made the inventory directory, and has logged nothing. *)
Lemma generateInventory_quiet dir inventoryId servers playbookType w r w1 :
  dir ≠ "" → avoids ["/"%char] inventoryId = true →
  generateInventory dir inventoryId servers playbookType w = (Ret r, w1) →
  console w1 = console w ∧ dir ∈ dirs w1 ∧ dirs w ⊆ dirs w1.
Proof.
  intros Hdir Hid H.
  apply generateInventory_ret in H as (w0 & E0 & _ & _ & _ & -> & _ & _ & Hp).
  assert (Hin : dir ∈ dirs w0).
  { apply Hp. unfold inventoryPathOf. change ("/" +:+ ?x) with (String "/" x).
    apply parentDir_glue; [done|].
    rewrite avoids_append, Hid. reflexivity. }
  simpl. revert E0. unfold ensureInventoryDir, tryCatch.
  destruct (mkdir dir w) as [[[]|e] u] eqn:E.
  - apply mkdir_ret in E as [(_ & C & _ & S) _]. by intros [= <-].
  - apply mkdir_throw in E as [_ Hn]. intros [= <-]. done.
Qed.

Lemma cleanupInventory_spec dir inventoryId servers w :
  is_Some (files w !! inventoryPathOf dir inventoryId) →
  inventoryPathOf dir inventoryId ∉ denied w →
  (∀ q, q ∈ keyPaths servers → q ∉ denied w) →
  cleanupInventory dir inventoryId servers w
  = (Ret tt, withFiles w (keysRemoved servers
                            (delete (inventoryPathOf dir inventoryId) (files w)))).
Proof.
  intros [doc Hdoc] Hd Hk. rewrite cleanupInventory_unfold.
  unfold tryCatch, bind.
  destruct (unlink_cases (inventoryPathOf dir inventoryId) w)
    as [(-> & _ & _)|(e & _ & [Hn|Hn])]; [|congruence|done].
  by rewrite keyLoop_spec.
Qed.

(** The files after a generation and the clean-up of the same run. *)
Lemma cleaned_files dir inventoryId servers playbookType m :
  m !! inventoryPathOf dir inventoryId = None →
  (∀ q, q ∈ keyPaths servers → m !! q = None) →
  keysRemoved servers
    (delete (inventoryPathOf dir inventoryId)
       (<[inventoryPathOf dir inventoryId :=
            generateInventoryContent servers playbookType]> (keysWritten servers m)))
  = m.
Proof.
  intros Hinv Hkeys.
  apply map_eq. intros q. rewrite keysRemoved_lookup. case_decide as Hq.
  - symmetry. by apply Hkeys.
  - rewrite delete_insert_eq.
    destruct (decide (q = inventoryPathOf dir inventoryId)) as [->|Hne].
    + by rewrite lookup_delete_eq.
    + rewrite lookup_delete_ne by done. by apply keysWritten_lookup.
Qed.

Lemma cleanup_after_generate dir inventoryId servers playbookType w r w1 u :
  files w !! inventoryPathOf dir inventoryId = None →
  (∀ q, q ∈ keyPaths servers → files w !! q = None) →
  generateInventory dir inventoryId servers playbookType w = (Ret r, w1) →
  files u = files w1 → denied u = denied w1 →
  cleanupInventory dir inventoryId servers u = (Ret tt, withFiles u (files w)).
Proof.
  intros Hinv Hkeys H Fu Du.
  apply generateInventory_ret in H as (w0 & _ & F0 & D0 & -> & -> & Hd & Hk & _).
  simpl in Fu, Du.
  rewrite cleanupInventory_spec; rewrite ?Fu, ?Du, ?D0; try done.
  - by rewrite cleaned_files.
  - by rewrite lookup_insert_eq.
Qed.

(** X8.  Take an inventory directory with a name and a run identifier without
    a slash, and let the inventory path and the key paths of the hosts be
    free.  When generateInventory returns, it returns the path of a file
    that holds the document, the inventory directory exists and nothing was
    logged; cleanupInventory for the same run then returns, logs nothing,
    and leaves exactly the files that were there before the run (the
    directories it found or made stay). *)
Theorem generate_then_cleanup_restores_files
    dir inventoryId servers playbookType w r w1 :
  dir ≠ "" → avoids ["/"%char] inventoryId = true →
  files w !! inventoryPathOf dir inventoryId = None →
  (∀ q, q ∈ keyPaths servers → files w !! q = None) →
  generateInventory dir inventoryId servers playbookType w = (Ret r, w1) →
  r = (inventoryId, inventoryPathOf dir inventoryId)
  ∧ files w1 !! inventoryPathOf dir inventoryId
    = Some (generateInventoryContent servers playbookType)
  ∧ dir ∈ dirs w1 ∧ dirs w ⊆ dirs w1 ∧ console w1 = console w
  ∧ ∃ w2,
      cleanupInventory dir inventoryId servers w1 = (Ret tt, w2)
      ∧ files w2 = files w ∧ console w2 = console w ∧ dirs w2 = dirs w1.
Proof.
  intros Hdir Hid Hinv Hkeys H.
  destruct (generateInventory_writes _ _ _ _ _ _ _ H) as [-> Hdoc].
  destruct (generateInventory_quiet _ _ _ _ _ _ _ Hdir Hid H) as (Hc & Hin & Hsub).
  split; [done|]. split; [done|]. split; [done|]. split; [done|]. split; [done|].
  eexists. split; [by eapply cleanup_after_generate|]. by simpl.
Qed.





Definition plainHost : TargetHost :=
  mkHost "10.0.0.1" None None None None None (Some "pw") None None None.

Definition secondaryHost : TargetHost :=
  mkHost "10.0.0.2" (Some 2222%N) None None None None (Some "pw") None
         (Some "secondary") None.

Definition arbiterHost : TargetHost :=
  mkHost "10.0.0.3" None None None None None (Some "pw") None (Some "arbiter") None.

Definition keyHost : TargetHost :=
  mkHost "db.example.org" None (Some "deploy") (Some "sudo") (Some "key")
         (Some "-----BEGIN KEY-----") (Some "pw") None None (Some "deploy").

Lemma mysql_primary_and_secondary_witness :
  generateInventoryContent [plainHost; secondaryHost] "mysql"
  = "[primary]" +:+ nl +:+ (formatServerLine plainHost "mysql-primary-0" +:+ nl) +:+ nl
    +:+ "[secondary]" +:+ nl
    +:+ (formatServerLine secondaryHost "mysql-secondary-0" +:+ nl) +:+ nl
    +:+ "[mysql:children]" +:+ nl +:+ "primary" +:+ nl +:+ "secondary" +:+ nl
    +:+ varsSection [plainHost; secondaryHost].
Proof.
  apply (mysql_primary_and_secondary plainHost secondaryHost).
  - right. reflexivity.
  - reflexivity.
Defined.

Lemma replicated_unknown_role_omitted_witness :
  groupsSection ([plainHost] ++ arbiterHost :: [secondaryHost]) "mysql"
  = groupsSection ([plainHost] ++ [secondaryHost]) "mysql".
Proof.
  apply (replicated_unknown_role_omitted "mysql" [plainHost] arbiterHost [secondaryHost]
           "arbiter").
  - left. reflexivity.
  - reflexivity.
  - discriminate.
  - unfold groupRoles. simpl. intros Hin.
    repeat (apply elem_of_cons in Hin; destruct Hin as [Hin|Hin]; [discriminate|]).
    by apply elem_of_nil in Hin.
Defined.

Lemma env_check_without_duplicates_witness :
  uniqueServers (uniqueServers [plainHost; secondaryHost; plainHost])
  = uniqueServers [plainHost; secondaryHost; plainHost]
  ∧ uniqueServers [plainHost; secondaryHost; plainHost]
    `sublist_of` [plainHost; secondaryHost; plainHost]
  ∧ (NoDup (dedupKey <$> [plainHost; secondaryHost; plainHost]) →
     uniqueServers [plainHost; secondaryHost; plainHost]
     = [plainHost; secondaryHost; plainHost]
     ∧ generateInventoryContent [plainHost; secondaryHost; plainHost] "env-check"
       = generateInventoryContent [plainHost; secondaryHost; plainHost] "nfs").
Proof.
  apply (env_check_without_duplicates [plainHost; secondaryHost; plainHost] "nfs").
  unfold otherKind. intros Hin.
  repeat (apply elem_of_cons in Hin; destruct Hin as [Hin|Hin]; [discriminate|]).
  by apply elem_of_nil in Hin.
Defined.

Lemma dedup_key_identifies_host_and_port_witness :
  uniqueServers [plainHost; secondaryHost] = [plainHost; secondaryHost].
Proof.
  apply (proj2 (dedup_key_identifies_host_and_port plainHost secondaryHost)).
  left. discriminate.
Defined.

Lemma document_ignores_key_material_witness :
  generateInventoryContent (rekey "-----BEGIN OTHER-----" <$> [keyHost; plainHost]) "nfs"
  = generateInventoryContent [keyHost; plainHost] "nfs".
Proof.
  apply (document_ignores_key_material "-----BEGIN OTHER-----" [keyHost; plainHost] "nfs").
  discriminate.
Defined.

Lemma elevation_falls_back_to_login_password_witness :
  generateInventoryContent (sudoAsLogin <$> [keyHost; plainHost]) "rabbitmq"
  = generateInventoryContent [keyHost; plainHost] "rabbitmq".
Proof.
  apply (elevation_falls_back_to_login_password [keyHost; plainHost] "rabbitmq").
  repeat constructor.
Defined.

Lemma default_login_user_is_first_given_witness :
  defaultUser ([plainHost; secondaryHost] ++ keyHost :: [arbiterHost]) = "deploy"
  ∧ defaultUser [plainHost; secondaryHost] = "ubuntu".
Proof.
  apply (default_login_user_is_first_given [plainHost; secondaryHost] keyHost
           [arbiterHost] "deploy").
  - repeat constructor.
  - reflexivity.
Defined.

Definition firstRun : Outcome (string * string) * World :=
  generateInventory "/srv/backend/.inventory" "9f86d081884c7d65"
    [keyHost; plainHost] "mysql" freshWorld.

Lemma generate_then_cleanup_restores_files_witness :
  firstRun.1 = Ret ("9f86d081884c7d65",
                    inventoryPathOf "/srv/backend/.inventory" "9f86d081884c7d65")
  ∧ files firstRun.2 !! inventoryPathOf "/srv/backend/.inventory" "9f86d081884c7d65"
    = Some (generateInventoryContent [keyHost; plainHost] "mysql")
  ∧ "/srv/backend/.inventory" ∈ dirs firstRun.2
  ∧ dirs freshWorld ⊆ dirs firstRun.2
  ∧ console firstRun.2 = console freshWorld
  ∧ ∃ w2,
      cleanupInventory "/srv/backend/.inventory" "9f86d081884c7d65"
        [keyHost; plainHost] firstRun.2 = (Ret tt, w2)
      ∧ files w2 = files freshWorld ∧ console w2 = console freshWorld
      ∧ dirs w2 = dirs firstRun.2.
Proof.
  split; [by vm_compute|].
  apply (generate_then_cleanup_restores_files "/srv/backend/.inventory"
           "9f86d081884c7d65" [keyHost; plainHost] "mysql" freshWorld
           ("9f86d081884c7d65",
            inventoryPathOf "/srv/backend/.inventory" "9f86d081884c7d65")).
  - discriminate.
  - reflexivity.
  - apply lookup_empty.
  - intros q _. apply lookup_empty.
  - by vm_compute.
Defined.





End InventoryExtras.

(** *** The run: retained output, task context, credentials kept *)

(** The text that the stderr events of [evs] carry, in order. *)
Fixpoint stderrText (evs : list ChildEvent) : string :=
  match evs with
  | [] => EmptyString
  | StderrData text :: evs' => text +:+ stderrText evs'
  | _ :: evs' => stderrText evs'
  end.

(** [taskContext cur events]: every task result of [events] names the task
    of the last task event before it, or [cur] when there is none. *)
Fixpoint taskContext (cur : string) (events : list ProgressEvent) : Prop :=
  match events with
  | [] => True
  | Task name _ :: rest => taskContext name rest
  | TaskResult _ _ task _ _ _ :: rest => task = cur ∧ taskContext cur rest
  | _ :: rest => taskContext cur rest
  end.

(** The task of the last task event of [events], or [cur]. *)
Fixpoint lastTask (cur : string) (events : list ProgressEvent) : string :=
  match events with
  | [] => cur
  | Task name _ :: rest => lastTask name rest
  | _ :: rest => lastTask cur rest
  end.

(** [keeps c c']: every service of [c] is in [c'], with every key of its
    entry. *)
Definition keeps (c c' : CredentialSet) : Prop :=
  ∀ svc entry, c !! svc = Some entry →
    ∃ entry', c' !! svc = Some entry' ∧ ∀ k, is_Some (entry !! k) → is_Some (entry' !! k).

(** The credentials after the close handler has laid the defaults of the
    run's service under them. *)
Definition withDefaults (playbookType : string) (c : CredentialSet) : CredentialSet :=
  match PlaybookService.currentService playbookType,
        PlaybookService.defaultsOf (PlaybookService.currentService playbookType) with
  | Some svc, Some d => <[svc := spreadOver d (c !! svc)]> c
  | _, _ => c
  end.

Module PlaybookExtras.
Import PlaybookService StringFacts TokenFacts PlaybookFacts.

Section Run.
Variable JSON_parse : string -> ParsedJson.
Variable playbookType : string.
Variable subscribed : bool.

Local Abbreviation onLine := (onLine JSON_parse playbookType subscribed).
Local Abbreviation onStdout := (onStdout JSON_parse playbookType subscribed).
Local Abbreviation step := (step JSON_parse playbookType subscribed).
Local Abbreviation executePlaybook := (executePlaybook JSON_parse playbookType subscribed).

Lemma step_buffers st ev :
  stdout (step st ev)
    = stdout st +:+ match ev with StdoutData t => t | _ => EmptyString end
  ∧ stderr (step st ev)
    = stderr st +:+ match ev with StderrData t => t | _ => EmptyString end.
Proof.
  destruct ev as [text|text|code|message]; simpl.
  - destruct (onStdout_frame JSON_parse playbookType subscribed st text) as (-> & -> & _).
    by rewrite append_nil_r.
  - by rewrite append_nil_r.
  - unfold PlaybookService.onClose, settle.
    destruct code as [[| |]|]; simpl; by rewrite !append_nil_r.
  - by rewrite !append_nil_r.
Qed.

Lemma run_buffers st evs :
  stdout (foldl step st evs) = stdout st +:+ stdoutText evs
  ∧ stderr (foldl step st evs) = stderr st +:+ stderrText evs.
Proof.
  induction evs as [|ev evs IH] in st |- *.
  { simpl. by rewrite !append_nil_r. }
  simpl foldl. destruct (IH (step st ev)) as [-> ->].
  destruct (step_buffers st ev) as [-> ->].
  rewrite !append_assoc. by destruct ev.
Qed.

(** What the close handler settles the promise with. *)
Definition closeResult (code : ExitCode) (out err : string) (c : CredentialSet)
    : Settlement :=
  match code with
  | Exited 0 => Resolved (Result.mk true None None out err None (Some c))
  | _ => Rejected (Result.mk false (Some (exitReason code)) (Some code) out err
                     (Some (out +:+ nl +:+ err)) (Some c))
  end.

Lemma close_result evs code :
  Forall isData evs →
  settled (executePlaybook (evs ++ [Close code]))
  = Some (closeResult code (stdoutText evs) (stderrText evs)
            (withDefaults playbookType (credentials (executePlaybook evs)))).
Proof.
  intros Hd. destruct (run_buffers (initial playbookType) evs) as [Ho He].
  simpl in Ho, He. rewrite run_snoc.
  pose proof (data_keeps_pending JSON_parse playbookType subscribed
                (initial playbookType) evs Hd) as Hp.
  change (foldl step (initial playbookType) evs) with (executePlaybook evs) in *.
  generalize dependent (executePlaybook evs). intros st Ho He Hp.
  change (step st (Close code)) with (PlaybookService.onClose playbookType st code).
  unfold PlaybookService.onClose, settle, closeResult, withDefaults.
  rewrite Hp, Ho, He. simpl in Hp. by destruct code as [[| |]|].
Qed.

(** X11.  The run keeps everything the child writes: after any output, the
    retained stdout and stderr are the concatenations of the chunks of each
    stream in order of arrival, whether or not a line was recognised.  The
    result of the close handler carries both, and a rejection carries in
    addition fullOutput, the two joined by a newline. *)
Theorem output_is_retained_verbatim evs code :
  Forall isData evs →
  stdout (executePlaybook evs) = stdoutText evs
  ∧ stderr (executePlaybook evs) = stderrText evs
  ∧ ∃ s, settled (executePlaybook (evs ++ [Close code])) = Some s
         ∧ Result.stdout (resultOf s) = stdoutText evs
         ∧ Result.stderr (resultOf s) = stderrText evs
         ∧ (code ≠ Exited 0 →
            Result.fullOutput (resultOf s)
            = Some (stdoutText evs +:+ nl +:+ stderrText evs)).
Proof.
  intros Hd. destruct (run_buffers (initial playbookType) evs) as [Ho He].
  simpl in Ho, He. split; [done|]. split; [done|].
  rewrite (close_result evs code Hd). eexists. split; [reflexivity|].
  unfold closeResult. by destruct code as [[| |]|].
Qed.

Lemma taskContext_snoc cur events ev :
  taskContext cur events →
  match ev with
  | TaskResult _ _ task _ _ _ => task = lastTask cur events
  | _ => True
  end →
  taskContext cur (events ++ [ev]).
Proof.
  induction events as [|e events IH] in cur |- *; simpl.
  - intros _. by destruct ev.
  - destruct e; simpl; try (by apply IH).
    intros [-> H]. split; [done|]. by apply IH.
Qed.

Lemma lastTask_snoc cur events ev :
  lastTask cur (events ++ [ev])
  = match ev with Task name _ => name | _ => lastTask cur events end.
Proof.
  induction events as [|e events IH] in cur |- *; simpl; [by destruct ev|].
  by destruct e.
Qed.

Definition contextState (st : State) : Prop :=
  taskContext "" (emitted st) ∧ currentTask st = lastTask "" (emitted st).

Lemma parse_event_task line task creds service ev creds' :
  parseAnsibleOutput JSON_parse line task creds service = (Some ev, creds') →
  match ev with
  | TaskResult _ _ t _ _ _ => t = task
  | _ => True
  end.
Proof.
  unfold parseAnsibleOutput.
  destruct (Regex.taskResult line) as [[[status host] message]|]; [by intros [= <- _]|].
  destruct (Regex.taskName line); [by intros [= <- _]|].
  destruct (Regex.playName line); [by intros [= <- _]|].
  destruct (Regex.summary line) as [[]|]; [by intros [= <- _]|done].
Qed.

Lemma contextState_onLine st line : contextState st → contextState (onLine st line).
Proof.
  intros [Hc Ht]. unfold PlaybookService.onLine.
  destruct (Js.nonEmpty (Js.trim line) && subscribed); [|done].
  destruct (parseAnsibleOutput _ _ _ _ _) as [[ev|] c] eqn:E; [|done].
  apply parse_event_task in E. split; simpl.
  - apply taskContext_snoc; [done|]. destruct ev; try done. by rewrite <- Ht.
  - rewrite lastTask_snoc. by destruct ev.
Qed.

Lemma contextState_step st ev : contextState st → contextState (step st ev).
Proof.
  intros Hst. destruct ev as [text|text|code|message]; simpl.
  - unfold PlaybookService.onStdout.
    assert (H0 : contextState (mkState (stdout st +:+ text) (stderr st) (currentTask st)
                     (credentials st) (emitted st) (settled st))) by done.
    generalize dependent (mkState (stdout st +:+ text) (stderr st) (currentTask st)
                     (credentials st) (emitted st) (settled st)).
    intros s0 H0. induction (Js.split LF text) as [|l ls IH] in s0, H0 |- *; [done|].
    simpl. by apply IH, contextState_onLine.
  - destruct Hst as [Hc Ht]. unfold onStderr. destruct subscribed; [|done].
    split; simpl; [by apply taskContext_snoc|by rewrite lastTask_snoc].
  - unfold PlaybookService.onClose, settle. by destruct code as [[| |]|].
  - done.
Qed.

(** X12.  Every task result handed to the subscriber names the task of the last
    task line seen before it, and the empty task when there was none yet; a
    play line does not reset the task.  The task the handlers hold is the one
    of the last task event. *)
Theorem results_name_the_latest_task evs :
  taskContext "" (emitted (executePlaybook evs))
  ∧ currentTask (executePlaybook evs) = lastTask "" (emitted (executePlaybook evs)).
Proof.
  unfold PlaybookService.executePlaybook.
  assert (H0 : contextState (initial playbookType)) by done.
  generalize dependent (initial playbookType).
  induction evs as [|ev evs IH]; intros st Hst; [done|].
  simpl. by apply IH, contextState_step.
Qed.


Lemma keeps_refl c : keeps c c.
Proof. intros svc e He. by exists e. Qed.

Lemma keeps_trans c1 c2 c3 : keeps c1 c2 → keeps c2 c3 → keeps c1 c3.
Proof.
  intros H12 H23 svc e He. destruct (H12 svc e He) as (e2 & He2 & Hk2).
  destruct (H23 svc e2 He2) as (e3 & He3 & Hk3). exists e3. split; [done|].
  intros k Hk. by apply Hk3, Hk2.
Qed.

Lemma keeps_ensureEntry svc c : keeps c (ensureEntry svc c).
Proof.
  unfold ensureEntry, Js.get. destruct (c !! svc) eqn:E; [apply keeps_refl|].
  case_bool_decide; [apply keeps_refl|].
  intros s e He. exists e. split; [|done].
  rewrite lookup_insert_ne; [done|]. intros <-. by rewrite E in He.
Qed.

Lemma keeps_setField svc k v c : keeps c (setField svc k v c).
Proof.
  unfold setField. destruct (c !! svc) as [e0|] eqn:E; [|apply keeps_refl].
  intros s e He. destruct (decide (svc = s)) as [<-|Hne].
  - rewrite E in He. injection He as <-. eexists. split; [apply lookup_insert_eq|].
    intros k' Hk'. by apply assign_is_Some.
  - exists e. by rewrite lookup_insert_ne.
Qed.

Lemma keeps_parseCredentialLine c line : keeps c (parseCredentialLine c line).
Proof.
  unfold parseCredentialLine.
  destruct (Js.startsWith "CREDENTIALS|" (Js.trim line)).
  - destruct (Js.split "|" (Js.trim line)) as [|p0 [|part1 segments]];
      [apply keeps_refl..|].
    destruct (Js.nonEmpty (Js.toLowerCase part1)); [|apply keeps_refl].
    eapply keeps_trans; [apply (keeps_ensureEntry (Js.toLowerCase part1))|].
    generalize (ensureEntry (Js.toLowerCase part1) c). intros c0.
    induction segments as [|seg segs IH] in c0 |- *; [apply keeps_refl|].
    simpl. eapply keeps_trans; [|apply IH].
    destruct (keyValue seg) as [[k v]|]; [apply keeps_setField|apply keeps_refl].
  - destruct (firstLabel credentialLabels (Js.trim line)) as [[[svc key] value]|];
      [|apply keeps_refl].
    eapply keeps_trans; [apply (keeps_ensureEntry svc)|apply keeps_setField].
Qed.

Lemma keeps_parseCredentials text service c : keeps c (parseCredentials text service c).
Proof.
  unfold parseCredentials.
  induction (Js.split LF text) as [|l ls IH] in c |- *; [apply keeps_refl|].
  simpl. eapply keeps_trans; [apply keeps_parseCredentialLine|apply IH].
Qed.

Lemma keeps_parseAnsibleOutput line task c service :
  keeps c (parseAnsibleOutput JSON_parse line task c service).2.
Proof.
  unfold parseAnsibleOutput.
  destruct (Regex.taskResult line) as [[[status host] message]|].
  - cbv zeta. cbn [snd].
    set (msg := if Js.startsWith "=>" (Js.trim message)
                then Regex.skipWs (Js.drop 2 (Js.trim message)) else Js.trim message).
    destruct (Js.startsWith "{" msg); [|apply keeps_parseCredentials].
    destruct (JSON_parse msg) as [|msgs| |]; try apply keeps_parseCredentials.
    eapply keeps_trans; [apply (keeps_parseCredentials msg service)|].
    generalize (parseCredentials msg service c).
    intros c1. induction msgs as [|m ms IH] in c1 |- *; [apply keeps_refl|].
    simpl. eapply keeps_trans; [apply keeps_parseCredentials|apply IH].
  - destruct (Regex.taskName line); [apply keeps_refl|].
    destruct (Regex.playName line); [apply keeps_refl|].
    destruct (Regex.summary line) as [[]|]; apply keeps_refl.
Qed.

Lemma keeps_onLine st line : keeps (credentials st) (credentials (onLine st line)).
Proof.
  unfold PlaybookService.onLine.
  destruct (Js.nonEmpty (Js.trim line) && subscribed); [|apply keeps_refl].
  pose proof (keeps_parseAnsibleOutput line (currentTask st) (credentials st)
                (currentService playbookType)) as Hp.
  by destruct (parseAnsibleOutput _ _ _ _ _) as [[ev|] c].
Qed.

Lemma keeps_spread svc d c : keeps c (<[svc := spreadOver d (c !! svc)]> c).
Proof.
  intros s e He. destruct (decide (svc = s)) as [<-|Hne].
  - rewrite He. eexists. split; [apply lookup_insert_eq|].
    intros k [v Hk]. exists v. unfold spreadOver. simpl. by apply lookup_union_Some_l.
  - exists e. by rewrite lookup_insert_ne.
Qed.

Lemma keeps_step st ev : keeps (credentials st) (credentials (step st ev)).
Proof.
  destruct ev as [text|text|code|message]; simpl.
  - unfold PlaybookService.onStdout.
    change (credentials st) with
      (credentials (mkState (stdout st +:+ text) (stderr st) (currentTask st)
                     (credentials st) (emitted st) (settled st))) at 1.
    generalize (mkState (stdout st +:+ text) (stderr st) (currentTask st)
                     (credentials st) (emitted st) (settled st)).
    intros s0. induction (Js.split LF text) as [|l ls IH] in s0 |- *; [apply keeps_refl|].
    simpl. eapply keeps_trans; [apply keeps_onLine|apply IH].
  - apply keeps_refl.
  - unfold PlaybookService.onClose, settle.
    assert (H : keeps (credentials st)
      match currentService playbookType, defaultsOf (currentService playbookType) with
      | Some svc, Some d => <[svc := spreadOver d (credentials st !! svc)]> (credentials st)
      | _, _ => credentials st
      end).
    { destruct (currentService playbookType) as [svc|]; [|apply keeps_refl].
      destruct (defaultsOf (Some svc)); [apply keeps_spread|apply keeps_refl]. }
    by destruct code as [[| |]|].
  - apply keeps_refl.
Qed.

Lemma keeps_run st evs : keeps (credentials st) (credentials (foldl step st evs)).
Proof.
  induction evs as [|ev evs IH] in st |- *; [apply keeps_refl|].
  simpl. eapply keeps_trans; [apply keeps_step|apply IH].
Qed.

Lemma close_settles st code :
  settled st = None →
  ∃ s, settled (step st (Close code)) = Some s
       ∧ Result.credentials (resultOf s) = Some (credentials (step st (Close code))).
Proof.
  intros Hp. simpl. unfold PlaybookService.onClose, settle. rewrite Hp.
  destruct code as [[| |]|]; by eexists.
Qed.

(** X13.  No handler removes a service or a key from the credentials: what is
    recorded after some output is still recorded, possibly with a newer
    value, after more output, and the credentials of the result of the close
    handler hold every service and key recorded during the run and those of
    the defaults laid at the start. *)
Theorem fields_are_never_dropped evs1 evs2 code :
  Forall isData (evs1 ++ evs2) →
  keeps (credentials (executePlaybook evs1)) (credentials (executePlaybook (evs1 ++ evs2)))
  ∧ ∃ s c, settled (executePlaybook ((evs1 ++ evs2) ++ [Close code])) = Some s
           ∧ Result.credentials (resultOf s) = Some c
           ∧ keeps (credentials (executePlaybook evs1)) c
           ∧ keeps (credentials (initial playbookType)) c.
Proof.
  intros Hd. unfold PlaybookService.executePlaybook. rewrite !foldl_app.
  split; [apply keeps_run|].
  pose proof (data_keeps_pending JSON_parse playbookType subscribed
                (initial playbookType) _ Hd) as Hp.
  rewrite foldl_app in Hp. simpl in Hp.
  destruct (close_settles _ code Hp) as (s & Hs & Hc).
  exists s. eexists. split; [exact Hs|]. split; [exact Hc|]. split.
  - eapply keeps_trans; [apply (keeps_run _ evs2)|apply keeps_step].
  - eapply keeps_trans; [apply (keeps_run _ evs1)|].
    eapply keeps_trans; [apply (keeps_run _ evs2)|apply keeps_step].
Qed.

(** What a task result of a run with a known service carries. *)
Definition carriesPath (ev : ProgressEvent) : Prop :=
  match ev with
  | TaskResult _ _ _ _ _ update =>
      ∃ entry, update = Some (Some playbookType, entry) ∧ is_Some (entry !! "path")
  | _ => True
  end.

Definition pathState (st : State) : Prop :=
  (∃ entry, credentials st !! playbookType = Some entry ∧ is_Some (entry !! "path"))
  ∧ Forall carriesPath (emitted st).

Lemma keeps_path c c' :
  keeps c c' →
  (∃ entry, c !! playbookType = Some entry ∧ is_Some (entry !! "path")) →
  ∃ entry, c' !! playbookType = Some entry ∧ is_Some (entry !! "path").
Proof.
  intros Hk (e & He & Hp). destruct (Hk _ _ He) as (e' & He' & Hk').
  exists e'. split; [done|]. by apply Hk'.
Qed.

Lemma parse_event_update line task c ev c' :
  parseAnsibleOutput JSON_parse line task c (Some playbookType) = (Some ev, c') →
  (∃ entry, c' !! playbookType = Some entry ∧ is_Some (entry !! "path")) →
  carriesPath ev.
Proof.
  unfold parseAnsibleOutput.
  destruct (Regex.taskResult line) as [[[status host] message]|].
  - cbv zeta. intros [= <- <-] (e & He & Hp). simpl.
    unfold propertyName. simpl. rewrite He. by exists e.
  - destruct (Regex.taskName line); [by intros [= <- _]|].
    destruct (Regex.playName line); [by intros [= <- _]|].
    destruct (Regex.summary line) as [[]|]; [by intros [= <- _]|done].
Qed.

Lemma pathState_onLine st line :
  currentService playbookType = Some playbookType →
  pathState st → pathState (onLine st line).
Proof.
  intros Hcs [Hc He]. pose proof (keeps_onLine st line) as Hk.
  split; [by eapply keeps_path|].
  pose proof (keeps_path _ _ Hk Hc) as Hc'.
  unfold PlaybookService.onLine in *.
  destruct (Js.nonEmpty (Js.trim line) && subscribed); [|done].
  rewrite Hcs in *.
  destruct (parseAnsibleOutput _ _ _ _ _) as [[ev|] c] eqn:E; [|done].
  simpl in *. apply Forall_app. split; [done|]. constructor; [|done].
  by eapply parse_event_update.
Qed.

Lemma pathState_step st ev :
  currentService playbookType = Some playbookType →
  pathState st → pathState (step st ev).
Proof.
  intros Hcs Hst. pose proof (keeps_step st ev) as Hk.
  destruct ev as [text|text|code|message]; simpl in *.
  - unfold PlaybookService.onStdout. clear Hk.
    assert (H0 : pathState (mkState (stdout st +:+ text) (stderr st) (currentTask st)
                     (credentials st) (emitted st) (settled st))) by done.
    generalize dependent (mkState (stdout st +:+ text) (stderr st) (currentTask st)
                     (credentials st) (emitted st) (settled st)).
    intros s0 H0. induction (Js.split LF text) as [|l ls IH] in s0, H0 |- *; [done|].
    simpl. by apply IH, pathState_onLine.
  - destruct Hst as [Hc He]. split; [done|]. unfold onStderr. simpl.
    destruct subscribed; [|done]. apply Forall_app. split; [done|]. by constructor.
  - destruct Hst as [Hc He]. split; [by eapply keeps_path|].
    unfold PlaybookService.onClose, settle. by destruct code as [[| |]|].
  - done.
Qed.

(** X14.  In a run of mysql or mongodb every task result handed to the
    subscriber carries a credential update for the service of the run, and
    the update has a path. *)
Theorem known_service_results_carry_path evs :
  playbookType = "mysql" ∨ playbookType = "mongodb" →
  Forall carriesPath (emitted (executePlaybook evs)).
Proof.
  intros Hpt.
  assert (Hcs : currentService playbookType = Some playbookType).
  { by destruct Hpt as [-> | ->]. }
  assert (H0 : pathState (initial playbookType)).
  { split; [|constructor]. destruct Hpt as [Hpt|Hpt]; subst playbookType;
      eexists; (split; [reflexivity|]); by eexists. }
  unfold PlaybookService.executePlaybook.
  generalize dependent (initial playbookType).
  induction evs as [|ev evs IH]; intros st Hst; [apply Hst|].
  simpl. by apply IH, pathState_step.
Qed.

End Run.

(** A play line cut in two chunks, with a warning in between. *)
Definition brokenChunks : list ChildEvent :=
  [StdoutData "PLAY [a"; StderrData "warning"; StdoutData ("ll]" +:+ nl)].

Lemma output_is_retained_verbatim_witness :
  stdout (executePlaybook noJson "nfs" true brokenChunks) = stdoutText brokenChunks
  ∧ stderr (executePlaybook noJson "nfs" true brokenChunks) = stderrText brokenChunks
  ∧ ∃ s, settled (executePlaybook noJson "nfs" true (brokenChunks ++ [Close (Exited 2)]))
         = Some s
         ∧ Result.stdout (resultOf s) = stdoutText brokenChunks
         ∧ Result.stderr (resultOf s) = stderrText brokenChunks
         ∧ (Exited 2 ≠ Exited 0 →
            Result.fullOutput (resultOf s)
            = Some (stdoutText brokenChunks +:+ nl +:+ stderrText brokenChunks)).
Proof.
  apply (output_is_retained_verbatim noJson "nfs" true brokenChunks (Exited 2)).
  repeat constructor.
Defined.

Definition firstMarker : list ChildEvent :=
  [StdoutData ("ok: [db1] => CREDENTIALS|mysql|username=root" +:+ nl)].

Definition secondMarker : list ChildEvent :=
  [StdoutData ("ok: [db1] => CREDENTIALS|mysql|username=admin" +:+ nl)].

Lemma fields_are_never_dropped_witness :
  keeps (credentials (executePlaybook noJson "mysql" true firstMarker))
        (credentials (executePlaybook noJson "mysql" true (firstMarker ++ secondMarker)))
  ∧ ∃ s c, settled (executePlaybook noJson "mysql" true
                      ((firstMarker ++ secondMarker) ++ [Close (Exited 1)])) = Some s
           ∧ Result.credentials (resultOf s) = Some c
           ∧ keeps (credentials (executePlaybook noJson "mysql" true firstMarker)) c
           ∧ keeps (credentials (initial "mysql")) c.
Proof.
  apply (fields_are_never_dropped noJson "mysql" true firstMarker secondMarker (Exited 1)).
  repeat constructor.
Defined.

Lemma known_service_results_carry_path_witness :
  Forall (carriesPath "mongodb")
         (emitted (executePlaybook noJson "mongodb" true (firstMarker ++ secondMarker))).
Proof.
  apply (known_service_results_carry_path noJson "mongodb" true (firstMarker ++ secondMarker)).
  by right.
Defined.

End PlaybookExtras.

(** *** The lines that carry credentials *)


(** The words that open a task result. *)
Definition resultWords : list string := ["ok"; "changed"; "fatal"; "skipping"].

Module LineExtras.
Import PlaybookService StringFacts TokenFacts PlaybookFacts MarkerFacts.
















Section Streamed.
Variable JSON_parse : string -> ParsedJson.
Variable playbookType : string.

Local Abbreviation onLine := (onLine JSON_parse playbookType true).
Local Abbreviation onStdout := (onStdout JSON_parse playbookType true).
Local Abbreviation step := (step JSON_parse playbookType true).
Local Abbreviation executePlaybook := (executePlaybook JSON_parse playbookType true).


Lemma spread_hasField s d svc k v (c : CredentialSet) :
  hasField svc k v c → hasField svc k v (<[s := spreadOver d (c !! s)]> c).
Proof.
  intros (e & He & Hk). destruct (decide (s = svc)) as [->|Hne].
  - rewrite He. eexists. split; [apply lookup_insert_eq|].
    unfold spreadOver. simpl. by apply lookup_union_Some_l.
  - exists e. by rewrite lookup_insert_ne.
Qed.

Lemma close_keeps_fields st code svc k v :
  PlaybookService.settled st = None → hasField svc k v (credentials st) →
  ∃ s c, PlaybookService.settled (step st (Close code)) = Some s
         ∧ Result.credentials (resultOf s) = Some c ∧ hasField svc k v c.
Proof.
  intros Hp Hf. simpl. unfold PlaybookService.onClose, settle. rewrite Hp.
  assert (H : hasField svc k v
      match currentService playbookType, defaultsOf (currentService playbookType) with
      | Some s, Some d => <[s := spreadOver d (credentials st !! s)]> (credentials st)
      | _, _ => credentials st
      end).
  { destruct (currentService playbookType) as [s|]; [|done].
    destruct (defaultsOf (Some s)); [by apply spread_hasField|done]. }
  destruct code as [[| |]|]; do 2 eexists; (split; [reflexivity|]); by split.
Qed.


End Streamed.


Lemma alternatives_some {A} words (k : string → string → option A) s a :
  Regex.alternatives words k s = Some a →
  ∃ w, w ∈ words ∧ Js.startsWith w s = true ∧ k w (Js.drop (String.length w) s) = Some a.
Proof.
  induction words as [|w words IH]; [done|]. simpl.
  destruct (Js.startsWith w s) eqn:E.
  - destruct (k w (Js.drop (String.length w) s)) as [a0|] eqn:Ek.
    + intros [= <-]. exists w. split; [by left|done].
    + intros H. destruct (IH H) as (w' & Hw & Hs). exists w'. split; [by right|done].
  - intros H. destruct (IH H) as (w' & Hw & Hs). exists w'. split; [by right|done].
Qed.

Lemma taskResult_prefix line r :
  Regex.taskResult line = Some r →
  ∃ w, w ∈ resultWords ∧ Js.startsWith (w +:+ ":") line = true.
Proof.
  unfold Regex.taskResult. intros H.
  apply alternatives_some in H as (w & Hw & Hs & Hk).
  exists w. split; [done|].
  rewrite (ScanFacts.startsWith_split _ _ Hs).
  destruct (Js.drop (String.length w) line) as [|c r1]; [done|].
  assert (Hc : c = ":"%char).
  { destruct c as [[] [] [] [] [] [] [] []]; try done. }
  rewrite Hc. change (String ":" r1) with (":" +:+ r1). rewrite <- append_assoc.
  apply startsWith_append.
Qed.

Section Quiet.
Variable JSON_parse : string -> ParsedJson.
Variable playbookType : string.
Variable subscribed : bool.

(** A line that opens with no word of a task result. *)
Definition plainLine (line : string) : Prop :=
  ∀ w, w ∈ resultWords → Js.startsWith (w +:+ ":") line = false.

Lemma plainLine_credentials st line :
  plainLine line →
  credentials (PlaybookService.onLine JSON_parse playbookType subscribed st line)
  = credentials st.
Proof.
  intros Hplain. unfold PlaybookService.onLine.
  destruct (Js.nonEmpty (Js.trim line) && subscribed); [|done].
  unfold parseAnsibleOutput.
  destruct (Regex.taskResult line) as [r|] eqn:E.
  { destruct (taskResult_prefix line r E) as (w & Hw & Hs). by rewrite Hplain in Hs. }
  destruct (Regex.taskName line); [done|].
  destruct (Regex.playName line); [done|].
  by destruct (Regex.summary line) as [[]|].
Qed.

(** X16.  The handler of stdout reads credentials from task-result lines only: a
    chunk none of whose lines opens with ok:, changed:, fatal: or skipping:
    leaves the credentials as they are, whatever markers or labelled lines
    it holds. *)
Theorem credentials_only_from_result_lines st text :
  Forall plainLine (Js.split LF text) →
  credentials (PlaybookService.step JSON_parse playbookType subscribed st (StdoutData text))
  = credentials st.
Proof.
  intros Hall. simpl. unfold PlaybookService.onStdout.
  change (credentials st) with
    (credentials (mkState (PlaybookService.stdout st +:+ text) (PlaybookService.stderr st)
                    (currentTask st) (credentials st) (emitted st)
                    (PlaybookService.settled st))) at 2.
  generalize (mkState (PlaybookService.stdout st +:+ text) (PlaybookService.stderr st)
                (currentTask st) (credentials st) (emitted st)
                (PlaybookService.settled st)).
  induction Hall as [|l ls Hl _ IH]; intros s0; [done|].
  simpl. rewrite IH. by apply plainLine_credentials.
Qed.

End Quiet.

(** A marker on a line of its own, after a task line. *)
Definition bareMarker : string :=
  "TASK [Show credentials]" +:+ nl +:+ "CREDENTIALS|mysql|username=root" +:+ nl.

Lemma credentials_only_from_result_lines_witness :
  credentials (PlaybookService.step noJson "mysql" true (initial "mysql")
                 (StdoutData bareMarker))
  = credentials (initial "mysql").
Proof.
  apply (credentials_only_from_result_lines noJson "mysql" true (initial "mysql") bareMarker).
  replace (Js.split LF bareMarker)
    with ["TASK [Show credentials]"; "CREDENTIALS|mysql|username=root"; ""]
    by (vm_compute; reflexivity).
  repeat constructor; intros w Hw; unfold resultWords in Hw;
    repeat (apply elem_of_cons in Hw; destruct Hw as [->|Hw]; [reflexivity|]);
    by apply elem_of_nil in Hw.
Defined.

End LineExtras.

(** *** The run of api-server.js: what is shown, exit code 2 *)

(** A text that [processText] shows: not empty, no marker, no labelled line. *)
Definition plainText (m : string) : Prop :=
  Js.nonEmpty m = true
  ∧ Js.startsWith "CREDENTIALS|" m = false
  ∧ firstLabel credentialLabels m = None.

(** Whether [processText] shows a text: trimmed, it is not empty, is no
    marker and has no credential label. *)
Definition shown (text : string) : bool :=
  let t := Js.trim text in
  Js.nonEmpty t && negb (Js.startsWith "CREDENTIALS|" t)
  && match firstLabel credentialLabels t with Some _ => false | None => true end.

(** The texts shown of a list of texts, trimmed, in order. *)
Definition shownTexts (texts : list string) : list string :=
  Js.trim <$> List.filter shown texts.

(** The text of a task result after its host, without the arrow. *)
Definition resultText (message : string) : string :=
  let t := Js.trim message in
  if Js.startsWith "=>" t then Regex.skipWs (Js.drop 2 t) else t.

(** The texts that a task result carries: the items of msg or the stdout of
    a JSON text, and otherwise the text itself. *)
Definition carriedTexts (JSON_parse : string -> ParsedJson) (message : string)
    : list string :=
  let t := resultText message in
  if Js.startsWith "{" t then
    match JSON_parse t with
    | JsonMsg rawMessages => rawMessages
    | JsonStdout out => [out]
    | JsonOther | JsonThrows => [t]
    end
  else [t].

(** The message of a task result event is the join of exactly the texts
    that its line carries and that are shown. *)
Definition showsWhatIsLeft (JSON_parse : string -> ParsedJson) (ev : ProgressEvent) : Prop :=
  match ev with
  | TaskResult status host _ message raw _ =>
      ∃ text,
        Regex.taskResult raw = Some (status, host, text)
        ∧ message = Js.join " | " (shownTexts (carriedTexts JSON_parse text))
        ∧ Forall plainText (shownTexts (carriedTexts JSON_parse text))
  | _ => True
  end.

Module ApiServerExtras.
Import ApiServer StringFacts TokenFacts ApiServerFacts.

Lemma shown_plain text : shown text = true → plainText (Js.trim text).
Proof.
  unfold shown, plainText. cbv zeta.
  intros [[H1 H2]%andb_true_iff H3]%andb_true_iff.
  split; [done|]. split; [by apply negb_true_iff|].
  by destruct (firstLabel credentialLabels (Js.trim text)).
Qed.

Lemma shownTexts_plain texts : Forall plainText (shownTexts texts).
Proof.
  unfold shownTexts. induction texts as [|t ts IH]; [constructor|].
  simpl. destruct (shown t) eqn:E; [|done].
  rewrite fmap_cons. constructor; [by apply shown_plain|done].
Qed.

Lemma shownTexts_one text :
  shownTexts [text] = if shown text then [Js.trim text] else [].
Proof. unfold shownTexts. simpl. by destruct (shown text). Qed.

(** A text is added to the messages to show exactly when it is shown. *)
Lemma processText_shows sc text :
  displayMessages (processText sc text) = displayMessages sc ++ shownTexts [text].
Proof.
  rewrite shownTexts_one. unfold processText, shown. cbv zeta.
  destruct (Js.nonEmpty (Js.trim text)) eqn:En; cbn [negb andb];
    [|by rewrite app_nil_r].
  destruct (Js.startsWith "CREDENTIALS|" (Js.trim text)) eqn:Es; cbn [negb andb].
  - rewrite app_nil_r.
    by destruct (Js.split "|" (Js.trim text)) as [|p0 [|service segments]].
  - destruct (firstLabel credentialLabels (Js.trim text)) as [[[svc key] value]|] eqn:El.
    + by rewrite app_nil_r.
    + done.
Qed.

Lemma shownTexts_cons t ts : shownTexts (t :: ts) = shownTexts [t] ++ shownTexts ts.
Proof. unfold shownTexts. simpl. by destruct (shown t). Qed.

Lemma processTexts_show sc texts :
  displayMessages (foldl processText sc texts) = displayMessages sc ++ shownTexts texts.
Proof.
  induction texts as [|t ts IH] in sc |- *; [by rewrite app_nil_r|].
  simpl foldl. rewrite IH, processText_shows, (shownTexts_cons t ts).
  by rewrite app_assoc.
Qed.

Section Run.
Variable JSON_parse : string -> ParsedJson.
Variable playbookType : string.
Variable subscribed : bool.

Local Abbreviation onLine := (onLine JSON_parse playbookType subscribed).
Local Abbreviation step := (step JSON_parse playbookType subscribed).
Local Abbreviation executePlaybook := (executePlaybook JSON_parse playbookType subscribed).
Local Abbreviation showsWhatIsLeft := (showsWhatIsLeft JSON_parse).

Lemma parse_shows line task creds :
  match (parseAnsibleOutput JSON_parse playbookType line task creds).1.1 with
  | Some ev => showsWhatIsLeft ev
  | None => True
  end.
Proof.
  unfold parseAnsibleOutput.
  destruct (Regex.taskResult line) as [[[status host] message]|] eqn:Eline.
  - cbv zeta. cbn [fst].
    exists message. split; [done|]. split; [|apply shownTexts_plain].
    f_equal. unfold carriedTexts, resultText. cbv zeta.
    set (msg := if Js.startsWith "=>" (Js.trim message)
                then Regex.skipWs (Js.drop 2 (Js.trim message)) else Js.trim message).
    destruct (Js.startsWith "{" msg).
    + destruct (JSON_parse msg);
        first [by rewrite processTexts_show | by rewrite processText_shows].
    + by rewrite processText_shows.
  - destruct (Regex.taskName line); [done|].
    destruct (Regex.playName line); [done|].
    by destruct (Regex.summary line) as [[]|].
Qed.

Lemma onLine_shows st line :
  Forall showsWhatIsLeft (emitted st) → Forall showsWhatIsLeft (emitted (onLine st line)).
Proof.
  intros Hst. unfold ApiServer.onLine.
  destruct (Js.nonEmpty (Js.trim line) && subscribed); [|done].
  pose proof (parse_shows line (currentTask st) (credentials st)) as Hp.
  destruct (parseAnsibleOutput _ _ _ _ _) as [[[ev|] task] c]; simpl in *; [|done].
  apply Forall_app. split; [done|]. by constructor.
Qed.

Lemma step_shows st ev :
  Forall showsWhatIsLeft (emitted st) → Forall showsWhatIsLeft (emitted (step st ev)).
Proof.
  intros Hst. destruct ev as [text|text|code|message]; simpl.
  - unfold ApiServer.onStdout.
    assert (H0 : Forall showsWhatIsLeft
                   (emitted (mkState (stdout st +:+ text) (stderr st) (currentTask st)
                               (credentials st) (emitted st) (settled st)))) by done.
    generalize dependent (mkState (stdout st +:+ text) (stderr st) (currentTask st)
                            (credentials st) (emitted st) (settled st)).
    intros s0 H0. induction (Js.split LF text) as [|l ls IH] in s0, H0 |- *; [done|].
    simpl. by apply IH, onLine_shows.
  - unfold onStderr. simpl. destruct subscribed; [|done].
    apply Forall_app. split; [done|]. by constructor.
  - unfold ApiServer.onClose, settle. by destruct (succeeds code).
  - done.
Qed.

(** X17.  In the executePlaybook of api-server.js every task result handed to
    the subscriber carries the line it was read from, and its message is
    the join, by a bar between blanks, of exactly the texts of that line
    that are shown, trimmed and in order: the texts are the items of msg or
    the stdout of a JSON text and otherwise the text after the host; a text
    is shown when, trimmed, it is not empty, is no marker and has no
    credential label.  A text read as a credential is not in the message,
    and every other text is. *)
Theorem shown_messages_hold_no_credentials evs :
  Forall showsWhatIsLeft (emitted (executePlaybook evs)).
Proof.
  unfold ApiServer.executePlaybook.
  assert (H0 : Forall showsWhatIsLeft (emitted initial)) by constructor.
  generalize dependent initial.
  induction evs as [|ev evs IH]; intros st Hst; [done|].
  simpl. by apply IH, step_shows.
Qed.

(** X18.  The two servers disagree on exit code 2.  After the same output, the
    executePlaybook of api-server.js resolves the promise with success=true
    and no error, and that of playbookService.js rejects it with
    success=false and the reason 'One or more tasks failed'; both carry the
    whole stdout. *)
Theorem exit_code_two_resolves_in_api_server evs :
  Forall isData evs →
  (∃ r, settled (executePlaybook (evs ++ [Close (Exited 2)])) = Some (Resolved r)
        ∧ Result.success r = true
        ∧ Result.error r = None
        ∧ Result.stdout r = stdoutText evs)
  ∧ (∃ r, PlaybookService.settled
            (PlaybookService.executePlaybook JSON_parse playbookType subscribed
               (evs ++ [Close (Exited 2)])) = Some (Rejected r)
          ∧ Result.success r = false
          ∧ Result.error r = Some "One or more tasks failed"
          ∧ Result.stdout r = stdoutText evs).
Proof.
  intros Hd. split.
  - unfold ApiServer.executePlaybook. rewrite foldl_app. simpl.
    destruct (api_data_frame JSON_parse playbookType subscribed initial evs Hd)
      as [Hout Hset].
    simpl in Hout, Hset. generalize dependent (foldl step initial evs).
    intros st Hout Hset. unfold ApiServer.onClose, settle. rewrite Hset. simpl.
    eexists. split; [reflexivity|]. simpl. by rewrite Hout.
  - unfold PlaybookService.executePlaybook. rewrite foldl_app. simpl.
    pose proof (PlaybookFacts.data_keeps_pending JSON_parse playbookType subscribed
                  (PlaybookService.initial playbookType) evs Hd) as Hp.
    destruct (PlaybookExtras.run_buffers JSON_parse playbookType subscribed
                (PlaybookService.initial playbookType) evs) as [Hout _].
    simpl in Hp, Hout.
    generalize dependent (foldl (PlaybookService.step JSON_parse playbookType subscribed)
                            (PlaybookService.initial playbookType) evs).
    intros st Hp Hout. unfold PlaybookService.onClose, PlaybookService.settle.
    rewrite Hp. simpl. eexists. split; [reflexivity|]. simpl. by rewrite Hout.
Qed.

End Run.

Lemma exit_code_two_resolves_in_api_server_witness :
  (∃ r, settled (executePlaybook noJson "mysql" true
                   ([StdoutData ("fatal: [db1]: FAILED!" +:+ nl)] ++ [Close (Exited 2)]))
        = Some (Resolved r)
        ∧ Result.success r = true
        ∧ Result.error r = None
        ∧ Result.stdout r = stdoutText [StdoutData ("fatal: [db1]: FAILED!" +:+ nl)])
  ∧ (∃ r, PlaybookService.settled
            (PlaybookService.executePlaybook noJson "mysql" true
               ([StdoutData ("fatal: [db1]: FAILED!" +:+ nl)] ++ [Close (Exited 2)]))
          = Some (Rejected r)
          ∧ Result.success r = false
          ∧ Result.error r = Some "One or more tasks failed"
          ∧ Result.stdout r = stdoutText [StdoutData ("fatal: [db1]: FAILED!" +:+ nl)]).
Proof.
  apply (exit_code_two_resolves_in_api_server noJson "mysql" true
           [StdoutData ("fatal: [db1]: FAILED!" +:+ nl)]).
  repeat constructor.
Defined.

End ApiServerExtras.

(** *** The validators of the routes *)

Module ValidationExtras.
Import InventoryService Validation StringFacts TokenFacts.

Lemma hostnameLoop_named i (l : list TargetHost) :
  Forall (λ s, hostname s ≠ "") l → hostnameLoop i l = Continue.
Proof.
  intros H. induction H as [|s l Hs _ IH] in i |- *; [done|].
  simpl. by rewrite nonEmpty_true.
Qed.

Lemma hostnameLoop_continue i (l : list TargetHost) :
  hostnameLoop i l = Continue → Forall (λ s, hostname s ≠ "") l.
Proof.
  induction l as [|s l IH] in i |- *; [by constructor|]. simpl.
  destruct (hostname s) eqn:E; [done|]. simpl. intros H.
  constructor; [by rewrite E|by eapply IH].
Qed.

Lemma hostnameLoop_first i (l1 : list TargetHost) h l2 :
  Forall (λ s, hostname s ≠ "") l1 → hostname h = "" →
  hostnameLoop i (l1 ++ h :: l2)
  = Fail (badRequest ("Server " +:+ Js.ofNat (i + length l1 + 1)
                      +:+ ": hostname is required")).
Proof.
  intros H Hh. induction H as [|s l Hs _ IH] in i |- *.
  - simpl. rewrite Hh. simpl. by rewrite Nat.add_0_r.
  - simpl. rewrite nonEmpty_true by done. rewrite IH.
    by replace (S i + length l + 1) with (i + S (length l) + 1) by lia.
Qed.

(** X19.  validateServers lets a request pass exactly when it has a list of
    hosts that is not empty and every host has a host name that is not empty.
    Otherwise it fails with status 400, and for a list it names the first
    host without a name, counting from 1. *)
Theorem validateServers_wants_named_hosts servers :
  (validateServers servers = Continue
   ↔ ∃ l, servers = Some l ∧ l ≠ [] ∧ Forall (λ s, hostname s ≠ "") l)
  ∧ (∀ l1 h l2,
       servers = Some (l1 ++ h :: l2) →
       Forall (λ s, hostname s ≠ "") l1 → hostname h = "" →
       validateServers servers
       = Fail (mkApiError ("Server " +:+ Js.ofNat (length l1 + 1)
                           +:+ ": hostname is required") 400)).
Proof.
  split.
  - split.
    + destruct servers as [[|s l]|]; [done| |done]. intros H.
      exists (s :: l). split; [done|]. split; [done|].
      by apply (hostnameLoop_continue 0).
    + intros (l & -> & Hne & Hall). destruct l as [|s l]; [done|].
      by apply (hostnameLoop_named 0).
  - intros l1 h l2 -> Hall Hh.
    assert (Hl : validateServers (Some (l1 ++ h :: l2)) = hostnameLoop 0 (l1 ++ h :: l2)).
    { by destruct l1. }
    rewrite Hl. by rewrite (hostnameLoop_first 0).
Qed.

Lemma groupBlock_first header prefix (h : TargetHost) l :
  ∃ rest, groupBlock header prefix (h :: l)
          = header +:+ nl +:+ formatServerLine h (prefix +:+ "0") +:+ nl +:+ rest.
Proof.
  unfold groupBlock, hostLines. rewrite imap_cons.
  change (Js.concat (?x :: ?l)) with (x +:+ Js.concat l).
  eexists. rewrite !append_assoc. reflexivity.
Qed.

Lemma kubernetes_groups servers :
  groupsSection servers "kubernetes"
  = groupBlock "[master]" "k8s-master-"
      (filter (λ s, roleIs "master" s || roleIs "k8s-master" s) servers)
    +:+ groupBlock "[worker]" "k8s-worker-"
          (filter (λ s, roleIs "worker" s || roleIs "k8s-worker" s) servers)
    +:+ "[kubernetes:children]" +:+ nl
    +:+ childLine "master"
          (filter (λ s, roleIs "master" s || roleIs "k8s-master" s) servers)
    +:+ childLine "worker"
          (filter (λ s, roleIs "worker" s || roleIs "k8s-worker" s) servers).
Proof. reflexivity. Qed.

(** X20.  A host list that validateKubernetesMaster lets pass gives a kubernetes
    inventory that opens with the group [master], whose first entry is a host
    of the list with role master or k8s-master.  The validator is stricter
    than the builder: a single host with role k8s-master is refused with
    status 400, although the builder would place it in the group [master]. *)
Theorem validated_cluster_has_master_group servers :
  (validateKubernetesMaster servers = Continue →
   ∃ h rest, h ∈ servers
     ∧ (role h = Some "master" ∨ role h = Some "k8s-master")
     ∧ generateInventoryContent servers "kubernetes"
       = "[master]" +:+ nl +:+ formatServerLine h "k8s-master-0" +:+ nl +:+ rest)
  ∧ (∀ h, servers = [h] → role h = Some "k8s-master" →
       validateKubernetesMaster servers
       = Fail (mkApiError "At least one master node is required" 400)
       ∧ groupsSection servers "kubernetes"
         = "[master]" +:+ nl +:+ (formatServerLine h "k8s-master-0" +:+ nl) +:+ nl
           +:+ "[kubernetes:children]" +:+ nl +:+ "master" +:+ nl).
Proof.
  split.
  - unfold validateKubernetesMaster.
    destruct (existsb (roleIs "master") servers) eqn:E; [|done]. intros _.
    apply existsb_exists in E as (m & Hm & Hr).
    set (P := λ s, roleIs "master" s || roleIs "k8s-master" s).
    assert (Hin : m ∈ filter P servers).
    { apply list_elem_of_filter. split; [|by apply list_elem_of_In].
      unfold P. by rewrite Hr. }
    destruct (filter P servers) as [|h masters] eqn:Ef; [by apply elem_of_nil in Hin|].
    assert (Hh : h ∈ filter P servers) by (rewrite Ef; by left).
    apply list_elem_of_filter in Hh as [HP Hh].
    destruct (groupBlock_first "[master]" "k8s-master-" h masters) as [rest Hrest].
    exists h. eexists. split; [done|]. split.
    { unfold P, roleIs in HP. cbv beta in HP. apply Is_true_true in HP.
      apply orb_true_iff in HP as [HP|HP]; apply bool_decide_eq_true in HP; auto. }
    unfold generateInventoryContent. rewrite kubernetes_groups.
    subst P. cbv beta in Ef. rewrite Ef, Hrest. rewrite !append_assoc. reflexivity.
  - intros h -> Hr. split.
    + unfold validateKubernetesMaster. simpl. unfold roleIs. rewrite Hr.
      by rewrite bool_decide_eq_false_2.
    + unfold groupsSection. simpl. rewrite !filter_cons, filter_nil.
      unfold roleIs. rewrite Hr. simpl.
      unfold hostLines. simpl. by rewrite !append_nil_r, !append_assoc.
Qed.

Definition namedHost : TargetHost :=
  mkHost "10.0.0.1" None None None None None (Some "pw") None (Some "master") None.

Definition namelessHost : TargetHost :=
  mkHost "" None None None None None (Some "pw") None (Some "worker") None.

Definition altMasterHost : TargetHost :=
  mkHost "10.0.0.2" None None None None None (Some "pw") None (Some "k8s-master") None.

Lemma validateServers_wants_named_hosts_witness :
  validateServers (Some ([namedHost] ++ namelessHost :: [namedHost]))
  = Fail (mkApiError ("Server " +:+ Js.ofNat (length [namedHost] + 1)
                      +:+ ": hostname is required") 400).
Proof.
  apply (proj2 (validateServers_wants_named_hosts
                  (Some ([namedHost] ++ namelessHost :: [namedHost])))
           [namedHost] namelessHost [namedHost]).
  - reflexivity.
  - repeat constructor. discriminate.
  - reflexivity.
Defined.

Lemma validated_cluster_has_master_group_witness :
  ∃ h rest, h ∈ [altMasterHost; namedHost]
    ∧ (role h = Some "master" ∨ role h = Some "k8s-master")
    ∧ generateInventoryContent [altMasterHost; namedHost] "kubernetes"
      = "[master]" +:+ nl +:+ formatServerLine h "k8s-master-0" +:+ nl +:+ rest.
Proof.
  apply (proj1 (validated_cluster_has_master_group [altMasterHost; namedHost])).
  reflexivity.
Defined.

End ValidationExtras.

(** *** The controller: a request from inventory to clean-up *)

Module ControllerExtras.
Import Node InventoryService CommandLine PlaybookController StringFacts TokenFacts.
Import WorldFacts InventoryFacts InventoryExtras PlaybookExtras.

Lemma playbooks_cases playbookType playbookFile :
  ConfigTables.playbooks !! playbookType = Some playbookFile →
  (playbookType, playbookFile) ∈
    [ ("mysql", "mysql/playbook.yml");
      ("mongodb", "mongodb/playbook.yml");
      ("nfs", "nfs/playbook.yml");
      ("rabbitmq", "rabbitmq/playbook.yml");
      ("env-check", "env-check/playbook.yml");
      ("kubernetes", "kubernetes/playbook.yml");
      ("loadbalancer", "loadbalancer/playbook.yml");
      ("kubectl", "kubectl-istio/playbook.yml");
      ("helm", "helm/playbook.yml");
      ("ssl", "ssl/playbook.yml");
      ("stackbill", "stackbill/playbook.yml") ].
Proof. unfold ConfigTables.playbooks. apply elem_of_list_to_map_2. Qed.

Lemma getPlaybookPath_known ansibleDir notAString playbookType playbookFile w :
  ConfigTables.playbooks !! playbookType = Some playbookFile →
  PathHelper.getPlaybookPath ansibleDir notAString playbookType w
  = (Ret (ansibleDir +:+ "/" +:+ playbookFile), w).
Proof.
  intros Hf. unfold PathHelper.getPlaybookPath, Js.get. rewrite Hf.
  apply playbooks_cases in Hf.
  repeat (apply elem_of_cons in Hf; destruct Hf as [[= -> ->]|Hf]; [done|]).
  by apply elem_of_nil in Hf.
Qed.

(** Every type with a playbook has a directory of roles. *)
Lemma getRolePath_known ansibleDir notAString playbookType playbookFile :
  ConfigTables.playbooks !! playbookType = Some playbookFile →
  ∃ rolesPath, ∀ w,
    PathHelper.getRolePath ansibleDir notAString playbookType w = (Ret rolesPath, w).
Proof.
  intros Hf. apply playbooks_cases in Hf.
  repeat (apply elem_of_cons in Hf; destruct Hf as [[= -> ->]|Hf];
          [eexists; intros w; vm_compute; reflexivity|]).
  by apply elem_of_nil in Hf.
Qed.

Lemma getPlaybookPath_unknown ansibleDir notAString playbookType w :
  ConfigTables.playbooks !! playbookType = None →
  PathHelper.getPlaybookPath ansibleDir notAString playbookType w
  = (Throw (if bool_decide (playbookType ∈ Js.inherited)
            then notAString playbookType
            else "Unknown playbook type: " +:+ playbookType), w).
Proof.
  intros H. unfold PathHelper.getPlaybookPath, Js.get. rewrite H.
  by case_bool_decide.
Qed.

Lemma withDefaults_initial playbookType :
  withDefaults playbookType
    (PlaybookService.credentials (PlaybookService.initial playbookType))
  = PlaybookService.credentials (PlaybookService.initial playbookType).
Proof.
  unfold withDefaults, PlaybookService.initial. simpl.
  destruct (PlaybookService.currentService playbookType) as [svc|]; [|done].
  destruct (PlaybookService.defaultsOf (Some svc)) as [d|]; [|done].
  rewrite lookup_insert_eq. unfold spreadOver. simpl.
  by rewrite map_union_idemp, insert_insert_eq.
Qed.

Section Controller.
Variable isWindows : bool.
Variable normalize : string -> string.
Variable notAString : string -> string.
Variable inventoryDir : string.
Variable ansibleDir : string.
Variable JSON_parse : string -> ParsedJson.

Local Abbreviation executePlaybookStandard :=
  (executePlaybookStandard isWindows normalize notAString inventoryDir ansibleDir JSON_parse).
Local Abbreviation executePlaybookStream :=
  (executePlaybookStream isWindows normalize notAString inventoryDir ansibleDir JSON_parse).
Local Abbreviation getRolePath := (PathHelper.getRolePath ansibleDir notAString).
Local Abbreviation ansibleCmd := (ansibleCmd isWindows normalize).

Lemma announce_logs playbookType rolesPath inventoryPath playbookPath varsJson w :
  (∀ u, getRolePath playbookType u = (Ret rolesPath, u)) →
  announce isWindows normalize ansibleDir notAString
    playbookType inventoryPath playbookPath (Vars varsJson) w
  = (Ret tt, withConsole w
               (console w ++ ["Executing: " +:+ ansibleCmd rolesPath inventoryPath
                                                playbookPath varsJson])).
Proof. intros H. unfold announce, bind. by rewrite H. Qed.

(** X21.  A request without streaming for a run kind with a playbook, with
    variables that are not null, an inventory directory with a name, an
    identifier without a slash and free paths for the run, when the child
    exits after any output.  If generateInventory returns, the answer has
    status 200 and success=true for exit code 0 and status 500 and
    success=false otherwise, it carries the whole stdout and stderr, the
    files are left as they were and the console has gained one line, the
    command of the run after 'Executing: '.  No subscriber being passed,
    the credentials of the answer are the defaults of the service alone,
    whatever the output held.  If generateInventory throws, the request
    throws the same error: there is no answer and no clean-up. *)
Theorem standard_request_answers_and_cleans_up
    inventoryId playbookType playbookFile servers varsJson evs code w :
  ConfigTables.playbooks !! playbookType = Some playbookFile →
  Forall isData evs →
  inventoryDir ≠ "" → avoids ["/"%char] inventoryId = true →
  files w !! inventoryPathOf inventoryDir inventoryId = None →
  (∀ q, q ∈ keyPaths servers → files w !! q = None) →
  (∀ r w1,
     generateInventory inventoryDir inventoryId servers playbookType w = (Ret r, w1) →
     ∃ resp result rolesPath w',
       executePlaybookStandard inventoryId playbookType servers (Vars varsJson)
         (evs ++ [Close code]) w
         = (Ret (Some resp), w')
       ∧ body resp = Sent result
       ∧ status resp = match code with Exited 0 => 200%N | _ => 500%N end
       ∧ Result.success result = match code with Exited 0 => true | _ => false end
       ∧ Result.stdout result = stdoutText evs
       ∧ Result.stderr result = stderrText evs
       ∧ Result.credentials result
         = Some (PlaybookService.credentials (PlaybookService.initial playbookType))
       ∧ files w' = files w
       ∧ getRolePath playbookType w = (Ret rolesPath, w)
       ∧ console w'
         = console w
           ++ ["Executing: "
               +:+ ansibleCmd rolesPath (inventoryPathOf inventoryDir inventoryId)
                     (ansibleDir +:+ "/" +:+ playbookFile) varsJson])
  ∧ (∀ e w1,
       generateInventory inventoryDir inventoryId servers playbookType w = (Throw e, w1) →
       executePlaybookStandard inventoryId playbookType servers (Vars varsJson)
         (evs ++ [Close code]) w
       = (Throw e, w1)).
Proof.
  intros Hknown Hd Hdir Hid Hinv Hkeys.
  pose proof (getPlaybookPath_known ansibleDir notAString _ _ w Hknown) as Hpath.
  destruct (getRolePath_known ansibleDir notAString _ _ Hknown) as [rolesPath Hrole].
  split.
  - intros r w1 Hgen.
    destruct (generateInventory_writes _ _ _ _ _ _ _ Hgen) as [-> _].
    destruct (generateInventory_quiet _ _ _ _ _ _ _ Hdir Hid Hgen) as (Hc & _ & _).
    unfold PlaybookController.executePlaybookStandard, bind, tryCatch.
    rewrite Hpath, Hgen. cbn [fst snd].
    rewrite (announce_logs _ rolesPath) by done.
    rewrite (close_result JSON_parse playbookType false evs code Hd).
    assert (Hcr : PlaybookService.credentials
                    (PlaybookService.executePlaybook JSON_parse playbookType false evs)
                  = PlaybookService.credentials (PlaybookService.initial playbookType)).
    { by apply PlaybookFacts.unsubscribed_parses_nothing. }
    rewrite Hcr, withDefaults_initial.
    unfold closeResult.
    destruct code as [[| |]|];
      rewrite (cleanup_after_generate _ _ _ _ _ _ _ _ Hinv Hkeys Hgen) by done;
      unfold ret; do 4 eexists; (split; [reflexivity|]);
      cbn [body status files console withFiles withConsole];
      rewrite Hc; by repeat split.
  - intros e w1 Hgen.
    unfold PlaybookController.executePlaybookStandard, bind.
    by rewrite Hpath, Hgen.
Qed.

Lemma close_emits_nothing playbookType subscribed evs code :
  PlaybookService.emitted
    (PlaybookService.executePlaybook JSON_parse playbookType subscribed (evs ++ [Close code]))
  = PlaybookService.emitted
      (PlaybookService.executePlaybook JSON_parse playbookType subscribed evs).
Proof.
  rewrite PlaybookFacts.run_snoc. simpl.
  unfold PlaybookService.onClose, PlaybookService.settle. by destruct code as [[| |]|].
Qed.

Lemma exitReason_nonEmpty code : Js.nonEmpty (PlaybookService.exitReason code) = true.
Proof. by destruct code as [[|[|[|[]|]|]|]|]. Qed.

(** X22.  A streaming request for a run kind with a playbook, with variables
    that are not null, an inventory directory with a name, an identifier
    without a slash and free paths for the run, when the child exits after
    any output.  If generateInventory returns, the stream carries the
    progress events in order, then exactly one completion event with the
    success flag, the reason of a failure, the whole stdout and stderr and
    the credentials parsed during the run over the defaults; the stream is
    ended, the files are left as they were and the console has gained the
    one line 'Executing: ' with the command.  If generateInventory throws,
    the stream is a single error event with the message thrown, and is
    ended; nothing is cleaned up. *)
Theorem stream_ends_with_one_completion
    inventoryId playbookType playbookFile servers varsJson evs code w :
  ConfigTables.playbooks !! playbookType = Some playbookFile →
  Forall isData evs →
  inventoryDir ≠ "" → avoids ["/"%char] inventoryId = true →
  files w !! inventoryPathOf inventoryDir inventoryId = None →
  (∀ q, q ∈ keyPaths servers → files w !! q = None) →
  (∀ r w1,
     generateInventory inventoryDir inventoryId servers playbookType w = (Ret r, w1) →
     ∃ rolesPath w',
       executePlaybookStream inventoryId playbookType servers (Vars varsJson)
         (evs ++ [Close code]) w
       = (Ret (mkStream
                 ((Progress <$> PlaybookService.emitted
                                  (PlaybookService.executePlaybook JSON_parse playbookType
                                     true evs))
                  ++ [Complete
                        match code with Exited 0 => true | _ => false end
                        match code with
                        | Exited 0 => None
                        | _ => Some (PlaybookService.exitReason code)
                        end
                        (Some (stdoutText evs)) (Some (stderrText evs))
                        (withDefaults playbookType
                           (PlaybookService.credentials
                              (PlaybookService.executePlaybook JSON_parse playbookType
                                 true evs)))])
                 true),
          w')
       ∧ files w' = files w
       ∧ getRolePath playbookType w = (Ret rolesPath, w)
       ∧ console w'
         = console w
           ++ ["Executing: "
               +:+ ansibleCmd rolesPath (inventoryPathOf inventoryDir inventoryId)
                     (ansibleDir +:+ "/" +:+ playbookFile) varsJson])
  ∧ (∀ e w1,
       generateInventory inventoryDir inventoryId servers playbookType w = (Throw e, w1) →
       executePlaybookStream inventoryId playbookType servers (Vars varsJson)
         (evs ++ [Close code]) w
       = (Ret (mkStream [StreamError e] true), w1)).
Proof.
  intros Hknown Hd Hdir Hid Hinv Hkeys.
  pose proof (getPlaybookPath_known ansibleDir notAString _ _ w Hknown) as Hpath.
  destruct (getRolePath_known ansibleDir notAString _ _ Hknown) as [rolesPath Hrole].
  split.
  - intros r w1 Hgen.
    destruct (generateInventory_writes _ _ _ _ _ _ _ Hgen) as [-> _].
    destruct (generateInventory_quiet _ _ _ _ _ _ _ Hdir Hid Hgen) as (Hc & _ & _).
    unfold PlaybookController.executePlaybookStream, bind, tryCatch.
    rewrite Hpath, Hgen. cbn [fst snd].
    rewrite (announce_logs _ rolesPath) by done. cbv zeta.
    rewrite close_emits_nothing.
    rewrite (close_result JSON_parse playbookType true evs code Hd).
    unfold closeResult.
    pose proof (exitReason_nonEmpty code) as Hne.
    destruct code as [[| |]|];
      rewrite (cleanup_after_generate _ _ _ _ _ _ _ _ Hinv Hkeys Hgen) by done;
      unfold ret;
      cbn [Result.error Result.stdout Result.stderr Result.credentials Js.truthy default];
      rewrite ?Hne; do 2 eexists; (split; [reflexivity|]);
      cbn [files console withFiles withConsole];
      rewrite Hc; by repeat split.
  - intros e w1 Hgen.
    unfold PlaybookController.executePlaybookStream, bind, tryCatch.
    by rewrite Hpath, Hgen.
Qed.

(** X23.  For a run kind that is no key of the table of playbooks nothing is
    started: the request without streaming throws and the streaming request
    sends a single error event and ends the stream, and the world is left as
    it was.  The message is 'Unknown playbook type: ...', unless the kind is
    the name of a property that every object inherits (constructor,
    __proto__, toString and the like): then it is the message of the
    TypeError that joining the path raises. *)
Theorem unknown_playbook_type_starts_nothing
    inventoryId playbookType servers variables evs w :
  ConfigTables.playbooks !! playbookType = None →
  ∃ message,
    message = (if bool_decide (playbookType ∈ Js.inherited)
               then notAString playbookType
               else "Unknown playbook type: " +:+ playbookType)
    ∧ executePlaybookStandard inventoryId playbookType servers variables evs w
      = (Throw message, w)
    ∧ executePlaybookStream inventoryId playbookType servers variables evs w
      = (Ret (mkStream [StreamError message] true), w).
Proof.
  intros Hunknown. eexists. split; [reflexivity|]. split.
  - unfold PlaybookController.executePlaybookStandard, bind.
    by rewrite getPlaybookPath_unknown.
  - unfold PlaybookController.executePlaybookStream, tryCatch, bind.
    by rewrite getPlaybookPath_unknown.
Qed.

End Controller.

(** A run whose output holds a marker, and the host it runs on. *)
Definition markerRun : list ChildEvent :=
  [StdoutData ("ok: [db1] => CREDENTIALS|mysql|username=root" +:+ nl)].

(** The error text of [path.join] for a value that is no string. *)
Definition typeError (name : string) : string :=
  "The " +:+ "path" +:+ " argument must be of type string. Received " +:+ name.

Definition keyRun : Outcome (string * string) * World :=
  generateInventory "/srv/backend/.inventory" "9f86d081884c7d65" [keyHost] "mysql"
    freshWorld.

Lemma standard_request_answers_and_cleans_up_witness :
  ∃ resp result rolesPath w',
    executePlaybookStandard false id typeError "/srv/backend/.inventory" "/srv/ansible"
      noJson "9f86d081884c7d65" "mysql" [keyHost] (Vars None)
      (markerRun ++ [Close (Exited 0)]) freshWorld
      = (Ret (Some resp), w')
    ∧ body resp = Sent result
    ∧ status resp = 200%N
    ∧ Result.success result = true
    ∧ Result.stdout result = stdoutText markerRun
    ∧ Result.stderr result = stderrText markerRun
    ∧ Result.credentials result
      = Some (PlaybookService.credentials (PlaybookService.initial "mysql"))
    ∧ files w' = files freshWorld
    ∧ PathHelper.getRolePath "/srv/ansible" typeError "mysql" freshWorld
      = (Ret rolesPath, freshWorld)
    ∧ console w'
      = console freshWorld
        ++ ["Executing: "
            +:+ ansibleCmd false id rolesPath
                  (inventoryPathOf "/srv/backend/.inventory" "9f86d081884c7d65")
                  ("/srv/ansible" +:+ "/" +:+ "mysql/playbook.yml") None].
Proof.
  apply (proj1 (standard_request_answers_and_cleans_up false id typeError
                  "/srv/backend/.inventory" "/srv/ansible"
                  noJson "9f86d081884c7d65" "mysql" "mysql/playbook.yml" [keyHost] None
                  markerRun (Exited 0) freshWorld
                  ltac:(reflexivity) ltac:(repeat constructor) ltac:(discriminate)
                  ltac:(reflexivity) ltac:(apply lookup_empty)
                  ltac:(intros q _; apply lookup_empty))
           ("9f86d081884c7d65",
            inventoryPathOf "/srv/backend/.inventory" "9f86d081884c7d65") keyRun.2).
  by vm_compute.
Defined.

Lemma stream_ends_with_one_completion_witness :
  ∃ rolesPath w',
    executePlaybookStream false id typeError "/srv/backend/.inventory" "/srv/ansible"
      noJson "9f86d081884c7d65" "mysql" [keyHost] (Vars None)
      (markerRun ++ [Close (Exited 4)]) freshWorld
    = (Ret (mkStream
              ((Progress <$> PlaybookService.emitted
                               (PlaybookService.executePlaybook noJson "mysql" true markerRun))
               ++ [Complete false (Some (PlaybookService.exitReason (Exited 4)))
                     (Some (stdoutText markerRun)) (Some (stderrText markerRun))
                     (withDefaults "mysql"
                        (PlaybookService.credentials
                           (PlaybookService.executePlaybook noJson "mysql" true markerRun)))])
              true),
       w')
    ∧ files w' = files freshWorld
    ∧ PathHelper.getRolePath "/srv/ansible" typeError "mysql" freshWorld
      = (Ret rolesPath, freshWorld)
    ∧ console w'
      = console freshWorld
        ++ ["Executing: "
            +:+ ansibleCmd false id rolesPath
                  (inventoryPathOf "/srv/backend/.inventory" "9f86d081884c7d65")
                  ("/srv/ansible" +:+ "/" +:+ "mysql/playbook.yml") None].
Proof.
  apply (proj1 (stream_ends_with_one_completion false id typeError
                  "/srv/backend/.inventory" "/srv/ansible"
                  noJson "9f86d081884c7d65" "mysql" "mysql/playbook.yml" [keyHost] None
                  markerRun (Exited 4) freshWorld
                  ltac:(reflexivity) ltac:(repeat constructor) ltac:(discriminate)
                  ltac:(reflexivity) ltac:(apply lookup_empty)
                  ltac:(intros q _; apply lookup_empty))
           ("9f86d081884c7d65",
            inventoryPathOf "/srv/backend/.inventory" "9f86d081884c7d65") keyRun.2).
  by vm_compute.
Defined.

Lemma unknown_playbook_type_starts_nothing_witness :
  ∃ message,
    message = "Unknown playbook type: " +:+ "redis"
    ∧ executePlaybookStandard false id typeError "/srv/backend/.inventory" "/srv/ansible"
        noJson "9f86d081884c7d65" "redis" [keyHost] (Vars None) markerRun freshWorld
      = (Throw message, freshWorld)
    ∧ executePlaybookStream false id typeError "/srv/backend/.inventory" "/srv/ansible"
        noJson "9f86d081884c7d65" "redis" [keyHost] (Vars None) markerRun freshWorld
      = (Ret (mkStream [StreamError message] true), freshWorld).
Proof.
  apply (unknown_playbook_type_starts_nothing false id typeError
           "/srv/backend/.inventory" "/srv/ansible"
           noJson "9f86d081884c7d65" "redis" [keyHost] (Vars None) markerRun freshWorld).
  reflexivity.
Defined.

End ControllerExtras.

(** *** The command line *)

(** How [sh -c] reads one word of a command: outside quotes a single quote
    opens a quoted part and a backslash keeps the next character; inside
    quotes every character but the single quote stands for itself.  The
    word is read to the end of the text; white space outside quotes, a
    dangling backslash and an open quote give [None]. *)
Fixpoint shWord (quoted : bool) (s : string) : option string :=
  match s with
  | EmptyString => if quoted then None else Some EmptyString
  | String c rest =>
      if quoted then
        if Js.eqc c CommandLine.singleQuote then shWord false rest
        else String c <$> shWord true rest
      else if Js.eqc c CommandLine.singleQuote then shWord true rest
      else if Js.eqc c PathHelper.backslash then
        match rest with
        | String c' rest' => String c' <$> shWord false rest'
        | EmptyString => None
        end
      else if Js.isWhiteSpace c then None
      else String c <$> shWord false rest
  end.

(** A text made of slashes and backslashes only. *)
Fixpoint onlySeparators (s : string) : bool :=
  match s with
  | EmptyString => true
  | String c rest =>
      (Js.eqc c PathHelper.backslash || Js.eqc c "/"%char) && onlySeparators rest
  end.

(** The path under /mnt of the drive [d] and the rest [body] of a path. *)
Definition wslOf (d : ascii) (body : string) : string :=
  "/mnt/" +:+ String (Js.toLowerChar d) "" +:+ "/"
  +:+ Js.replaceAll PathHelper.backslash "/"%char body.

Module CommandExtras.
Import PathHelper CommandLine StringFacts TokenFacts.

Lemma shWord_escaped json tail :
  shWord true (escapeQuotes json +:+ tail) = String.append json <$> shWord true tail.
Proof.
  induction json as [|c json IH].
  - simpl. rewrite append_nil_l. destruct (shWord true tail); reflexivity.
  - simpl escapeQuotes. destruct (Js.eqc c singleQuote) eqn:E.
    + rewrite !append_cons. cbn [shWord].
      replace (Js.eqc backslash singleQuote) with false by done.
      replace (Js.eqc singleQuote singleQuote) with true by done.
      replace (Js.eqc backslash backslash) with true by done.
      cbv iota. rewrite IH. unfold Js.eqc in E. apply bool_decide_eq_true in E as ->.
      destruct (shWord true tail); reflexivity.
    + rewrite append_cons. cbn [shWord]. rewrite E, IH.
      destruct (shWord true tail); reflexivity.
Qed.

(** X24.  The extra variables are passed as one word that the shell reads back
    as the JSON text itself, whatever single quotes, backslashes or spaces
    the text holds; without variables nothing is added to the command. *)
Theorem extra_vars_reach_the_engine_verbatim json :
  ∃ word, extraVarsStr (Some json) = " -e " +:+ word
          ∧ shWord false word = Some json
          ∧ extraVarsStr None = "".
Proof.
  eexists. split; [reflexivity|]. split; [|done].
  cbn [shWord]. replace (Js.eqc singleQuote singleQuote) with true by done.
  rewrite shWord_escaped. simpl. by rewrite append_nil_r.
Qed.

Lemma includes_replaceAll s : includes backslash (Js.replaceAll backslash "/" s) = false.
Proof.
  induction s as [|c s IH]; [done|]. simpl. rewrite IH.
  destruct (Js.eqc c backslash) eqn:E; [done|]. by rewrite E.
Qed.

Lemma includes_append c a b : includes c (a +:+ b) = includes c a || includes c b.
Proof.
  induction a as [|x a IH]; [done|]. rewrite append_cons. simpl.
  by rewrite IH, orb_assoc.
Qed.

Lemma toLowerChar_plain d : isLetter d = true → Js.eqc (Js.toLowerChar d) backslash = false.
Proof. by destruct d as [[] [] [] [] [] [] [] []]. Qed.

Lemma stripSlashes_head rest : Js.startsWith "/" (stripSlashes rest) = false.
Proof.
  induction rest as [|c rest IH]; [done|]. simpl.
  destruct (Js.eqc c backslash) eqn:E1; [done|].
  destruct (Js.eqc c "/") eqn:E2; [done|]. simpl.
  unfold Js.eqc in *. apply bool_decide_eq_false in E2.
  rewrite bool_decide_eq_false_2; [done|]. by intros <-.
Qed.

Lemma stripSlashes_head_bs rest : Js.startsWith (String backslash "") (stripSlashes rest) = false.
Proof.
  induction rest as [|c rest IH]; [done|]. simpl.
  destruct (Js.eqc c backslash) eqn:E1; [done|].
  destruct (Js.eqc c "/") eqn:E2; [done|]. simpl.
  unfold Js.eqc in *. apply bool_decide_eq_false in E1.
  rewrite bool_decide_eq_false_2; [done|]. by intros <-.
Qed.

Lemma replaceAll_head s :
  Js.startsWith "/" s = false → Js.startsWith (String backslash "") s = false →
  Js.startsWith "/" (Js.replaceAll backslash "/" s) = false.
Proof.
  destruct s as [|c s]; [done|]. simpl. rewrite !andb_true_r.
  intros H1 H2. unfold Js.eqc in *.
  apply bool_decide_eq_false in H1, H2.
  rewrite (bool_decide_eq_false_2 (c = backslash)) by (by intros ->).
  by rewrite bool_decide_eq_false_2.
Qed.

Lemma driveMatch_letter normalized d :
  driveMatch normalized = Some d → isLetter d = true.
Proof.
  unfold driveMatch. destruct normalized as [|x [|y r]]; try done.
  destruct (decide (y = ":"%char)) as [->|Hne].
  - destruct (isLetter x) eqn:E; [by intros [= <-]|done].
  - by destruct y as [[] [] [] [] [] [] [] []].
Qed.

Lemma stripSlashes_body body :
  Js.startsWith "/" body = false → Js.startsWith (String backslash "") body = false →
  stripSlashes body = body.
Proof.
  destruct body as [|c body]; [done|]. simpl. rewrite !andb_true_r.
  intros H1 H2. unfold Js.eqc in *.
  apply bool_decide_eq_false in H1, H2.
  rewrite (bool_decide_eq_false_2 (c = backslash)) by (by intros ->).
  by rewrite bool_decide_eq_false_2 by (by intros ->).
Qed.

Lemma stripSlashes_separators seps body :
  onlySeparators seps = true →
  Js.startsWith "/" body = false → Js.startsWith (String backslash "") body = false →
  stripSlashes (seps +:+ body) = body.
Proof.
  intros Hs H1 H2. induction seps as [|c seps IH].
  - rewrite append_nil_l. by apply stripSlashes_body.
  - simpl in Hs. apply andb_true_iff in Hs as [Hc Hs].
    rewrite append_cons. simpl. rewrite Hc. by apply IH.
Qed.

Section Windows.
Variable normalize : string -> string.

(** X25.  On Windows the path handed to the engine holds no backslash, whatever
    the normalised path is, and getPlatformPath is toWslPath.  When the
    normalised path is a drive letter, a colon, any slashes and backslashes
    and then a body that begins with neither, the result is /mnt/, the
    letter in lower case, a slash and the body with a slash for every
    backslash, wrapped in double quotes exactly when it holds a space.
    Without a drive letter the result is the normalised path with a slash
    for every backslash. *)
Theorem wsl_path_has_no_backslash windowsPath :
  includes backslash (toWslPath true normalize windowsPath) = false
  ∧ getPlatformPath true normalize windowsPath = toWslPath true normalize windowsPath
  ∧ (∀ d seps body,
       normalize windowsPath = String d (String ":" (seps +:+ body)) →
       isLetter d = true → onlySeparators seps = true →
       Js.startsWith "/" body = false →
       Js.startsWith (String backslash "") body = false →
       toWslPath true normalize windowsPath
       = if includes " " (wslOf d body)
         then String doubleQuote (wslOf d body) +:+ String doubleQuote ""
         else wslOf d body)
  ∧ (driveMatch (normalize windowsPath) = None →
     toWslPath true normalize windowsPath
     = Js.replaceAll backslash "/" (normalize windowsPath)).
Proof.
  split; [|split; [done|split]].
  - unfold toWslPath. simpl negb. cbv iota zeta.
    destruct (driveMatch (normalize windowsPath)) as [d|] eqn:E;
      [|apply includes_replaceAll].
    apply driveMatch_letter in E.
    assert (Hraw : includes backslash
              ("/mnt/" +:+ String (Js.toLowerChar d) "" +:+ "/"
               +:+ Js.replaceAll backslash "/"
                     (stripSlashes (Js.drop 2 (normalize windowsPath)))) = false).
    { rewrite !includes_append, includes_replaceAll. simpl.
      by rewrite (toLowerChar_plain d E). }
    destruct (includes " " _); [|done].
    rewrite includes_append. cbn [includes]. by rewrite Hraw.
  - intros d seps body Hn Hd Hseps Hb1 Hb2.
    unfold toWslPath. simpl negb. cbv iota zeta. rewrite Hn.
    cbn [driveMatch]. rewrite Hd. cbn [Js.drop].
    by rewrite stripSlashes_separators.
  - intros Hd. unfold toWslPath. simpl negb. cbv iota zeta. by rewrite Hd.
Qed.

Lemma dropLast_snoc s c : dropLast (s +:+ String c "") = s.
Proof.
  induction s as [|x s IH]; [done|]. rewrite append_cons. simpl. rewrite IH.
  by destruct s.
Qed.

(** X26.  On Windows, for a roles path with a drive letter, executePlaybook
    strips the double quotes that toWslPath may have put around the path: the
    roles path is the plain /mnt/ path, and the assignment that opens the
    command wraps it in single quotes exactly when it holds a space. *)
Theorem roles_path_loses_its_double_quotes rolesPathNative d :
  driveMatch (normalize rolesPathNative) = Some d →
  ∃ rest,
    rolesPathOf true normalize rolesPathNative
    = "/mnt/" +:+ String (Js.toLowerChar d) "" +:+ "/" +:+ rest
    ∧ toWslPath true normalize rolesPathNative
      = (if includes " " (rolesPathOf true normalize rolesPathNative)
         then String doubleQuote (rolesPathOf true normalize rolesPathNative)
              +:+ String doubleQuote ""
         else rolesPathOf true normalize rolesPathNative)
    ∧ rolesExport (rolesPathOf true normalize rolesPathNative)
      = "ANSIBLE_ROLES_PATH="
        +:+ (if includes " " (rolesPathOf true normalize rolesPathNative)
             then String singleQuote
                    (rolesPathOf true normalize rolesPathNative +:+ String singleQuote "")
             else rolesPathOf true normalize rolesPathNative).
Proof.
  intros Hd. unfold rolesPathOf, toWslPath. simpl negb. cbv iota zeta. rewrite Hd.
  set (rest := Js.replaceAll backslash "/" (stripSlashes (Js.drop 2 (normalize rolesPathNative)))).
  set (wsl := "/mnt/" +:+ String (Js.toLowerChar d) "" +:+ "/" +:+ rest).
  exists rest.
  assert (Hraw : (if Js.startsWith (String doubleQuote "") wsl && endsWith doubleQuote wsl
                  then sliceEnds wsl else wsl) = wsl) by done.
  destruct (includes " " wsl) eqn:Esp.
  - assert (Hs : Js.startsWith (String doubleQuote "")
                   (String doubleQuote wsl +:+ String doubleQuote "") = true) by done.
    assert (He : endsWith doubleQuote (String doubleQuote wsl +:+ String doubleQuote "") = true).
    { unfold endsWith. by rewrite ScanFacts.lastChar_append. }
    rewrite Hs, He. cbn [andb]. unfold sliceEnds.
    change (Js.drop 1 (String doubleQuote wsl +:+ String doubleQuote ""))
      with (wsl +:+ String doubleQuote "").
    rewrite dropLast_snoc. split; [done|]. unfold rolesExport. by rewrite !Esp.
  - rewrite Hraw. split; [done|]. unfold rolesExport. by rewrite !Esp.
Qed.

End Windows.

(** A runtime whose [path.normalize] returns the path as it is; it stands
    for the platform's in the example, whose path is normalised already. *)
Definition normalized : string -> string := λ p, p.

Lemma roles_path_loses_its_double_quotes_witness :
  ∃ rest,
    rolesPathOf true normalized "C:\Program Files\stackbill\ansible\roles"
    = "/mnt/" +:+ String (Js.toLowerChar "C") "" +:+ "/" +:+ rest
    ∧ toWslPath true normalized "C:\Program Files\stackbill\ansible\roles"
      = (if includes " " (rolesPathOf true normalized
                            "C:\Program Files\stackbill\ansible\roles")
         then String doubleQuote
                (rolesPathOf true normalized "C:\Program Files\stackbill\ansible\roles")
              +:+ String doubleQuote ""
         else rolesPathOf true normalized "C:\Program Files\stackbill\ansible\roles")
    ∧ rolesExport (rolesPathOf true normalized "C:\Program Files\stackbill\ansible\roles")
      = "ANSIBLE_ROLES_PATH="
        +:+ (if includes " " (rolesPathOf true normalized
                                "C:\Program Files\stackbill\ansible\roles")
             then String singleQuote
                    (rolesPathOf true normalized "C:\Program Files\stackbill\ansible\roles"
                     +:+ String singleQuote "")
             else rolesPathOf true normalized "C:\Program Files\stackbill\ansible\roles").
Proof.
  apply (roles_path_loses_its_double_quotes normalized
           "C:\Program Files\stackbill\ansible\roles" "C"%char).
  reflexivity.
Defined.

End CommandExtras.
